(** * tasknc: the color-rule engine of [color.c]

    A shallow embedding of the color-pair pool, the rule store, the
    predicate evaluator, the resolver and the color-name parser of
    [src/color.c], with the properties stated about them.

    C strings are modelled as [string], [short] and [int] values as [Z]
    with the wrap-around of the conversions written out, [NULL] as [None],
    the linked list of rules as a [list], the [pairs_used] array as a
    [list bool] and the color-pair table kept by curses as a [gmap]. *)

From Stdlib Require Import ZArith String Ascii List Lia Bool.
From stdpp Require Import base list gmap strings.

Open Scope Z_scope.

(** ** C strings *)

Module CStr.

(** [s + n] for a pointer into a NUL-terminated string: [None] when the
    pointer would pass the terminator. *)
Fixpoint advance (n : nat) (s : string) : option string :=
  match n with
  | O => Some s
  | S n' =>
      match s with
      | EmptyString => None
      | String _ rest => advance n' rest
      end
  end.

(** Modelled from the spec: [str_starts_with] of [common.c], which is not
    among the sources; true when the second string is a prefix of the
    first. *)
Fixpoint str_starts_with (s prefix : string) {struct prefix} : bool :=
  match prefix with
  | EmptyString => true
  | String p prefix' =>
      match s with
      | EmptyString => false
      | String c s' => Ascii.eqb c p && str_starts_with s' prefix'
      end
  end.

(** Modelled from the spec: [str_eq] of [common.c], which is not among the
    sources; equality of the contents of two strings. *)
Definition str_eq (a b : string) : bool := String.eqb a b.

(** [isspace] in the C locale. *)
Definition isspace (c : ascii) : bool :=
  let n := nat_of_ascii c in
  (n =? 32)%nat || ((9 <=? n)%nat && (n <=? 13)%nat).

Definition isdigit (c : ascii) : bool :=
  let n := nat_of_ascii c in
  (48 <=? n)%nat && (n <=? 57)%nat.

Definition digit_val (c : ascii) : Z := Z.of_nat (nat_of_ascii c) - 48.

(** The white-space directive of a [scanf] format: skip any amount of
    white space, possibly none. *)
Fixpoint skip_space (s : string) : string :=
  match s with
  | String c rest => if isspace c then skip_space rest else s
  | EmptyString => s
  end.

(** The longest prefix without the character [q] (the scan set [[^q]]),
    and what follows it. *)
Fixpoint span_not (q : ascii) (s : string) : string * string :=
  match s with
  | EmptyString => (EmptyString, EmptyString)
  | String c rest =>
      if Ascii.eqb c q then (EmptyString, s)
      else let '(a, b) := span_not q rest in (String c a, b)
  end.

(** [calloc(2, sizeof(char))] with the first byte set to [c]: the empty
    string when [c] is NUL, the one-character string otherwise. *)
Definition of_char (c : ascii) : string :=
  if Ascii.eqb c zero then EmptyString else String c EmptyString.

End CStr.

Import CStr.

(** ** Tasks ([tasks.h]): the fields the evaluator reads *)

Record task := {
  description : option string;
  project : option string;
  tags : option string;
  priority : ascii
}.

(** ** The predicate evaluator *)

(** What [sscanf(rule, "~%c '%m[^\']'", &pattern, &regex)] returns and
    assigns. *)
Inductive clause_scan :=
| ScanEOF                                   (* input ended before [%c] *)
| ScanNone                                  (* the literal [~] did not match *)
| ScanLetter (pattern : ascii)              (* only [%c] was converted *)
| ScanClause (pattern : ascii) (regex : string).

Definition scan_ret (r : clause_scan) : Z :=
  match r with
  | ScanEOF => -1
  | ScanNone => 0
  | ScanLetter _ => 1
  | ScanClause _ _ => 2
  end.

Definition quote : ascii := "'"%char.
Definition tilde : ascii := "~"%char.

Definition sscanf_clause (rule : string) : clause_scan :=
  match rule with
  | EmptyString => ScanEOF
  | String c0 r1 =>
      if negb (Ascii.eqb c0 tilde) then ScanNone
      else
        match r1 with
        | EmptyString => ScanEOF
        | String pattern r2 =>
            match skip_space r2 with
            | String q r3 =>
                if Ascii.eqb q quote then
                  match fst (span_not quote r3) with
                  | EmptyString => ScanLetter pattern
                  | regex => ScanClause pattern regex
                  end
                else ScanLetter pattern
            | EmptyString => ScanLetter pattern
            end
        end
  end.

Section Evaluator.

(** [match_string haystack needle] of [common.c], which is not among the
    sources: whether the regular expression [needle] matches [haystack].
    The haystack is a task field and may be [NULL]. *)
Variable match_string : option string -> string -> bool.

(** [eval_rules] on a non-NULL rule. [fuel] bounds the depth of the
    recursion; [None] stands for a call that does not produce a result:
    the fuel ran out, or [rule+move] left the string. *)
Fixpoint eval_rules_from (fuel : nat) (rule : string) (tsk : task)
    (selected : bool) : option bool :=
  match fuel with
  | O => None
  | S fuel' =>
      match rule with
      | EmptyString => Some true                 (* *rule == 0 *)
      | String c rest =>
          if negb (Ascii.eqb c tilde) then       (* skip non-patterns *)
            eval_rules_from fuel' rest tsk selected
          else if str_starts_with rule "~S" then (* is task selected *)
            if selected then
              match advance 2 rule with
              | Some r => eval_rules_from fuel' r tsk selected
              | None => None
              end
            else Some false
          else
            match sscanf_clause rule with        (* regex match *)
            | ScanClause pattern regex =>
                let move := (String.length regex + 3)%nat in
                let next :=
                  match advance move rule with
                  | Some r => eval_rules_from fuel' r tsk selected
                  | None => None
                  end in
                if Ascii.eqb pattern "p" then
                  if negb (match_string (project tsk) regex)
                  then Some false else next
                else if Ascii.eqb pattern "d" then
                  if negb (match_string (description tsk) regex)
                  then Some false else next
                else if Ascii.eqb pattern "t" then
                  if negb (match_string (tags tsk) regex)
                  then Some false else next
                else if Ascii.eqb pattern "r" then
                  if negb (match_string (Some (of_char (priority tsk))) regex)
                  then Some false else next
                else Some false                  (* default: go = false *)
            | _ => Some false                    (* ret != 2 *)
            end
      end
  end.

(** [eval_rules(rule, tsk, selected)]; a [NULL] rule matches. One unit of
    fuel per character and one for the terminator is enough
    ([eval_rules_from_enough] below). *)
Definition eval_rules (rule : option string) (tsk : task)
    (selected : bool) : bool :=
  match rule with
  | None => true
  | Some r =>
      match eval_rules_from (S (String.length r)) r tsk selected with
      | Some b => b
      | None => false
      end
  end.

End Evaluator.

(** ** The predicate language as the specification words it

    A predicate is a sequence of clauses, each introduced by a tilde; the
    characters between clauses hold no tilde. A clause is [~S], or a letter
    and a pattern in single quotes. *)

Inductive clause :=
| Selected
| Field (letter : ascii) (pattern : string).

Definition clause_text (c : clause) : string :=
  match c with
  | Selected => "~S"
  | Field letter pattern =>
      String tilde (String letter (" '" +:+ pattern +:+ "'"))
  end.

(** The text of a predicate: every clause after the characters that
    precede it, and [tail] after the last clause. *)
Fixpoint predicate_text (cs : list (string * clause)) (tail : string)
    : string :=
  match cs with
  | [] => tail
  | (sep, c) :: cs' => sep +:+ clause_text c +:+ predicate_text cs' tail
  end.

Fixpoint has_char (q : ascii) (s : string) : bool :=
  match s with
  | EmptyString => false
  | String c rest => Ascii.eqb c q || has_char q rest
  end.

Fixpoint last_char (s : string) : option ascii :=
  match s with
  | EmptyString => None
  | String c EmptyString => Some c
  | String _ rest => last_char rest
  end.

(** A pattern the evaluator steps over cleanly: not empty, without a quote,
    and not ending in a tilde. *)
Definition pattern_ok (pattern : string) : bool :=
  match last_char pattern with
  | None => false
  | Some c => negb (Ascii.eqb c tilde)
  end && negb (has_char quote pattern).

Definition clause_ok (c : clause) : bool :=
  match c with
  | Selected => true
  | Field letter pattern => negb (Ascii.eqb letter "S") && pattern_ok pattern
  end.

Definition known_letter (letter : ascii) : bool :=
  Ascii.eqb letter "S" || Ascii.eqb letter "p" || Ascii.eqb letter "d"
  || Ascii.eqb letter "t" || Ascii.eqb letter "r".

(** Whether what follows a clause letter opens a pattern: white space, a
    quote, and a character other than a quote. *)
Definition opens_pattern (rest : string) : bool :=
  match skip_space rest with
  | String q (String c _) => Ascii.eqb q quote && negb (Ascii.eqb c quote)
  | _ => false
  end.

(** A matcher to run the evaluator with, for patterns without operators of
    regular expressions: the needle occurs in the haystack; nothing matches
    a [NULL] haystack. *)
Fixpoint occurs (needle haystack : string) : bool :=
  str_starts_with haystack needle ||
  match haystack with
  | EmptyString => false
  | String _ rest => occurs needle rest
  end.

Definition match_literal (haystack : option string) (needle : string)
    : bool :=
  match haystack with
  | None => false
  | Some h => occurs needle h
  end.

Section ClauseMeaning.

Variable match_string : option string -> string -> bool.

(** What a clause asks of a task: the selection flag, or a match of the
    pattern against the field the letter selects; no field for any other
    letter. *)
Definition clause_holds (tsk : task) (selected : bool) (c : clause)
    : bool :=
  match c with
  | Selected => selected
  | Field letter pattern =>
      if Ascii.eqb letter "p" then match_string (project tsk) pattern
      else if Ascii.eqb letter "d" then match_string (description tsk) pattern
      else if Ascii.eqb letter "t" then match_string (tags tsk) pattern
      else if Ascii.eqb letter "r"
           then match_string (Some (of_char (priority tsk))) pattern
      else false
  end.

End ClauseMeaning.

(** ** Machine integers *)

Definition SHRT_MAX : Z := 32767.
Definition INT_MAX : Z := 2147483647.
Definition INT_MIN : Z := -2147483648.
Definition LONG_MAX : Z := 9223372036854775807.
Definition LONG_MIN : Z := -9223372036854775808.

(** Conversion to [short] and to [int] (two's complement wrap-around). *)
Definition to_short (z : Z) : Z := (z + 32768) mod 65536 - 32768.
Definition to_int (z : Z) : Z := (z + 2147483648) mod 4294967296 - 2147483648.

(** ** Object classes and rules ([color.h], [color.c]) *)

(** Modelled from the spec: the enumeration [color_object] of [color.h],
    which is not among the sources; [color.c] names these four values. *)
Inductive color_object :=
| OBJECT_HEADER
| OBJECT_TASK
| OBJECT_ERROR
| OBJECT_NONE.

Definition object_eqb (a b : color_object) : bool :=
  match a, b with
  | OBJECT_HEADER, OBJECT_HEADER
  | OBJECT_TASK, OBJECT_TASK
  | OBJECT_ERROR, OBJECT_ERROR
  | OBJECT_NONE, OBJECT_NONE => true
  | _, _ => false
  end.

(** [struct _color_rule]; the [next] pointer is the tail of the list. The
    fields [pair], [rule] and [object] carry a prefix here. *)
Record color_rule := {
  rule_pair : Z;
  rule_text : option string;
  rule_object : color_object
}.

Definition set_rule_pair (this : color_rule) (ret : Z) : color_rule :=
  {| rule_pair := ret; rule_text := rule_text this;
     rule_object := rule_object this |}.

(** The global variables of [color.c], and the color-pair table that curses
    keeps ([scr_pairs], written by [init_pair], read by [pair_content]). *)
Record colors := {
  use_colors : bool;
  colors_initialized : bool;
  pairs_used : option (list bool);
  color_rules : list color_rule;
  scr_pairs : gmap Z (Z * Z)
}.

(** The globals as their initialisers leave them. *)
Definition colors_start : colors :=
  {| use_colors := false; colors_initialized := false; pairs_used := None;
     color_rules := []; scr_pairs := ∅ |}.

Definition with_pool (st : colors) (used : list bool)
    (scr : gmap Z (Z * Z)) : colors :=
  {| use_colors := use_colors st;
     colors_initialized := colors_initialized st;
     pairs_used := Some used; color_rules := color_rules st;
     scr_pairs := scr |}.

Definition with_rules (st : colors) (rules : list color_rule) : colors :=
  {| use_colors := use_colors st;
     colors_initialized := colors_initialized st;
     pairs_used := pairs_used st; color_rules := rules;
     scr_pairs := scr_pairs st |}.

(** The curses color constants. *)
Definition COLOR_BLACK : Z := 0.
Definition COLOR_RED : Z := 1.
Definition COLOR_GREEN : Z := 2.
Definition COLOR_YELLOW : Z := 3.
Definition COLOR_BLUE : Z := 4.
Definition COLOR_MAGENTA : Z := 5.
Definition COLOR_CYAN : Z := 6.
Definition COLOR_WHITE : Z := 7.

(** The curses macro [COLOR_PAIR(n)]: the pair number moved into the color
    bits of an attribute, [(n << 8) & A_COLOR]. *)
Definition A_COLOR : Z := 65280.
Definition COLOR_PAIR (n : Z) : Z := Z.land (Z.shiftl n 8) A_COLOR.

(** The color numbers of a terminal with [COLORS] colors, after
    curs_color(3X): from 0 below [COLORS], and -1 for the default color of
    the terminal once [use_default_colors] was called. *)
Definition legal_color (COLORS : Z) (c : Z) : bool :=
  (-1 <=? c) && (c <? COLORS).

(** What curses keeps of a color number once default colors are in use:
    the number itself from 0 on, and -1, the default color, for every
    negative number. *)
Definition stored_color (c : Z) : Z := if c <? 0 then -1 else c.


(** ** The pair pool *)

Section Pool.

(** [COLOR_PAIRS] as the terminal reports it after [start_color()], and
    the color numbers [init_pair] accepts on it; for ncurses with default
    colors in use these are the numbers of [default_color_ok]. *)
Variable COLOR_PAIRS : Z.
Variable color_ok : Z -> bool.

(** What a read of [pairs_used] outside the allocated array finds. *)
Variable beyond : Z -> bool.

(** [pairs_used[i]]. *)
Definition read_used (used : list bool) (i : Z) : bool :=
  if i <? 0 then beyond i
  else match used !! Z.to_nat i with
       | Some b => b
       | None => beyond i
       end.

(** The curses primitives, after curs_color(3X): a pair number is legal
    from 1 below [COLOR_PAIRS] for [init_pair] and from 0 for
    [pair_content]; with pair 0 marked in [pairs_used], as [init_colors]
    leaves it, and [COLOR_PAIRS] in the range of [short], [find_add_pair]
    asks [init_pair] for pairs of that range only. A pool exists only
    after [use_default_colors()] succeeded, and from then on curses keeps
    the default color, -1, for every negative color number it is given:
    [init_pair] stores [stored_color] of the colors it accepts, and
    [pair_content] returns what is stored. [None] is [ERR]. *)
Definition init_pair (scr : gmap Z (Z * Z)) (pair fg bg : Z)
    : option (gmap Z (Z * Z)) :=
  if (1 <=? pair) && (pair <? COLOR_PAIRS) && color_ok fg && color_ok bg
  then Some (<[pair := (stored_color fg, stored_color bg)]> scr)
  else None.

Definition pair_content (scr : gmap Z (Z * Z)) (pair : Z)
    : option (Z * Z) :=
  if (0 <=? pair) && (pair <? COLOR_PAIRS)
  then Some (default (0, 0) (scr !! pair))
  else None.

(** The loop [while (pairs_used[pair] && pair<COLOR_PAIRS) pair++] of
    [add_color_pair]: the value of [pair] when it ends, and the indices
    of [pairs_used] read on the way, in order. [None]: the fuel ran out. *)
Fixpoint free_search (fuel : nat) (used : list bool) (pair : Z)
    : option (Z * list Z) :=
  match fuel with
  | O => None
  | S fuel' =>
      if read_used used pair && (pair <? COLOR_PAIRS) then
        match free_search fuel' used (to_short (pair + 1)) with
        | Some (p, reads) => Some (p, pair :: reads)
        | None => None
        end
      else Some (pair, [pair])
  end.

(** [add_color_pair(askpair, fg, bg)] on an allocated [pairs_used]. *)
Definition add_color_pair (used : list bool) (scr : gmap Z (Z * Z))
    (askpair fg bg : Z) : option (Z * list bool * gmap Z (Z * Z)) :=
  let chosen :=
    if askpair <=? 0 then
      (* pick a color number if none is specified *)
      match free_search (S (Z.to_nat COLOR_PAIRS)) used 0 with
      | Some (slot, _) =>
          if slot =? COLOR_PAIRS then Some (inl (-1)) else Some (inr slot)
      | None => None
      end
    else
      (* check if pair requested is being used *)
      if read_used used askpair then Some (inl (-1))
      else Some (inr askpair) in
  match chosen with
  | None => None
  | Some (inl ret) => Some (ret, used, scr)
  | Some (inr slot) =>
      match init_pair scr slot fg bg with
      | None => Some (-1, used, scr)
      | Some scr' => Some (slot, <[Z.to_nat slot := true]> used, scr')
      end
  end.

(** The [for] loop of [find_add_pair]: [inl pair] when a used pair with
    the content is found, [inr free_pair] when the loop runs to its end. *)
Fixpoint find_pair (fuel : nat) (used : list bool) (scr : gmap Z (Z * Z))
    (fg bg : Z) (pair free_pair : Z) : option (Z + Z) :=
  match fuel with
  | O => None
  | S fuel' =>
      if pair <? COLOR_PAIRS then
        if read_used used pair then
          match pair_content scr pair with
          | None => find_pair fuel' used scr fg bg (to_short (pair + 1)) free_pair
          | Some (tmpfg, tmpbg) =>
              if (tmpfg =? fg) && (tmpbg =? bg) then Some (inl pair)
              else find_pair fuel' used scr fg bg (to_short (pair + 1)) free_pair
          end
        else
          find_pair fuel' used scr fg bg (to_short (pair + 1))
            (if free_pair =? -1 then pair else free_pair)
      else Some (inr free_pair)
  end.

(** [find_add_pair(fg, bg)]. [None]: [pairs_used] is [NULL], or a loop
    does not end. *)
Definition find_add_pair (st : colors) (fg bg : Z) : option (Z * colors) :=
  match pairs_used st with
  | None => None
  | Some used =>
      match find_pair (S (Z.to_nat COLOR_PAIRS)) used (scr_pairs st) fg bg 1 (-1) with
      | None => None
      | Some (inl slot) => Some (slot, st)
      | Some (inr free_pair) =>
          match add_color_pair used (scr_pairs st) free_pair fg bg with
          | None => None
          | Some (ret, used', scr') => Some (ret, with_pool st used' scr')
          end
      end
  end.

(** ** The rule store *)

(** The test of [add_color_rule] for an existing rule: same object, and
    the same rule pointer or rules with the same content. *)
Definition same_rule (this : color_rule) (object : color_object)
    (rule : option string) : bool :=
  object_eqb (rule_object this) object &&
  match rule_text this, rule with
  | None, None => true
  | Some a, Some b => String.eqb a b
  | _, _ => false
  end.

(** The walk of [add_color_rule] over the list from [this] on: the return
    value, the list from [this] on afterwards, and the state (whose
    [color_rules] field is set by [add_color_rule] below). *)
Fixpoint add_color_rule_walk (rules : list color_rule) (st : colors)
    (object : color_object) (rule : option string) (fg bg : Z)
    : option (Z * list color_rule * colors) :=
  match rules with
  | this :: next =>
      if same_rule this object rule then
        (* look for existing rule and overwrite colors *)
        match find_add_pair st fg bg with
        | None => None
        | Some (ret, st') =>
            if ret <? 0 then Some (ret, rules, st')
            else Some (0, set_rule_pair this ret :: next, st')
        end
      else
        match add_color_rule_walk next st object rule fg bg with
        | None => None
        | Some (ret, next', st') => Some (ret, this :: next', st')
        end
  | [] =>
      (* or create a new rule *)
      match find_add_pair st fg bg with
      | None => None
      | Some (ret, st') =>
          if ret <? 0 then Some (ret, [], st')
          else Some (0, [{| rule_pair := ret; rule_text := rule;
                            rule_object := object |}], st')
      end
  end.

Definition add_color_rule (st : colors) (object : color_object)
    (rule : option string) (fg bg : Z) : option (Z * colors) :=
  match add_color_rule_walk (color_rules st) st object rule fg bg with
  | None => None
  | Some (ret, rules', st') => Some (ret, with_rules st' rules')
  end.

(** [set_default_colors()]: the return values of [add_color_rule] are not
    looked at. *)
Definition default_rules : list (color_object * option string * Z * Z) :=
  [ (OBJECT_HEADER, None, COLOR_BLUE, COLOR_BLACK);
    (OBJECT_TASK, None, -1, -1);
    (OBJECT_TASK, Some "~r '[Mm]'"%string, COLOR_YELLOW, -1);
    (OBJECT_TASK, Some "~d '\?'"%string, COLOR_GREEN, -1);
    (OBJECT_TASK, Some "~p 'task*'"%string, COLOR_RED, -1);
    (OBJECT_TASK, Some "~S"%string, COLOR_CYAN, COLOR_BLACK);
    (OBJECT_ERROR, None, COLOR_RED, -1) ].

Fixpoint add_color_rules (st : colors)
    (l : list (color_object * option string * Z * Z)) : option colors :=
  match l with
  | [] => Some st
  | (object, rule, fg, bg) :: l' =>
      match add_color_rule st object rule fg bg with
      | None => None
      | Some (_, st') => add_color_rules st' l'
      end
  end.

Definition set_default_colors (st : colors) : option (Z * colors) :=
  match add_color_rules st default_rules with
  | None => None
  | Some st' => Some (0, st')
  end.

(** ** Initialisation *)

(** The answers of [start_color()], [use_default_colors()] (true: not
    [ERR]) and [has_colors()]. *)
Variable start_color_ok : bool.
Variable use_default_colors_ok : bool.
Variable has_colors : bool.

Definition init_colors (st : colors) : option (Z * colors) :=
  let st0 :=
    {| use_colors := false; colors_initialized := colors_initialized st;
       pairs_used := pairs_used st; color_rules := color_rules st;
       scr_pairs := scr_pairs st |} in
  if negb start_color_ok then Some (1, st0)
  else if negb use_default_colors_ok then Some (2, st0)
  else
    let st1 :=
      {| use_colors := has_colors; colors_initialized := true;
         pairs_used := pairs_used st; color_rules := color_rules st;
         scr_pairs := scr_pairs st |} in
    if has_colors then
      (* allocate pairs_used; [calloc(0, ..)] has no element 0 to set *)
      if COLOR_PAIRS <? 1 then None
      else
        set_default_colors
          (with_pool st1
             (<[0%nat := true]> (replicate (Z.to_nat COLOR_PAIRS) false))
             (scr_pairs st))
    else Some (3, st1).

End Pool.

(** ** The resolver *)

Section Resolver.

Variable match_string : option string -> string -> bool.

(** The loop of [get_colors] from [rule] on, with the current value of
    [pair]: its value at the end, and the rule texts that were handed to
    [eval_rules] on the way, in order. *)
Fixpoint get_colors_walk (rules : list color_rule) (object : color_object)
    (tsk : task) (selected : bool) (pair : Z)
    : Z * list (option string) :=
  match rules with
  | [] => (pair, [])
  | rule :: next =>
      if object_eqb object (rule_object rule) then
        match object with
        | OBJECT_ERROR | OBJECT_HEADER =>
            (* done = true: pair = rule->pair; break *)
            (rule_pair rule, [])
        | OBJECT_TASK =>
            let hit := eval_rules match_string (rule_text rule) tsk selected in
            let '(p, evaluated) :=
              get_colors_walk next object tsk selected
                (if hit then rule_pair rule else pair) in
            (p, rule_text rule :: evaluated)
        | _ => get_colors_walk next object tsk selected pair
        end
      else get_colors_walk next object tsk selected pair
  end.

Definition get_colors (st : colors) (object : color_object) (tsk : task)
    (selected : bool) : Z :=
  COLOR_PAIR (fst (get_colors_walk (color_rules st) object tsk selected 0)).

(** The rule texts [get_colors] evaluates. *)
Definition get_colors_evaluated (st : colors) (object : color_object)
    (tsk : task) (selected : bool) : list (option string) :=
  snd (get_colors_walk (color_rules st) object tsk selected 0).

End Resolver.

(** ** Parsing color and object names *)

(** What a [sscanf] call with the single conversion [%d] returns and
    assigns. *)
Inductive int_scan :=
| IntEOF                  (* the input ended before the conversion: -1 *)
| IntNone                 (* nothing was converted: 0 *)
| IntValue (i : Z).       (* one value was converted: 1 *)

Definition int_scan_ret (r : int_scan) : Z :=
  match r with
  | IntEOF => -1
  | IntNone => 0
  | IntValue _ => 1
  end.

(** The digits at the head of [s], at most [max] of them: their value on
    top of [acc], and how many there are. *)
Fixpoint digits_value (max : nat) (s : string) (acc : Z) (n : nat)
    : Z * nat :=
  match max with
  | O => (acc, n)
  | S max' =>
      match s with
      | String c rest =>
          if isdigit c
          then digits_value max' rest (acc * 10 + digit_val c) (S n)
          else (acc, n)
      | EmptyString => (acc, n)
      end
  end.

(** glibc converts the digits with [strtol], which stops at the ends of
    [long], and stores the result through the [int] pointer. *)
Definition strtol_clamp (v : Z) : Z := Z.max LONG_MIN (Z.min LONG_MAX v).

(** The conversion [%d], with a field width or without: white space is
    skipped, then a sign and digits are read within the width. *)
Definition scan_d (width : option nat) (s : string) : int_scan :=
  match skip_space s with
  | EmptyString => IntEOF
  | String c r =>
      let w := match width with
               | Some w => w
               | None => String.length (String c r)
               end in
      let signed := Ascii.eqb c "-" || Ascii.eqb c "+" in
      let '(v, n) :=
        if signed then digits_value (Nat.pred w) r 0 0
        else digits_value w (String c r) 0 0 in
      if (n =? 0)%nat then IntNone
      else IntValue (to_int (strtol_clamp (if Ascii.eqb c "-" then - v else v)))
  end.

(** The ordinary characters of a format ahead of a conversion. *)
Fixpoint scan_literal (lit : string) (k : string -> int_scan) (s : string)
    : int_scan :=
  match lit with
  | EmptyString => k s
  | String l lit' =>
      match s with
      | EmptyString => IntEOF
      | String c s' =>
          if Ascii.eqb c l then scan_literal lit' k s' else IntNone
      end
  end.

(** [sscanf(name, "%d", &i)] and [sscanf(name, "color%3d", &i)]. *)
Definition sscanf_d (name : string) : int_scan := scan_d None name.
Definition sscanf_color3d (name : string) : int_scan :=
  scan_literal "color" (scan_d (Some 3%nat)) name.

Definition colors_map : list (Z * string) :=
  [ (COLOR_BLACK, "black"%string);
    (COLOR_RED, "red"%string);
    (COLOR_GREEN, "green"%string);
    (COLOR_YELLOW, "yellow"%string);
    (COLOR_BLUE, "blue"%string);
    (COLOR_MAGENTA, "magenta"%string);
    (COLOR_CYAN, "cyan"%string);
    (COLOR_WHITE, "white"%string) ].

(** The loop over a name map, with the value returned when it ends. *)
Fixpoint map_lookup {A : Type} (map : list (A * string)) (name : string)
    (none : A) : A :=
  match map with
  | [] => none
  | (v, n) :: map' => if str_eq n name then v else map_lookup map' name none
  end.

Definition parse_color (name : string) : Z :=
  match sscanf_d name with            (* try for int *)
  | IntValue i => i
  | _ =>
      match sscanf_color3d name with  (* try for colorNNN *)
      | IntValue i => i
      | _ => map_lookup colors_map name (-2)   (* look for mapped color *)
      end
  end.

Definition color_objects_map : list (color_object * string) :=
  [ (OBJECT_HEADER, "header"%string);
    (OBJECT_TASK, "task"%string);
    (OBJECT_ERROR, "error"%string) ].

Definition parse_object (name : string) : color_object :=
  map_lookup color_objects_map name OBJECT_NONE.

(** ** Resolution as the specification words it *)

Section ResolverWords.

Variable match_string : option string -> string -> bool.

(** A rule applies to an object of its class: to a task when its
    predicate matches, to a header or an error as it is. *)
Definition rule_matches (object : color_object) (tsk : task)
    (selected : bool) (r : color_rule) : bool :=
  object_eqb object (rule_object r) &&
  match object with
  | OBJECT_TASK => eval_rules match_string (rule_text r) tsk selected
  | OBJECT_HEADER | OBJECT_ERROR => true
  | OBJECT_NONE => false
  end.

(** The pair of the last rule that applies, 0 when none does. *)
Definition last_match_pair (rules : list color_rule)
    (object : color_object) (tsk : task) (selected : bool) : Z :=
  default 0
    (last (map rule_pair
             (List.filter (rule_matches object tsk selected) rules))).

End ResolverWords.

(** The pair of the first rule of a class, 0 when there is none. *)
Definition first_of_class_pair (rules : list color_rule)
    (object : color_object) : Z :=
  match List.find (fun r => object_eqb object (rule_object r)) rules with
  | Some r => rule_pair r
  | None => 0
  end.

(** ** Sample data *)

Definition sample_task : task :=
  {| description := Some "is this done?"%string;
     project := Some "task-research"%string;
     tags := None;
     priority := "M"%char |}.

Definition tilde_task : task :=
  {| description := Some "a~b"%string;
     project := None;
     tags := None;
     priority := zero |}.

(** ** States of the pool *)

Section PoolStates.

Variable COLOR_PAIRS : Z.
Variable beyond : Z -> bool.

(** [pairs_used] is allocated with [COLOR_PAIRS] entries, as
    [init_colors] leaves it. *)
Definition pool_ready (st : colors) : Prop :=
  exists used, pairs_used st = Some used /\
               Z.of_nat (length used) = COLOR_PAIRS.

(** The pair holds the content [(fg, bg)], as [find_add_pair] tests it. *)
Definition holds_content (scr : gmap Z (Z * Z)) (pair fg bg : Z) : bool :=
  match pair_content COLOR_PAIRS scr pair with
  | Some (tmpfg, tmpbg) => (tmpfg =? fg) && (tmpbg =? bg)
  | None => false
  end.

(** The pair is in use, as far as [pairs_used] says. *)
Definition pair_in_use (st : colors) (pair : Z) : Prop :=
  exists used, pairs_used st = Some used /\
               read_used beyond used pair = true.

(** No two pairs in use from 1 on hold the same content. *)
Definition contents_unique (st : colors) : Prop :=
  forall p q fg bg,
    1 <= p < COLOR_PAIRS -> 1 <= q < COLOR_PAIRS ->
    pair_in_use st p -> pair_in_use st q ->
    holds_content (scr_pairs st) p fg bg = true ->
    holds_content (scr_pairs st) q fg bg = true ->
    p = q.

(** Every pair below [COLOR_PAIRS] is in use. *)
Definition pool_full (st : colors) : Prop :=
  forall p, 0 <= p < COLOR_PAIRS -> pair_in_use st p.

(** No pair in use from 1 on holds the content [(fg, bg)]. *)
Definition content_absent (st : colors) (fg bg : Z) : Prop :=
  forall p, 1 <= p < COLOR_PAIRS -> pair_in_use st p ->
            holds_content (scr_pairs st) p fg bg = false.

(** What a call of [find_add_pair] that gives the pair [P] does: it finds
    a pair in use with the content and changes nothing, or it takes the
    first pair not in use, which then holds the colors as curses keeps
    them. *)
Inductive pair_given (st : colors) (fg bg : Z) (P : Z) (st' : colors)
    : Prop :=
| pair_found :
    st' = st ->
    pair_given st fg bg P st'
| pair_taken used :
    COLOR_PAIRS <= SHRT_MAX ->
    pairs_used st = Some used ->
    st' = with_pool st (<[Z.to_nat P := true]> used)
            (<[P := (stored_color fg, stored_color bg)]> (scr_pairs st)) ->
    1 <= P < COLOR_PAIRS ->
    read_used beyond used P = false ->
    (forall q, 1 <= q < P -> read_used beyond used q = true) ->
    (forall q, 1 <= q < COLOR_PAIRS -> read_used beyond used q = true ->
               holds_content (scr_pairs st) q fg bg = false) ->
    pair_given st fg bg P st'.

End PoolStates.

(** A terminal with eight colors and eight color pairs; the heap past
    [pairs_used] holds zero bytes. *)
Definition zero_heap : Z -> bool := fun _ => false.


(** The state after [init_colors()] on that terminal: the default rules
    take the pairs 1 to 6. *)
Definition started8 : colors :=
  match init_colors 8 (legal_color 8) zero_heap true true true colors_start with
  | Some (_, st) => st
  | None => colors_start
  end.

(** And after one more rule with a color of its own, which takes pair 7,
    the last one. *)
Definition full8 : colors :=
  match add_color_rule 8 (legal_color 8) zero_heap started8 OBJECT_TASK
          (Some "~t 'x'"%string) COLOR_WHITE COLOR_BLUE with
  | Some (_, st) => st
  | None => started8
  end.

(** A rule store with the single rule Task/"~S". *)
Definition selected_only : colors :=
  with_rules colors_start
    [ {| rule_pair := 6; rule_text := Some "~S"%string;
         rule_object := OBJECT_TASK |} ].

(** ** Decimal numerals *)

(** The text of a numeral with the digits [ds], the most significant
    first, and the number it denotes. *)
Definition digit_char (d : nat) : ascii := ascii_of_nat (48 + d).

Fixpoint digits_text (ds : list nat) : string :=
  match ds with
  | [] => EmptyString
  | d :: ds' => String (digit_char d) (digits_text ds')
  end.

Fixpoint digits_number (ds : list nat) (acc : Z) : Z :=
  match ds with
  | [] => acc
  | d :: ds' => digits_number ds' (acc * 10 + Z.of_nat d)
  end.

Definition all_digits (ds : list nat) : bool :=
  forallb (fun d => (d <? 10)%nat) ds.

(** A numeral with an optional minus sign. *)
Definition numeral_text (negative : bool) (ds : list nat) : string :=
  if negative then String "-" (digits_text ds) else digits_text ds.

Definition numeral_number (negative : bool) (ds : list nat) : Z :=
  if negative then - digits_number ds 0 else digits_number ds 0.

Definition starts_with_digit (s : string) : bool :=
  match s with
  | String c _ => isdigit c
  | EmptyString => false
  end.

(** ** Rules and the pairs they carry *)

Section StoreStates.

Variable COLOR_PAIRS : Z.
Variable beyond : Z -> bool.

(** Every rule of the store carries a pair from 1 below [COLOR_PAIRS] that
    is in use. *)
Definition rules_allocated (st : colors) : Prop :=
  forall r, In r (color_rules st) ->
            1 <= rule_pair r < COLOR_PAIRS /\
            pair_in_use beyond st (rule_pair r).

End StoreStates.

(** The rule [add_color_rule] makes of its arguments and a pair. *)
Definition new_rule (object : color_object) (rule : option string)
    (ret : Z) : color_rule :=
  {| rule_pair := ret; rule_text := rule; rule_object := object |}.

Section DensePool.

Variable COLOR_PAIRS : Z.
Variable beyond : Z -> bool.

(** A pool whose pairs were handed out in a row: [contents] lists, without
    repetition, what the pairs 1, 2, ... hold; these pairs and pair 0 are
    in use and no other pair below [COLOR_PAIRS] is. *)
Definition dense_pool (st : colors) (contents : list (Z * Z)) : Prop :=
  pool_ready COLOR_PAIRS st /\
  Z.of_nat (length contents) < COLOR_PAIRS /\
  (forall q, 0 <= q < COLOR_PAIRS ->
             (pair_in_use beyond st q <-> q <= Z.of_nat (length contents))) /\
  (forall j c, contents !! j = Some c ->
               pair_content COLOR_PAIRS (scr_pairs st) (Z.of_nat j + 1)
               = Some c) /\
  NoDup contents.

End DensePool.

(** The rules [set_default_colors] asks for, with the pairs they get on a
    terminal that has the pairs and the colors for them. *)
Definition default_store : list color_rule :=
  [ new_rule OBJECT_HEADER None 1;
    new_rule OBJECT_TASK None 2;
    new_rule OBJECT_TASK (Some "~r '[Mm]'"%string) 3;
    new_rule OBJECT_TASK (Some "~d '\?'"%string) 4;
    new_rule OBJECT_TASK (Some "~p 'task*'"%string) 5;
    new_rule OBJECT_TASK (Some "~S"%string) 6;
    new_rule OBJECT_ERROR None 5 ].

(** The contents of the pairs 1 to 6 then, in the order of their first
    use. *)
Definition default_contents : list (Z * Z) :=
  [ (COLOR_BLUE, COLOR_BLACK); (-1, -1); (COLOR_YELLOW, -1);
    (COLOR_GREEN, -1); (COLOR_RED, -1); (COLOR_CYAN, COLOR_BLACK) ].


(** ** Quotes around a value ([command.c]) *)

Definition dquote : ascii := ascii_of_nat 34.

(** The string of the two quote characters of [strip_quotes]. *)
Definition quotes : string := String dquote (String quote EmptyString).

(** [strchr(s, c) != NULL]: the character is in the string, or is the
    terminator. *)
Definition strchr_found (s : string) (c : ascii) : bool :=
  has_char c s || Ascii.eqb c zero.

(** [strncpy(newstr, src, n)] into zeroed memory of more than [n] bytes:
    the first [n] characters of [src], all of it when it is shorter. *)
Fixpoint strncpy (n : nat) (src : string) : string :=
  match n, src with
  | S n', String c rest => String c (strncpy n' rest)
  | _, _ => EmptyString
  end.

(** [strip_quotes(&str, needsfree)]: the string [*strptr] points to
    afterwards. [None] stands for a call without a defined result: the walk
    to the end reads [str[1]] of an empty string, the [int] counter [len]
    or [len+1] overflows, or [strncpy] is called with the count [len-1] = -1
    for a string of one quote character, which as a [size_t] is larger than
    the one byte allocated. *)
Definition strip_quotes (str : string) : option string :=
  match str with
  | EmptyString => None
  | String first rest =>
      (* walk to end of string *)
      let len := String.length rest in
      let last := match last_char str with
                  | Some c => c
                  | None => first
                  end in
      if INT_MAX <? Z.of_nat len then None
      else
        (* determine if string has quotes *)
        let inquotes := Ascii.eqb first last && strchr_found quotes first in
        if inquotes then
          (* copy quoted string: calloc(len+1, ..), strncpy(.., len-1) *)
          if INT_MAX <? Z.of_nat len + 1 then None
          else
            match len with
            | O => None
            | S n => Some (strncpy n rest)
            end
        else Some str              (* copy unquoted string *)
  end.

(** ** Task records of the restructured code ([src/task.c]) *)

Module Task.

Inductive task_fields :=
| TASK_INDEX | TASK_UUID | TASK_TAGS | TASK_START | TASK_END | TASK_ENTRY
| TASK_DUE | TASK_PROJECT | TASK_PRIORITY | TASK_DESCRIPTION | TASK_URGENCY
| TASK_UNKNOWN.

(** [strcmp(a, b) == 0]. *)
Definition strcmp_eq (a b : string) : bool := String.eqb a b.

Definition parse_task_fields_name (name : string) : task_fields :=
  if strcmp_eq "id" name then TASK_INDEX
  else if strcmp_eq "uuid" name then TASK_UUID
  else if strcmp_eq "tags" name then TASK_TAGS
  else if strcmp_eq "start" name then TASK_START
  else if strcmp_eq "end" name then TASK_END
  else if strcmp_eq "entry" name then TASK_ENTRY
  else if strcmp_eq "due" name then TASK_DUE
  else if strcmp_eq "project" name then TASK_PROJECT
  else if strcmp_eq "priority" name then TASK_PRIORITY
  else if strcmp_eq "description" name then TASK_DESCRIPTION
  else if strcmp_eq "urgency" name then TASK_URGENCY
  else TASK_UNKNOWN.

(** The name of a field in the export of taskwarrior, the way
    [parse_task_fields_name] reads it backwards. *)
Definition field_name (f : task_fields) : option string :=
  match f with
  | TASK_INDEX => Some "id"%string
  | TASK_UUID => Some "uuid"%string
  | TASK_TAGS => Some "tags"%string
  | TASK_START => Some "start"%string
  | TASK_END => Some "end"%string
  | TASK_ENTRY => Some "entry"%string
  | TASK_DUE => Some "due"%string
  | TASK_PROJECT => Some "project"%string
  | TASK_PRIORITY => Some "priority"%string
  | TASK_DESCRIPTION => Some "description"%string
  | TASK_URGENCY => Some "urgency"%string
  | TASK_UNKNOWN => None
  end.

Section Parse.

(** The type [float], its zero, and what [sscanf(value, "%f", &urgency)]
    converts ([None]: nothing, and [urgency] keeps its value). *)
Variable float : Type.
Variable float_zero : float.
Variable sscanf_f : string -> option float.

(** [strtotime]: the [time_t] that [strptime] and [mktime] of the C library
    make of a time string. *)
Variable strtotime : string -> Z.

(** [struct task]; the field [end] is [end_] here. *)
Record task := {
  description : option string;
  project : option string;
  tags : option string;
  uuid : option string;
  priority : ascii;
  urgency : float;
  due : Z;
  end_ : Z;
  entry : Z;
  start : Z;
  index : Z
}.

(** The simple functions for accessing the fields. *)
Definition task_get_index (t : task) : Z := index t.
Definition task_get_uuid (t : task) : option string := uuid t.
Definition task_get_tags (t : task) : option string := tags t.
Definition task_get_project (t : task) : option string := project t.
Definition task_get_priority (t : task) : ascii := priority t.
Definition task_get_description (t : task) : option string := description t.

(** The locals of [parse_task] before the loop. *)
Definition blank : task :=
  {| description := None; project := None; tags := None; uuid := None;
     priority := zero; urgency := float_zero;
     due := 0; end_ := 0; entry := 0; start := 0; index := 0 |}.

(** [*value]: the first character of a string, the terminator of an empty
    one. *)
Definition first_char (value : string) : ascii :=
  match value with
  | String c _ => c
  | EmptyString => zero
  end.

(** [sscanf(value, "%hd", &index)] with [index] an [unsigned short]: the
    low sixteen bits of the number read, or [index] as it was. *)
Definition scan_index (value : string) (index0 : Z) : Z :=
  match scan_d None value with
  | IntValue i => i mod 65536
  | _ => index0
  end.

(** One turn of the loop of [parse_task]: the locals after the switch on
    the field. *)
Definition assign (t : task) (field value : string) : task :=
  match parse_task_fields_name field with
  | TASK_UUID =>
      {| description := description t; project := project t; tags := tags t;
         uuid := Some value; priority := priority t; urgency := urgency t;
         due := due t; end_ := end_ t; entry := entry t; start := start t;
         index := index t |}
  | TASK_TAGS =>
      {| description := description t; project := project t;
         tags := Some value; uuid := uuid t; priority := priority t;
         urgency := urgency t; due := due t; end_ := end_ t;
         entry := entry t; start := start t; index := index t |}
  | TASK_PROJECT =>
      {| description := description t; project := Some value; tags := tags t;
         uuid := uuid t; priority := priority t; urgency := urgency t;
         due := due t; end_ := end_ t; entry := entry t; start := start t;
         index := index t |}
  | TASK_DESCRIPTION =>
      {| description := Some value; project := project t; tags := tags t;
         uuid := uuid t; priority := priority t; urgency := urgency t;
         due := due t; end_ := end_ t; entry := entry t; start := start t;
         index := index t |}
  | TASK_PRIORITY =>
      {| description := description t; project := project t; tags := tags t;
         uuid := uuid t; priority := first_char value; urgency := urgency t;
         due := due t; end_ := end_ t; entry := entry t; start := start t;
         index := index t |}
  | TASK_INDEX =>
      {| description := description t; project := project t; tags := tags t;
         uuid := uuid t; priority := priority t; urgency := urgency t;
         due := due t; end_ := end_ t; entry := entry t; start := start t;
         index := scan_index value (index t) |}
  | TASK_URGENCY =>
      {| description := description t; project := project t; tags := tags t;
         uuid := uuid t; priority := priority t;
         urgency := match sscanf_f value with
                    | Some u => u
                    | None => urgency t
                    end;
         due := due t; end_ := end_ t; entry := entry t; start := start t;
         index := index t |}
  | TASK_DUE =>
      {| description := description t; project := project t; tags := tags t;
         uuid := uuid t; priority := priority t; urgency := urgency t;
         due := strtotime value; end_ := end_ t; entry := entry t;
         start := start t; index := index t |}
  | TASK_END =>
      {| description := description t; project := project t; tags := tags t;
         uuid := uuid t; priority := priority t; urgency := urgency t;
         due := due t; end_ := strtotime value; entry := entry t;
         start := start t; index := index t |}
  | TASK_ENTRY =>
      {| description := description t; project := project t; tags := tags t;
         uuid := uuid t; priority := priority t; urgency := urgency t;
         due := due t; end_ := end_ t; entry := strtotime value;
         start := start t; index := index t |}
  | TASK_START =>
      {| description := description t; project := project t; tags := tags t;
         uuid := uuid t; priority := priority t; urgency := urgency t;
         due := due t; end_ := end_ t; entry := entry t;
         start := strtotime value; index := index t |}
  | TASK_UNKNOWN => t
  end.

(** The loop of [parse_task] over the fields that [parse_json] returns, a
    name and a value each, and the task made of the locals. *)
Definition parse_fields (fields : list (string * string)) : task :=
  fold_left (fun t fv => assign t (fst fv) (snd fv)) fields blank.

(** [parse_task(str)], with [parse_json] of [json.c], which is not among
    the sources; [None] is [NULL]. *)
Definition parse_task (parse_json : string -> option (list (string * string)))
    (str : string) : option task :=
  match parse_json str with
  | None => None
  | Some fields => Some (parse_fields fields)
  end.

End Parse.

(** The value of the last field of a name, as a list of fields has it. *)
Definition last_value (name : string) (fields : list (string * string))
    : option string :=
  match List.find (fun fv => String.eqb name (fst fv)) (rev fields) with
  | Some fv => Some (snd fv)
  | None => None
  end.

End Task.

(** * Properties *)

#[local] Arguments String.append !_ _ : simpl nomatch.


(** ** Pointers into strings *)

Lemma advance_length n s r :
  advance n s = Some r -> String.length s = (n + String.length r)%nat.
Proof.
  revert s; induction n as [|n IH]; intros s H; simpl in H.
  - by inversion H.
  - destruct s as [|c s]; [discriminate|].
    simpl. by rewrite (IH _ H).
Qed.

Lemma advance_within n s :
  (n <= String.length s)%nat -> exists r, advance n s = Some r.
Proof.
  revert s; induction n as [|n IH]; intros s H; simpl.
  - eauto.
  - destruct s as [|c s]; simpl in H; [lia|]. apply IH. lia.
Qed.

Lemma advance_app a b : advance (String.length a) (a +:+ b) = Some b.
Proof. induction a as [|c a IH]; simpl; auto. Qed.

Lemma skip_space_length s :
  (String.length (skip_space s) <= String.length s)%nat.
Proof.
  induction s as [|c s IH]; simpl; [lia|].
  destruct (isspace c); simpl; lia.
Qed.

Lemma span_not_length q s :
  (String.length (fst (span_not q s)) <= String.length s)%nat.
Proof.
  induction s as [|c s IH]; simpl; [lia|].
  destruct (Ascii.eqb c q); simpl; [lia|].
  destruct (span_not q s); simpl in *; lia.
Qed.

(** When [sscanf] converts both items, the rule holds at least the tilde,
    the letter, the quote and the pattern: [rule+move] stays inside it. *)
Lemma sscanf_clause_length rule pattern regex :
  sscanf_clause rule = ScanClause pattern regex ->
  (String.length regex + 3 <= String.length rule)%nat /\
  (0 < String.length regex)%nat.
Proof.
  unfold sscanf_clause.
  destruct rule as [|c0 [|p r2]]; try discriminate;
    destruct (negb (Ascii.eqb c0 tilde)); try discriminate.
  pose proof (skip_space_length r2) as Hs.
  destruct (skip_space r2) as [|q r3]; [discriminate|].
  destruct (Ascii.eqb q quote); [|discriminate].
  pose proof (span_not_length quote r3) as Hp.
  destruct (fst (span_not quote r3)) as [|c re] eqn:E; [discriminate|].
  intros [= <- <-]. simpl in *. lia.
Qed.

Lemma span_not_app q p rest :
  has_char q p = false ->
  span_not q (p +:+ String q rest) = (p, String q rest).
Proof.
  induction p as [|c p IH]; cbn [has_char String.append span_not]; intros H.
  - by rewrite Ascii.eqb_refl.
  - apply orb_false_elim in H as [H1 H2].
    by rewrite H1, (IH H2).
Qed.

Lemma span_not_all q p :
  has_char q p = false -> span_not q p = (p, EmptyString).
Proof.
  induction p as [|c p IH]; cbn [has_char span_not]; intros H; [done|].
  apply orb_false_elim in H as [H1 H2].
  by rewrite H1, (IH H2).
Qed.

Lemma last_char_snoc p c :
  last_char p = Some c -> exists p0, p = p0 +:+ String c EmptyString.
Proof.
  induction p as [|a p IH]; cbn [last_char]; [discriminate|].
  destruct p as [|b p].
  - intros [= ->]. by exists EmptyString.
  - intros H. destruct (IH H) as [p0 Hp0]. exists (String a p0).
    cbn [String.append]. by rewrite <- Hp0.
Qed.

Lemma append_assoc (a b c : string) : (a +:+ b) +:+ c = a +:+ (b +:+ c).
Proof. induction a as [|x a IH]; cbn [String.append]; [done|]. by rewrite IH. Qed.

Lemma append_nil_r (a : string) : a +:+ EmptyString = a.
Proof. induction a as [|x a IH]; cbn [String.append]; [done|]. by rewrite IH. Qed.

Lemma length_append (a b : string) :
  String.length (a +:+ b) = (String.length a + String.length b)%nat.
Proof. induction a as [|x a IH]; cbn [String.append String.length]; [done|]. by rewrite IH. Qed.

(** The letter [sscanf] assigns is the character after the tilde. *)
Lemma sscanf_clause_letter c0 letter rest pattern regex :
  sscanf_clause (String c0 (String letter rest)) = ScanClause pattern regex ->
  pattern = letter.
Proof.
  unfold sscanf_clause.
  destruct (negb (Ascii.eqb c0 tilde)); [discriminate|].
  destruct (skip_space rest) as [|q r3]; [discriminate|].
  destruct (Ascii.eqb q quote); [|discriminate].
  destruct (fst (span_not quote r3)); [discriminate|].
  by intros [= <- _].
Qed.

Section EvaluatorFacts.

Variable match_string : option string -> string -> bool.

#[local] Abbreviation eval_from := (eval_rules_from match_string).
#[local] Abbreviation eval := (eval_rules match_string).

(** One unit of fuel per character and one more always give a result. *)
Lemma eval_rules_from_total fuel rule tsk selected :
  (String.length rule < fuel)%nat ->
  exists b, eval_from fuel rule tsk selected = Some b.
Proof.
  revert rule; induction fuel as [|fuel IH]; intros rule H; [lia|].
  destruct rule as [|c rest]; cbn [eval_rules_from]; [eauto|].
  cbn [String.length] in H.
  destruct (negb (Ascii.eqb c tilde)); [apply IH; lia|].
  destruct (str_starts_with (String c rest) "~S") eqn:Hs.
  - destruct selected; [|eauto].
    destruct rest as [|c1 rest1]; [cbn in Hs; by rewrite andb_false_r in Hs|].
    cbn [advance]. apply IH. cbn [String.length] in H. lia.
  - destruct (sscanf_clause (String c rest)) as [| |p|p re] eqn:E; eauto.
    apply sscanf_clause_length in E as [E1 E2].
    destruct (advance_within _ _ E1) as [r Hr].
    rewrite Hr.
    assert (Hn : exists b, eval_from fuel r tsk selected = Some b).
    { apply IH. apply advance_length in Hr. cbn [String.length] in Hr. lia. }
    destruct Hn as [b Hb]. rewrite Hb.
    repeat match goal with
           | |- context [if ?c then _ else _] => destruct c
           end; eauto.
Qed.

(** More fuel does not change a result. *)
Lemma eval_rules_from_more fuel rule tsk selected b :
  eval_from fuel rule tsk selected = Some b ->
  eval_from (S fuel) rule tsk selected = Some b.
Proof.
  revert rule b; induction fuel as [|fuel IH]; intros rule b H; [discriminate|].
  destruct rule as [|c rest]; [exact H|].
  remember (S fuel) as f eqn:Ef.
  rewrite Ef in H. cbn [eval_rules_from] in H. cbn [eval_rules_from].
  destruct (negb (Ascii.eqb c tilde)); [subst f; by apply IH|].
  destruct (str_starts_with (String c rest) "~S").
  - destruct selected; [|exact H].
    destruct (advance 2 (String c rest)); [subst f; by apply IH|discriminate].
  - destruct (sscanf_clause (String c rest)) as [| |p|p re]; try exact H.
    destruct (advance (String.length re + 3) (String c rest)) as [r|].
    + destruct (eval_from fuel r tsk selected) as [b'|] eqn:E.
      * subst f. rewrite (IH _ _ E). exact H.
      * repeat match type of H with
               | context [if ?c then _ else _] => destruct c
               end; try discriminate; exact H.
    + exact H.
Qed.

Lemma eval_rules_from_enough fuel rule tsk selected :
  (String.length rule < fuel)%nat ->
  eval_from fuel rule tsk selected = Some (eval (Some rule) tsk selected).
Proof.
  intros H. unfold eval_rules.
  destruct (eval_rules_from_total (S (String.length rule)) rule tsk selected)
    as [b Hb]; [lia|].
  rewrite Hb.
  replace fuel with ((fuel - S (String.length rule)) + S (String.length rule))%nat by lia.
  induction (fuel - S (String.length rule))%nat as [|k IH]; [exact Hb|].
  cbn [Nat.add]. by apply eval_rules_from_more.
Qed.

(** *** The equations of [eval_rules] *)

Lemma eval_rules_end tsk selected : eval (Some EmptyString) tsk selected = true.
Proof. reflexivity. Qed.

Lemma eval_rules_skip c rest tsk selected :
  Ascii.eqb c tilde = false ->
  eval (Some (String c rest)) tsk selected = eval (Some rest) tsk selected.
Proof.
  intros H. unfold eval_rules at 1.
  cbn [eval_rules_from]. rewrite H. cbn [negb].
  by rewrite eval_rules_from_enough by (cbn [String.length]; lia).
Qed.

Lemma eval_rules_skip_all sep rest tsk selected :
  has_char tilde sep = false ->
  eval (Some (sep +:+ rest)) tsk selected = eval (Some rest) tsk selected.
Proof.
  induction sep as [|c sep IH]; cbn [has_char String.append]; [done|].
  intros H. apply orb_false_elim in H as [H1 H2].
  rewrite eval_rules_skip by done. by apply IH.
Qed.

Lemma eval_rules_selected rest tsk selected :
  eval (Some (String tilde (String "S" rest))) tsk selected
  = selected && eval (Some rest) tsk selected.
Proof.
  unfold eval_rules at 1.
  cbn [eval_rules_from].
  change (negb (Ascii.eqb tilde tilde)) with false. cbv iota.
  change (str_starts_with (String tilde (String "S" rest)) "~S") with true.
  cbv iota. destruct selected; [|done].
  cbn [advance andb].
  by rewrite eval_rules_from_enough by (cbn [String.length]; lia).
Qed.

Lemma eval_rules_scanned rule letter regex r tsk selected :
  str_starts_with rule "~" = true ->
  str_starts_with rule "~S" = false ->
  sscanf_clause rule = ScanClause letter regex ->
  advance (String.length regex + 3) rule = Some r ->
  eval (Some rule) tsk selected
  = clause_holds match_string tsk selected (Field letter regex)
    && eval (Some r) tsk selected.
Proof.
  intros H1 H2 H3 H4. unfold eval_rules at 1.
  destruct rule as [|c rest]; [discriminate|].
  cbn [eval_rules_from]. cbn in H1. rewrite andb_true_r in H1.
  unfold tilde. rewrite H1. cbn [negb]. rewrite H2, H3, H4.
  rewrite eval_rules_from_enough
    by (apply advance_length in H4; lia).
  cbn [clause_holds].
  repeat match goal with
         | |- context [Ascii.eqb letter ?x] => destruct (Ascii.eqb letter x)
         | |- context [match_string ?a ?b] => destruct (match_string a b)
         end; reflexivity.
Qed.

Lemma eval_rules_unscanned rule tsk selected :
  str_starts_with rule "~" = true ->
  str_starts_with rule "~S" = false ->
  scan_ret (sscanf_clause rule) <> 2 ->
  eval (Some rule) tsk selected = false.
Proof.
  intros H1 H2 H3. unfold eval_rules.
  destruct rule as [|c rest]; [discriminate|].
  cbn [eval_rules_from]. cbn in H1. rewrite andb_true_r in H1.
  unfold tilde. rewrite H1. cbn [negb]. rewrite H2.
  destruct (sscanf_clause (String c rest)); try reflexivity.
  by destruct H3.
Qed.

Lemma eval_rules_unknown_letter letter rest tsk selected :
  known_letter letter = false ->
  eval (Some (String tilde (String letter rest))) tsk selected = false.
Proof.
  unfold known_letter. intros H.
  repeat (apply orb_false_elim in H as [H ?]).
  assert (Hs : str_starts_with (String tilde (String letter rest)) "~S" = false).
  { cbn. by rewrite H. }
  destruct (sscanf_clause (String tilde (String letter rest)))
    as [| |p|p re] eqn:E.
  1-3: apply eval_rules_unscanned; try done; by rewrite E.
  pose proof (sscanf_clause_letter _ _ _ _ _ E) as ->.
  destruct (sscanf_clause_length _ _ _ E) as [E1 _].
  destruct (advance_within _ _ E1) as [r Hr].
  rewrite (eval_rules_scanned (String tilde (String letter rest)) letter re r
             tsk selected eq_refl Hs E Hr).
  cbn [clause_holds].
  repeat match goal with
         | Hx : Ascii.eqb letter ?x = false |- _ => rewrite Hx; clear Hx
         end. reflexivity.
Qed.

(** A letter, a quote and a pattern are scanned as such, with the closing
    quote or at the end of the string, and [rule+move] is the last
    character of the pattern. *)
Lemma sscanf_clause_text letter pattern tail :
  pattern_ok pattern = true ->
  tail = EmptyString \/ (exists rest, tail = String quote rest) ->
  let rule := String tilde (String letter (" '" +:+ pattern +:+ tail)) in
  exists c,
    (Ascii.eqb c tilde = false) /\
    (sscanf_clause rule = ScanClause letter pattern) /\
    (advance (String.length pattern + 3) rule = Some (String c tail)).
Proof.
  unfold pattern_ok. intros H Htail. cbv zeta. apply andb_true_iff in H as [H1 H2].
  destruct (last_char pattern) as [c|] eqn:El; [|discriminate].
  apply negb_true_iff in H1. apply negb_true_iff in H2.
  destruct (last_char_snoc _ _ El) as [p0 Hp0].
  exists c. split; [done|].
  cbn [String.append]. split.
  - unfold sscanf_clause. rewrite Ascii.eqb_refl. cbn [negb].
    change (skip_space (String " " (String "'" (pattern +:+ tail))))
      with (String "'" (pattern +:+ tail)).
    change (Ascii.eqb "'" quote) with true. cbv iota.
    assert (Hspan : fst (span_not quote (pattern +:+ tail)) = pattern).
    { destruct Htail as [->|[rest ->]].
      - by rewrite append_nil_r, span_not_all.
      - by rewrite span_not_app. }
    rewrite Hspan. destruct pattern; [discriminate|done].
  - replace (String.length pattern + 3)%nat
      with (S (S (S (S (String.length p0))))).
    2:{ rewrite Hp0, length_append. cbn. lia. }
    cbn [advance]. rewrite Hp0, !append_assoc. cbn [String.append].
    apply advance_app.
Qed.

Lemma eval_rules_field letter pattern tail tsk selected :
  Ascii.eqb letter "S" = false ->
  pattern_ok pattern = true ->
  tail = EmptyString \/ (exists rest, tail = String quote rest) ->
  eval (Some (String tilde (String letter (" '" +:+ pattern +:+ tail))))
    tsk selected
  = clause_holds match_string tsk selected (Field letter pattern)
    && eval (Some tail) tsk selected.
Proof.
  intros Hl Hp Htail.
  destruct (sscanf_clause_text letter pattern tail Hp Htail)
    as (x & Hx & Hscan & Hadv).
  assert (Hs : str_starts_with
                 (String tilde (String letter (" '" +:+ pattern +:+ tail)))
                 "~S" = false)
    by (cbn; by rewrite Hl).
  rewrite (eval_rules_scanned
             (String tilde (String letter (" '" +:+ pattern +:+ tail)))
             letter pattern _ tsk selected eq_refl Hs Hscan Hadv).
  f_equal. by rewrite eval_rules_skip.
Qed.

(** A clause is one conjunct: whatever text follows it. *)
Lemma eval_rules_clause sep c rest tsk selected :
  has_char tilde sep = false ->
  clause_ok c = true ->
  eval (Some (sep +:+ clause_text c +:+ rest)) tsk selected
  = clause_holds match_string tsk selected c && eval (Some rest) tsk selected.
Proof.
  intros Hsep Hc. rewrite eval_rules_skip_all by done.
  destruct c as [|letter pattern]; cbn [clause_ok] in Hc.
  - cbn [clause_text String.append clause_holds]. apply eval_rules_selected.
  - apply andb_true_iff in Hc as [Hl Hp]. apply negb_true_iff in Hl.
    cbn [clause_text String.append].
    rewrite !append_assoc. cbn [String.append].
    change (String " " (String "'" (pattern +:+ String "'" rest)))
      with (" '" +:+ pattern +:+ String quote rest).
    rewrite eval_rules_field by eauto.
    by rewrite (eval_rules_skip quote).
Qed.

(** A missing closing quote goes unnoticed. *)
Lemma eval_rules_open_quote sep letter pattern tsk selected :
  has_char tilde sep = false ->
  clause_ok (Field letter pattern) = true ->
  eval (Some (sep +:+ String tilde (String letter (" '" +:+ pattern))))
    tsk selected
  = clause_holds match_string tsk selected (Field letter pattern).
Proof.
  intros Hsep Hc. rewrite eval_rules_skip_all by done.
  cbn [clause_ok] in Hc.
  apply andb_true_iff in Hc as [Hl Hp]. apply negb_true_iff in Hl.
  rewrite <- (append_nil_r pattern) at 1.
  rewrite eval_rules_field by eauto.
  rewrite eval_rules_end. apply andb_true_r.
Qed.

Lemma eval_rules_no_pattern sep letter rest tsk selected :
  has_char tilde sep = false ->
  Ascii.eqb letter "S" = false ->
  opens_pattern rest = false ->
  eval (Some (sep +:+ String tilde (String letter rest))) tsk selected = false.
Proof.
  intros Hsep Hl Ho. rewrite eval_rules_skip_all by done.
  apply eval_rules_unscanned; [done|cbn; by rewrite Hl|].
  unfold sscanf_clause, opens_pattern in *. rewrite Ascii.eqb_refl. cbn [negb].
  destruct (skip_space rest) as [|q [|c r]]; try (cbn; discriminate).
  - destruct (Ascii.eqb q quote); cbn; discriminate.
  - destruct (Ascii.eqb q quote); [|cbn; discriminate].
    cbn [andb] in Ho. apply negb_false_iff in Ho.
    cbn [span_not]. rewrite Ho. cbn. discriminate.
Qed.

Lemma eval_rules_predicate cs tail tsk selected :
  forallb (fun sc => negb (has_char tilde (fst sc)) && clause_ok (snd sc)) cs
    = true ->
  has_char tilde tail = false ->
  eval (Some (predicate_text cs tail)) tsk selected
  = forallb (clause_holds match_string tsk selected) (map snd cs).
Proof.
  intros Hcs Htail. induction cs as [|[sep c] cs IH].
  - cbn [predicate_text map forallb].
    rewrite <- (append_nil_r tail), eval_rules_skip_all by done.
    reflexivity.
  - cbn [forallb fst snd] in Hcs.
    apply andb_true_iff in Hcs as [H1 H2].
    apply andb_true_iff in H1 as [H0 H1]. apply negb_true_iff in H0.
    cbn [predicate_text map forallb].
    rewrite eval_rules_clause by done. by rewrite IH.
Qed.

End EvaluatorFacts.

(** ** The evaluator: the statements *)

(** C6. For every task and every matcher, the predicate [~S] evaluates to
    the selection flag, whatever the fields of the task hold; the clause
    takes two characters, [rule+2] being the text after it, and with the
    flag set evaluation goes on with that text. *)
Theorem eval_rules_selection_clause :
  forall (match_string : option string -> string -> bool) (tsk : task)
         (selected : bool) (rest : string),
    eval_rules match_string (Some "~S"%string) tsk selected = selected /\
    advance 2 ("~S" +:+ rest) = Some rest /\
    eval_rules match_string (Some ("~S" +:+ rest)) tsk selected
    = (if selected then eval_rules match_string (Some rest) tsk selected
       else false).
Proof.
  intros ms tsk selected rest. split; [|split].
  - change "~S"%string with (String tilde (String "S" EmptyString)).
    rewrite eval_rules_selected, eval_rules_end. apply andb_true_r.
  - reflexivity.
  - change ("~S" +:+ rest) with (String tilde (String "S" rest)).
    rewrite eval_rules_selected. by destruct selected.
Qed.

(** C5, as amended. Evaluation always gives a truth value: with one unit of
    fuel per character and one more the recursion ends, and [rule+move]
    never leaves the string. A clause whose letter is none of S, p, d, t, r
    makes the predicate false, and so does a clause whose letter is not
    followed by white space, a quote and a character other than a quote. A
    missing closing quote goes unnoticed. A clause of the grammar whose
    pattern is not empty, holds no quote and does not end in a tilde is one
    conjunct, whatever follows it, so that a predicate of such clauses is
    the conjunction of its clauses from left to right, false from the first
    clause that fails. *)
Theorem eval_rules_total_permissive :
  forall (match_string : option string -> string -> bool) (tsk : task)
         (selected : bool),
    (forall rule fuel,
        (String.length rule < fuel)%nat ->
        eval_rules_from match_string fuel rule tsk selected
        = Some (eval_rules match_string (Some rule) tsk selected)) /\
    (forall sep letter rest,
        has_char tilde sep = false ->
        known_letter letter = false ->
        eval_rules match_string
          (Some (sep +:+ String tilde (String letter rest))) tsk selected
        = false) /\
    (forall sep letter rest,
        has_char tilde sep = false ->
        Ascii.eqb letter "S" = false ->
        opens_pattern rest = false ->
        eval_rules match_string
          (Some (sep +:+ String tilde (String letter rest))) tsk selected
        = false) /\
    (forall sep letter pattern,
        has_char tilde sep = false ->
        clause_ok (Field letter pattern) = true ->
        eval_rules match_string
          (Some (sep +:+ String tilde (String letter (" '" +:+ pattern))))
          tsk selected
        = clause_holds match_string tsk selected (Field letter pattern)) /\
    (forall sep c rest,
        has_char tilde sep = false ->
        clause_ok c = true ->
        eval_rules match_string (Some (sep +:+ clause_text c +:+ rest))
          tsk selected
        = (if clause_holds match_string tsk selected c
           then eval_rules match_string (Some rest) tsk selected
           else false)) /\
    (forall cs tail,
        forallb (fun sc => negb (has_char tilde (fst sc)) && clause_ok (snd sc))
          cs = true ->
        has_char tilde tail = false ->
        eval_rules match_string (Some (predicate_text cs tail)) tsk selected
        = forallb (clause_holds match_string tsk selected) (map snd cs)).
Proof.
  intros ms tsk selected. repeat split.
  - intros rule fuel H. by apply eval_rules_from_enough.
  - intros sep letter rest Hsep Hl. rewrite eval_rules_skip_all by done.
    by apply eval_rules_unknown_letter.
  - intros sep letter rest. apply eval_rules_no_pattern.
  - intros sep letter pattern. apply eval_rules_open_quote.
  - intros sep c rest Hsep Hc. rewrite eval_rules_clause by done.
    by destruct (clause_holds ms tsk selected c).
  - intros cs tail. apply eval_rules_predicate.
Qed.

Lemma eval_rules_total_permissive_witness :
  eval_rules_from match_literal 7 "~z 'x'" sample_task true = Some false /\
  eval_rules match_literal (Some " ~z 'x'"%string) sample_task true = false /\
  eval_rules match_literal (Some "~p task"%string) sample_task true = false /\
  eval_rules match_literal (Some "~p 'task"%string) sample_task true = true /\
  eval_rules match_literal (Some "~p 'home' ~z"%string) sample_task true = false /\
  eval_rules match_literal (Some "~p 'task' ~S"%string) sample_task true = true.
Proof.
  destruct (eval_rules_total_permissive match_literal sample_task true)
    as (Ht & Hu & Hq & Ho & Hc & Hp).
  refine (conj _ (conj _ (conj _ (conj _ (conj _ _))))).
  - exact (Ht "~z 'x'"%string 7%nat ltac:(cbn; lia)).
  - exact (Hu " "%string "z"%char " 'x'"%string eq_refl eq_refl).
  - exact (Hq EmptyString "p"%char " task"%string eq_refl eq_refl eq_refl).
  - exact (Ho EmptyString "p"%char "task"%string eq_refl eq_refl).
  - exact (Hc EmptyString (Field "p" "home") " ~z"%string eq_refl eq_refl).
  - exact (Hp [(EmptyString, Field "p" "task"); (" "%string, Selected)]
              EmptyString eq_refl eq_refl).
Defined.

(** C5, where it fails. A predicate without its closing quote matches, and
    a predicate whose clauses all hold evaluates to false when a pattern
    ends in a tilde. *)
Lemma eval_rules_bad_quoting_matches :
  eval_rules match_literal (Some "~p 'task"%string) sample_task false = true /\
  clause_holds match_literal tilde_task true (Field "d" "a~") = true /\
  clause_holds match_literal tilde_task true Selected = true /\
  eval_rules match_literal (Some "~d 'a~' ~S"%string) tilde_task true = false.
Proof. repeat split; reflexivity. Qed.

(** ** The resolver *)

Lemma default_last_cons {A : Type} (x d : A) (l : list A) :
  default d (last (x :: l)) = default x (last l).
Proof.
  revert x d; induction l as [|y l IH]; intros x d; [done|].
  change (last (x :: y :: l)) with (last (y :: l)).
  by rewrite !(IH y).
Qed.

Section ResolverFacts.

Variable match_string : option string -> string -> bool.

Lemma get_colors_walk_task rules tsk selected pair :
  get_colors_walk match_string rules OBJECT_TASK tsk selected pair
  = (default pair
       (last (map rule_pair
                (List.filter (rule_matches match_string OBJECT_TASK tsk selected)
                   rules))),
     map rule_text
       (List.filter (fun r => object_eqb OBJECT_TASK (rule_object r)) rules)).
Proof.
  revert pair; induction rules as [|r rules IH]; intros pair; [done|].
  cbn [get_colors_walk List.filter]. unfold rule_matches at 1.
  destruct (object_eqb OBJECT_TASK (rule_object r)); cbn [andb].
  - rewrite IH.
    destruct (eval_rules match_string (rule_text r) tsk selected);
      cbn [map]; [|done].
    f_equal. symmetry. apply default_last_cons.
  - apply IH.
Qed.

Lemma get_colors_walk_first rules object tsk selected pair :
  object = OBJECT_HEADER \/ object = OBJECT_ERROR ->
  get_colors_walk match_string rules object tsk selected pair
  = (match List.find (fun r => object_eqb object (rule_object r)) rules with
     | Some r => rule_pair r
     | None => pair
     end, []).
Proof.
  intros Ho. induction rules as [|r rules IH]; [done|].
  cbn [get_colors_walk List.find].
  destruct (object_eqb object (rule_object r)); [|exact IH].
  by destruct Ho as [-> | ->].
Qed.

Lemma get_colors_walk_none rules tsk selected pair :
  get_colors_walk match_string rules OBJECT_NONE tsk selected pair
  = (pair, []).
Proof.
  induction rules as [|r rules IH]; [done|].
  cbn [get_colors_walk]. by destruct (object_eqb OBJECT_NONE (rule_object r)).
Qed.

Lemma get_colors_walk_no_match rules object tsk selected pair :
  forallb (fun r => negb (rule_matches match_string object tsk selected r))
    rules = true ->
  fst (get_colors_walk match_string rules object tsk selected pair) = pair.
Proof.
  intros H. destruct object.
  - rewrite get_colors_walk_first by auto. cbn [fst].
    induction rules as [|r rules IH]; [done|].
    cbn [forallb] in H. apply andb_true_iff in H as [H1 H2].
    cbn [List.find]. unfold rule_matches in H1.
    rewrite andb_true_r in H1. apply negb_true_iff in H1. rewrite H1. auto.
  - rewrite get_colors_walk_task. cbn [fst].
    induction rules as [|r rules IH]; [done|].
    cbn [forallb] in H. apply andb_true_iff in H as [H1 H2].
    cbn [List.filter]. apply negb_true_iff in H1. rewrite H1. auto.
  - rewrite get_colors_walk_first by auto. cbn [fst].
    induction rules as [|r rules IH]; [done|].
    cbn [forallb] in H. apply andb_true_iff in H as [H1 H2].
    cbn [List.find]. unfold rule_matches in H1.
    rewrite andb_true_r in H1. apply negb_true_iff in H1. rewrite H1. auto.
  - by rewrite get_colors_walk_none.
Qed.

End ResolverFacts.

(** C1. For a task, [get_colors] hands the text of every rule of class
    Task to [eval_rules], in the order of the rule store, and returns (as
    the attribute [COLOR_PAIR] makes of it) the pair of the last of these
    rules whose predicate matched. With the rules Task/NULL -> A and
    Task/"~S" -> B in this order a selected task gets B, any other A. *)
Theorem get_colors_task_last_match :
  forall (match_string : option string -> string -> bool) (st : colors)
         (tsk : task) (selected : bool),
    get_colors_evaluated match_string st OBJECT_TASK tsk selected
    = map rule_text
        (List.filter (fun r => object_eqb OBJECT_TASK (rule_object r))
           (color_rules st)) /\
    get_colors match_string st OBJECT_TASK tsk selected
    = COLOR_PAIR
        (last_match_pair match_string (color_rules st) OBJECT_TASK tsk selected) /\
    (forall A B : Z,
        let st' :=
          with_rules st
            [ {| rule_pair := A; rule_text := None; rule_object := OBJECT_TASK |};
              {| rule_pair := B; rule_text := Some "~S"%string;
                 rule_object := OBJECT_TASK |} ] in
        get_colors match_string st' OBJECT_TASK tsk true = COLOR_PAIR B /\
        get_colors match_string st' OBJECT_TASK tsk false = COLOR_PAIR A).
Proof.
  intros ms st tsk selected.
  unfold get_colors_evaluated, get_colors, last_match_pair.
  rewrite get_colors_walk_task. repeat split.
Qed.

(** C2. For a header or an error, [get_colors] returns (as the attribute
    [COLOR_PAIR] makes of it) the pair of the first rule of that class in
    the rule store, for every task and selection flag, and hands no rule
    text to [eval_rules]. *)
Theorem get_colors_first_of_class :
  forall (match_string : option string -> string -> bool) (st : colors)
         (tsk : task) (selected : bool),
    (get_colors match_string st OBJECT_HEADER tsk selected
     = COLOR_PAIR (first_of_class_pair (color_rules st) OBJECT_HEADER) /\
     get_colors_evaluated match_string st OBJECT_HEADER tsk selected = []) /\
    (get_colors match_string st OBJECT_ERROR tsk selected
     = COLOR_PAIR (first_of_class_pair (color_rules st) OBJECT_ERROR) /\
     get_colors_evaluated match_string st OBJECT_ERROR tsk selected = []).
Proof.
  intros ms st tsk selected.
  unfold get_colors_evaluated, get_colors, first_of_class_pair.
  rewrite !get_colors_walk_first by auto. repeat split.
Qed.

(** ** The pair pool *)

Lemma to_short_small z : -32768 <= z <= 32767 -> to_short z = z.
Proof. intros H. unfold to_short. rewrite Z.mod_small; lia. Qed.

Lemma to_short_range z : -32768 <= to_short z <= 32767.
Proof.
  unfold to_short.
  pose proof (Z.mod_pos_bound (z + 32768) 65536 ltac:(lia)). lia.
Qed.

(** Curses keeps a color from -1 on as it is given. *)
Lemma stored_color_same c : -1 <= c -> stored_color c = c.
Proof. intros H. unfold stored_color. destruct (Z.ltb_spec c 0); lia. Qed.

Lemma stored_color_range c : -1 <= stored_color c.
Proof. unfold stored_color. destruct (Z.ltb_spec c 0); lia. Qed.

Section PoolFacts.

Variable COLOR_PAIRS : Z.
Variable color_ok : Z -> bool.
Variable beyond : Z -> bool.

#[local] Abbreviation read := (read_used beyond).
#[local] Abbreviation holds := (holds_content COLOR_PAIRS).
#[local] Abbreviation scan := (find_pair COLOR_PAIRS beyond).

Lemma read_used_insert_eq used p :
  0 <= p < Z.of_nat (length used) ->
  read (<[Z.to_nat p := true]> used) p = true.
Proof.
  intros H. unfold read_used.
  destruct (p <? 0) eqn:E; [lia|].
  by rewrite list_lookup_insert_eq by lia.
Qed.

Lemma read_used_insert_ne used p q :
  0 <= p -> p <> q ->
  read (<[Z.to_nat p := true]> used) q = read used q.
Proof.
  intros H Hne. unfold read_used.
  destruct (q <? 0) eqn:E; [done|].
  rewrite list_lookup_insert_ne by lia. done.
Qed.

Lemma holds_content_insert_eq scr p fg bg :
  0 <= p < COLOR_PAIRS ->
  holds (<[p := (fg, bg)]> scr) p fg bg = true.
Proof.
  intros H. unfold holds_content, pair_content.
  replace ((0 <=? p) && (p <? COLOR_PAIRS)) with true by lia.
  rewrite lookup_insert_eq. cbn. by rewrite !Z.eqb_refl.
Qed.

Lemma holds_content_insert_ne scr p q fg bg fg' bg' :
  p <> q ->
  holds (<[p := (fg, bg)]> scr) q fg' bg' = holds scr q fg' bg'.
Proof.
  intros H. unfold holds_content, pair_content.
  by rewrite lookup_insert_ne.
Qed.

(** One step of the loop of [find_add_pair]. *)
Lemma find_pair_step fuel used scr fg bg pair free_pair :
  scan (S fuel) used scr fg bg pair free_pair
  = if pair <? COLOR_PAIRS then
      if read used pair then
        if holds scr pair fg bg then Some (inl pair)
        else scan fuel used scr fg bg (to_short (pair + 1)) free_pair
      else scan fuel used scr fg bg (to_short (pair + 1))
             (if free_pair =? -1 then pair else free_pair)
    else Some (inr free_pair).
Proof.
  cbn [find_pair]. unfold holds_content.
  destruct (pair <? COLOR_PAIRS); [|done].
  destruct (read used pair); [|done].
  by destruct (pair_content COLOR_PAIRS scr pair) as [[tmpfg tmpbg]|].
Qed.

(** The loop ends only when a pair number reaches [COLOR_PAIRS]; a
    [short] can do so only when [COLOR_PAIRS] is within its range. *)
Lemma find_pair_ends_small fuel used scr fg bg pair free_pair free :
  pair <= SHRT_MAX ->
  scan fuel used scr fg bg pair free_pair = Some (inr free) ->
  COLOR_PAIRS <= SHRT_MAX.
Proof.
  revert pair free_pair; induction fuel as [|fuel IH];
    intros pair free_pair Hp H; [discriminate|].
  rewrite find_pair_step in H.
  destruct (Z.ltb_spec pair COLOR_PAIRS) as [Hlt|Hge]; [|lia].
  pose proof (to_short_range (pair + 1)) as Hr.
  assert (Hn : to_short (pair + 1) <= SHRT_MAX) by (unfold SHRT_MAX; lia).
  destruct (read used pair).
  - destruct (holds scr pair fg bg); [discriminate|]. by eapply IH.
  - by eapply IH.
Qed.

Section Small.

Hypothesis pairs_small : COLOR_PAIRS <= SHRT_MAX.

Lemma next_pair pair : 1 <= pair < COLOR_PAIRS -> to_short (pair + 1) = pair + 1.
Proof. intros H. apply to_short_small. unfold SHRT_MAX in *. lia. Qed.

(** With enough fuel the loop ends. *)
Lemma find_pair_total fuel used scr fg bg pair free_pair :
  1 <= pair ->
  (Z.to_nat (COLOR_PAIRS - pair) < fuel)%nat ->
  exists res, scan fuel used scr fg bg pair free_pair = Some res.
Proof.
  revert pair free_pair; induction fuel as [|fuel IH];
    intros pair free_pair Hp Hf; [lia|].
  rewrite find_pair_step.
  destruct (Z.ltb_spec pair COLOR_PAIRS) as [Hlt|Hge]; [|eauto].
  rewrite next_pair by lia.
  destruct (read used pair).
  - destruct (holds scr pair fg bg); [eauto|]. apply IH; lia.
  - apply IH; lia.
Qed.

(** What the loop ends with: the first pair in use that holds the
    content, or else the free pair noted before, or the first pair not
    in use, or -1. *)
Lemma find_pair_spec fuel used scr fg bg pair free_pair res :
  1 <= pair ->
  scan fuel used scr fg bg pair free_pair = Some res ->
  match res with
  | inl p =>
      pair <= p < COLOR_PAIRS /\ read used p = true /\
      holds scr p fg bg = true /\
      (forall q, pair <= q < p -> read used q = true ->
                 holds scr q fg bg = false)
  | inr free =>
      (forall q, pair <= q < COLOR_PAIRS -> read used q = true ->
                 holds scr q fg bg = false) /\
      (free_pair <> -1 -> free = free_pair) /\
      (free_pair = -1 ->
       (free = -1 /\
        forall q, pair <= q < COLOR_PAIRS -> read used q = true) \/
       (pair <= free < COLOR_PAIRS /\ read used free = false /\
        forall q, pair <= q < free -> read used q = true))
  end.
Proof.
  revert pair free_pair; induction fuel as [|fuel IH];
    intros pair free_pair Hp H; [discriminate|].
  rewrite find_pair_step in H.
  destruct (Z.ltb_spec pair COLOR_PAIRS) as [Hlt|Hge].
  2:{ injection H as <-. split; [intros; lia|]. split; [done|].
      intros ->. left. split; [done|intros; lia]. }
  rewrite next_pair in H by lia.
  destruct (read used pair) eqn:Er.
  - destruct (holds scr pair fg bg) eqn:Eh.
    + injection H as <-. repeat split; try done; try lia.
    + apply IH in H; [|lia].
      destruct res as [p|free].
      * destruct H as (H1 & H2 & H3 & H4).
        repeat split; try done; try lia.
        intros q Hq Hu. destruct (Z.eq_dec q pair) as [->|]; [done|].
        apply H4; [lia|done].
      * destruct H as (H1 & H2 & H3).
        split; [|split; [done|]].
        -- intros q Hq Hu. destruct (Z.eq_dec q pair) as [->|]; [done|].
           apply H1; [lia|done].
        -- intros Hf. destruct (H3 Hf) as [[-> H5]|(H5 & H6 & H7)].
           ++ left. split; [done|]. intros q Hq.
              destruct (Z.eq_dec q pair) as [->|]; [done|]. apply H5; lia.
           ++ right. repeat split; try done; try lia. intros q Hq.
              destruct (Z.eq_dec q pair) as [->|]; [done|]. apply H7; lia.
  - apply IH in H; [|lia].
    destruct res as [p|free].
    + destruct H as (H1 & H2 & H3 & H4).
      repeat split; try done; try lia.
      intros q Hq Hu. destruct (Z.eq_dec q pair) as [->|]; [congruence|].
      apply H4; [lia|done].
    + destruct H as (H1 & H2 & H3).
      split; [|split].
      * intros q Hq Hu. destruct (Z.eq_dec q pair) as [->|]; [congruence|].
        apply H1; [lia|done].
      * intros Hf. destruct (Z.eqb_spec free_pair (-1)); [done|]. by apply H2.
      * intros ->. cbn in H2. right.
        rewrite (H2 ltac:(lia)). repeat split; try done; try lia.
Qed.

(** The loop of [add_color_pair] ends at the first pair not in use, or
    at [COLOR_PAIRS], and has read [pairs_used] at every index up to
    there, that one included. *)
Lemma free_search_spec fuel used pair :
  0 <= pair <= COLOR_PAIRS ->
  (Z.to_nat (COLOR_PAIRS - pair) < fuel)%nat ->
  exists slot,
    free_search COLOR_PAIRS beyond fuel used pair
    = Some (slot, seqZ pair (slot - pair + 1)) /\
    pair <= slot <= COLOR_PAIRS /\
    (forall q, pair <= q < slot -> read used q = true) /\
    (slot < COLOR_PAIRS -> read used slot = false).
Proof.
  revert pair; induction fuel as [|fuel IH]; intros pair Hp Hf; [lia|].
  cbn [free_search].
  destruct (read used pair) eqn:Er; cbn [andb].
  - destruct (Z.ltb_spec pair COLOR_PAIRS) as [Hlt|Hge].
    + rewrite to_short_small by (unfold SHRT_MAX in *; lia).
      destruct (IH (pair + 1)) as (slot & E & H1 & H2 & H3); [lia|lia|].
      rewrite E. exists slot. split; [|split; [lia|split; [|done]]].
      * f_equal. f_equal.
        rewrite (seqZ_cons pair) by lia. f_equal. f_equal; lia.
      * intros q Hq. destruct (Z.eq_dec q pair) as [->|]; [done|].
        apply H2; lia.
    + exists pair. replace (pair - pair + 1) with 1 by lia.
      repeat split; try done; try lia.
  - exists pair. replace (pair - pair + 1) with 1 by lia.
    repeat split; try done; try lia.
Qed.

End Small.

(** Without a pair to ask for, [add_color_pair] fails when every pair
    from 1 on is in use: it finds pair 0 or none. *)
Lemma add_color_pair_none_free used scr askpair fg bg :
  COLOR_PAIRS <= SHRT_MAX ->
  askpair <= 0 ->
  (forall q, 1 <= q < COLOR_PAIRS -> read used q = true) ->
  add_color_pair COLOR_PAIRS color_ok beyond used scr askpair fg bg
  = Some (-1, used, scr).
Proof.
  intros Hs Ha Hfull. unfold add_color_pair.
  replace (askpair <=? 0) with true by lia.
  destruct (Z.le_gt_cases 0 COLOR_PAIRS) as [Hc|Hc].
  - destruct (free_search_spec Hs (S (Z.to_nat COLOR_PAIRS)) used 0)
      as (slot & E & H1 & H2 & H3); [lia|lia|].
    rewrite E.
    destruct (Z.eqb_spec slot COLOR_PAIRS) as [->|Hne]; [done|].
    destruct (Z.eq_dec slot 0) as [->|Hz].
    + unfold init_pair. by replace (1 <=? 0) with false by lia.
    + rewrite Hfull in H3 by lia. discriminate H3. lia.
  - replace (Z.to_nat COLOR_PAIRS) with 0%nat by lia.
    cbn [free_search].
    replace (0 <? COLOR_PAIRS) with false by lia. rewrite andb_false_r.
    replace (0 =? COLOR_PAIRS) with false by lia.
    unfold init_pair. by replace (1 <=? 0) with false by lia.
Qed.

(** With a pair to ask for, [add_color_pair] takes that pair or fails. *)
Lemma add_color_pair_asked used scr askpair fg bg :
  0 < askpair ->
  add_color_pair COLOR_PAIRS color_ok beyond used scr askpair fg bg
  = if read used askpair then Some (-1, used, scr)
    else match init_pair COLOR_PAIRS color_ok scr askpair fg bg with
         | None => Some (-1, used, scr)
         | Some scr' =>
             Some (askpair, <[Z.to_nat askpair := true]> used, scr')
         end.
Proof.
  intros Ha. unfold add_color_pair.
  replace (askpair <=? 0) with false by lia.
  by destruct (read used askpair).
Qed.

Lemma init_pair_some scr pair fg bg scr' :
  init_pair COLOR_PAIRS color_ok scr pair fg bg = Some scr' ->
  1 <= pair < COLOR_PAIRS /\
  scr' = <[pair := (stored_color fg, stored_color bg)]> scr.
Proof.
  unfold init_pair.
  destruct ((1 <=? pair) && (pair <? COLOR_PAIRS) && color_ok fg
            && color_ok bg) eqn:E; [|discriminate].
  intros [= <-]. split; [|done].
  repeat (apply andb_true_iff in E as [E ?]). lia.
Qed.

Lemma find_add_pair_given st fg bg P st' :
  find_add_pair COLOR_PAIRS color_ok beyond st fg bg = Some (P, st') ->
  0 <= P ->
  pair_given COLOR_PAIRS beyond st fg bg P st'.
Proof.
  unfold find_add_pair. intros H HP.
  destruct (pairs_used st) as [used|] eqn:Eu; [|discriminate].
  destruct (scan (S (Z.to_nat COLOR_PAIRS)) used (scr_pairs st) fg bg 1 (-1))
    as [[p|free]|] eqn:Es; [| |discriminate].
  - injection H as -> ->. by apply pair_found.
  - assert (Hs : COLOR_PAIRS <= SHRT_MAX)
      by (eapply find_pair_ends_small; [|exact Es]; unfold SHRT_MAX; lia).
    destruct (find_pair_spec Hs _ _ _ _ _ 1 _ _ ltac:(lia) Es)
      as (Hno & _ & Hfree).
    destruct (Hfree eq_refl) as [[-> Hall]|(Hr & Hu & Hbefore)].
    + rewrite add_color_pair_none_free in H by (done || lia).
      injection H as <- _. lia.
    + rewrite add_color_pair_asked, Hu in H by lia.
      destruct (init_pair COLOR_PAIRS color_ok (scr_pairs st) free fg bg)
        as [scr'|] eqn:Ei.
      * injection H as -> <-.
        apply init_pair_some in Ei as [_ ->].
        by eapply pair_taken.
      * injection H as <- _. lia.
Qed.

(** ** Idempotence *)

Lemma with_pool_same st used :
  pairs_used st = Some used -> with_pool st used (scr_pairs st) = st.
Proof. destruct st; cbn. by intros ->. Qed.

Lemma with_rules_same st : with_rules st (color_rules st) = st.
Proof. by destruct st. Qed.

Lemma find_add_pair_again st fg bg P st' :
  pool_ready COLOR_PAIRS st ->
  -1 <= fg -> -1 <= bg ->
  find_add_pair COLOR_PAIRS color_ok beyond st fg bg = Some (P, st') ->
  0 <= P ->
  find_add_pair COLOR_PAIRS color_ok beyond st' fg bg = Some (P, st').
Proof.
  intros (used0 & Hu0 & Hlen) Hfg Hbg H HP.
  destruct (find_add_pair_given _ _ _ _ _ H HP)
    as [->|used Hs Hu -> Hr Hfree Hbefore Hno]; [done|].
  rewrite (stored_color_same fg Hfg), (stored_color_same bg Hbg).
  rewrite Hu in Hu0. injection Hu0 as <-.
  unfold find_add_pair. cbn [with_pool pairs_used scr_pairs].
  set (used' := <[Z.to_nat P := true]> used).
  set (scr' := <[P := (fg, bg)]> (scr_pairs st)).
  destruct (find_pair_total Hs (S (Z.to_nat COLOR_PAIRS)) used' scr' fg bg 1 (-1))
    as [res Hres]; [lia|lia|].
  rewrite Hres.
  pose proof (find_pair_spec Hs _ _ _ _ _ 1 _ _ ltac:(lia) Hres) as Hspec.
  assert (HuP : read used' P = true)
    by (apply read_used_insert_eq; lia).
  assert (HhP : holds scr' P fg bg = true)
    by (apply holds_content_insert_eq; lia).
  destruct res as [p|free].
  - destruct Hspec as (H1 & H2 & H3 & H4).
    destruct (Z.lt_trichotomy p P) as [Hlt|[->|Hgt]].
    + (* an earlier pair: it was in use before, without the content *)
      exfalso.
      unfold used' in H2. rewrite read_used_insert_ne in H2 by lia.
      unfold scr' in H3. rewrite holds_content_insert_ne in H3 by lia.
      rewrite Hno in H3 by (done || lia). discriminate.
    + done.
    + rewrite H4 in HhP by (done || lia). discriminate.
  - destruct Hspec as (H1 & _).
    rewrite H1 in HhP by (done || lia). discriminate.
Qed.

(** ** Failure leaves the pool as it was *)

Lemma add_color_pair_result used scr askpair fg bg ret used' scr' :
  add_color_pair COLOR_PAIRS color_ok beyond used scr askpair fg bg
  = Some (ret, used', scr') ->
  length used' = length used /\
  (ret < 0 -> used' = used /\ scr' = scr).
Proof.
  unfold add_color_pair.
  set (chosen := if askpair <=? 0 then _ else _).
  destruct chosen as [[r|slot]|]; [| |discriminate].
  - intros [= <- <- <-]. auto.
  - destruct (init_pair COLOR_PAIRS color_ok scr slot fg bg) as [s'|] eqn:Ei.
    + intros [= <- <- <-]. apply init_pair_some in Ei as [Hs _].
      split; [apply length_insert|lia].
    + intros [= <- <- <-]. auto.
Qed.

Lemma find_add_pair_result st fg bg ret st' :
  find_add_pair COLOR_PAIRS color_ok beyond st fg bg = Some (ret, st') ->
  color_rules st' = color_rules st /\
  (ret < 0 -> st' = st) /\
  (pool_ready COLOR_PAIRS st -> pool_ready COLOR_PAIRS st').
Proof.
  unfold find_add_pair.
  destruct (pairs_used st) as [used|] eqn:Eu; [|discriminate].
  destruct (scan _ used (scr_pairs st) fg bg 1 (-1)) as [[p|free]|];
    [| |discriminate].
  - intros [= <- <-]. auto.
  - destruct (add_color_pair COLOR_PAIRS color_ok beyond used (scr_pairs st)
                free fg bg) as [[[r used'] scr']|] eqn:Ea; [|discriminate].
    intros [= <- <-].
    apply add_color_pair_result in Ea as [Hl Hf].
    split; [done|]. split.
    + intros Hr. destruct (Hf Hr) as [-> ->]. by apply with_pool_same.
    + intros (u & Hu & Hlen). exists used'. split; [done|].
      rewrite Eu in Hu. injection Hu as <-. by rewrite Hl.
Qed.

Lemma find_add_pair_total st fg bg used :
  COLOR_PAIRS <= SHRT_MAX ->
  pairs_used st = Some used ->
  exists ret st', find_add_pair COLOR_PAIRS color_ok beyond st fg bg
                  = Some (ret, st').
Proof.
  intros Hs Hu. unfold find_add_pair. rewrite Hu.
  destruct (find_pair_total Hs (S (Z.to_nat COLOR_PAIRS)) used (scr_pairs st)
              fg bg 1 (-1)) as [res Hres]; [lia|lia|].
  rewrite Hres. destruct res as [p|free]; [eauto|].
  destruct (find_pair_spec Hs _ _ _ _ _ 1 _ _ ltac:(lia) Hres)
    as (_ & _ & Hfree).
  destruct (Hfree eq_refl) as [[-> Hall]|(Hr & Hun & _)].
  - rewrite add_color_pair_none_free by (done || lia). eauto.
  - rewrite add_color_pair_asked, Hun by lia.
    destruct (init_pair COLOR_PAIRS color_ok (scr_pairs st) free fg bg); eauto.
Qed.

(** ** A full pool *)

Lemma find_add_pair_full st fg bg :
  COLOR_PAIRS <= SHRT_MAX ->
  pool_ready COLOR_PAIRS st ->
  pool_full COLOR_PAIRS beyond st ->
  content_absent COLOR_PAIRS beyond st fg bg ->
  find_add_pair COLOR_PAIRS color_ok beyond st fg bg = Some (-1, st).
Proof.
  intros Hs (used & Hu & Hlen) Hfull Habs.
  assert (Hin : forall q, pair_in_use beyond st q <-> read used q = true).
  { intros q. unfold pair_in_use. rewrite Hu. split.
    - by intros (u & [= <-] & H).
    - eauto. }
  unfold find_add_pair. rewrite Hu.
  destruct (find_pair_total Hs (S (Z.to_nat COLOR_PAIRS)) used (scr_pairs st)
              fg bg 1 (-1)) as [res Hres]; [lia|lia|].
  rewrite Hres.
  pose proof (find_pair_spec Hs _ _ _ _ _ 1 _ _ ltac:(lia) Hres) as Hspec.
  destruct res as [p|free].
  - destruct Hspec as (H1 & H2 & H3 & _).
    rewrite Habs in H3 by (done || by apply Hin). discriminate.
  - destruct Hspec as (_ & _ & Hfree).
    destruct (Hfree eq_refl) as [[-> Hall]|(Hr & Hun & _)].
    + rewrite add_color_pair_none_free by (done || lia).
      by rewrite with_pool_same.
    + assert (read used free = true) by (apply Hin, Hfull; lia).
      congruence.
Qed.

(** ** One slot for one content *)

Lemma find_add_pair_unique st fg bg ret st' :
  pool_ready COLOR_PAIRS st ->
  -1 <= fg -> -1 <= bg ->
  contents_unique COLOR_PAIRS beyond st ->
  find_add_pair COLOR_PAIRS color_ok beyond st fg bg = Some (ret, st') ->
  contents_unique COLOR_PAIRS beyond st'.
Proof.
  intros (used0 & Hu0 & Hlen) Hfg Hbg Huniq H.
  destruct (Z.lt_ge_cases ret 0) as [Hneg|Hpos].
  { apply find_add_pair_result in H as (_ & Hsame & _).
    by rewrite (Hsame Hneg). }
  destruct (find_add_pair_given _ _ _ _ _ H Hpos)
    as [->|used Hs Hu -> Hr Hfree Hbefore Hno]; [done|].
  rewrite (stored_color_same fg Hfg), (stored_color_same bg Hbg).
  rewrite Hu in Hu0. injection Hu0 as <-.
  assert (Hold : forall q, read used q = true -> pair_in_use beyond st q)
    by (intros q Hq; exists used; auto).
  intros p q fg' bg' Hp Hq (u & Eu & Hpu) (u' & Eu' & Hqu) Hph Hqh.
  cbn [with_pool pairs_used scr_pairs] in *.
  injection Eu as <-. injection Eu' as <-.
  assert (Hnew : forall fg1 bg1,
             holds (<[ret := (fg, bg)]> (scr_pairs st)) ret fg1 bg1 = true ->
             fg1 = fg /\ bg1 = bg).
  { intros fg1 bg1. unfold holds_content, pair_content.
    destruct ((0 <=? ret) && (ret <? COLOR_PAIRS)); [|discriminate].
    rewrite lookup_insert_eq. cbn. lia. }
  destruct (Z.eq_dec p ret) as [->|Hpne], (Z.eq_dec q ret) as [->|Hqne].
  - done.
  - exfalso. apply Hnew in Hph as [-> ->].
    rewrite read_used_insert_ne in Hqu by lia.
    rewrite holds_content_insert_ne in Hqh by lia.
    rewrite Hno in Hqh by done. discriminate.
  - exfalso. apply Hnew in Hqh as [-> ->].
    rewrite read_used_insert_ne in Hpu by lia.
    rewrite holds_content_insert_ne in Hph by lia.
    rewrite Hno in Hph by done. discriminate.
  - rewrite read_used_insert_ne in Hpu, Hqu by lia.
    rewrite holds_content_insert_ne in Hph, Hqh by lia.
    eapply Huniq; eauto.
Qed.

End PoolFacts.

(** ** The rule store *)

Lemma same_rule_iff this object rule :
  same_rule this object rule = true <->
  rule_object this = object /\ rule_text this = rule.
Proof.
  unfold same_rule. rewrite andb_true_iff. split.
  - intros [Ho Ht]. split.
    + by destruct (rule_object this), object.
    + destruct (rule_text this) as [a|], rule as [b|]; try done.
      by apply String.eqb_eq in Ht as ->.
  - intros [<- <-]. split.
    + by destruct (rule_object this).
    + destruct (rule_text this); [apply String.eqb_refl|done].
Qed.

(** The first rule that the test of [add_color_rule] accepts. *)
Lemma first_same_rule rules object rule :
  (exists r, In r rules /\ same_rule r object rule = true) ->
  exists i this,
    rules !! i = Some this /\ same_rule this object rule = true /\
    (forall j r, (j < i)%nat -> rules !! j = Some r ->
                 same_rule r object rule = false).
Proof.
  induction rules as [|a rules IH]; intros (r & Hin & Hr); [destruct Hin|].
  destruct (same_rule a object rule) eqn:Ea.
  - exists 0%nat, a. repeat split; [done|]. intros; lia.
  - destruct IH as (i & this & Hi & Hs & Hbefore).
    { destruct Hin as [->|Hin]; [congruence|eauto]. }
    exists (S i), this. repeat split; try done.
    intros [|j] r' Hj Hr'.
    + by injection Hr' as <-.
    + apply (Hbefore j); [lia|done].
Qed.

Section RuleStoreFacts.

Variable COLOR_PAIRS : Z.
Variable color_ok : Z -> bool.
Variable beyond : Z -> bool.

#[local] Abbreviation find_add := (find_add_pair COLOR_PAIRS color_ok beyond).
#[local] Abbreviation walk := (add_color_rule_walk COLOR_PAIRS color_ok beyond).

(** The walk stops at the first rule the test accepts and writes its
    pair, when [find_add_pair] gives one. *)
Lemma add_color_rule_walk_found rules st object rule fg bg ret st1 i this :
  find_add st fg bg = Some (ret, st1) ->
  rules !! i = Some this ->
  same_rule this object rule = true ->
  (forall j r, (j < i)%nat -> rules !! j = Some r ->
               same_rule r object rule = false) ->
  walk rules st object rule fg bg
  = Some (if ret <? 0 then ret else 0,
          if ret <? 0 then rules else <[i := set_rule_pair this ret]> rules,
          st1).
Proof.
  intros Hf. revert i. induction rules as [|a rules IH];
    intros i Hi Hs Hbefore; [done|].
  cbn [add_color_rule_walk].
  destruct i as [|i].
  - injection Hi as ->. rewrite Hs, Hf. by destruct (ret <? 0).
  - rewrite (Hbefore 0%nat a) by (done || lia).
    rewrite (IH i); [|done|done|].
    + by destruct (ret <? 0).
    + intros j r Hj Hr. apply (Hbefore (S j)); [lia|done].
Qed.

(** A failing [find_add_pair] stops the walk wherever it is made, and the
    list stays as it is. *)
Lemma add_color_rule_walk_failed rules st object rule fg bg ret st1 :
  find_add st fg bg = Some (ret, st1) ->
  ret < 0 ->
  walk rules st object rule fg bg = Some (ret, rules, st1).
Proof.
  intros Hf Hr. induction rules as [|a rules IH]; cbn [add_color_rule_walk].
  - rewrite Hf. by replace (ret <? 0) with true by lia.
  - destruct (same_rule a object rule).
    + rewrite Hf. by replace (ret <? 0) with true by lia.
    + by rewrite IH.
Qed.

(** The walk keeps the rules it passes; at the end it adds one. *)
Lemma add_color_rule_walk_new rules st object rule fg bg ret st1 :
  find_add st fg bg = Some (ret, st1) ->
  0 <= ret ->
  (forall r, In r rules -> same_rule r object rule = false) ->
  walk rules st object rule fg bg
  = Some (0, rules ++ [{| rule_pair := ret; rule_text := rule;
                          rule_object := object |}], st1).
Proof.
  intros Hf Hr Hno. induction rules as [|a rules IH];
    cbn [add_color_rule_walk].
  - rewrite Hf. by replace (ret <? 0) with false by lia.
  - rewrite (Hno a) by (by left). rewrite IH; [done|].
    intros r Hin. apply Hno. by right.
Qed.

End RuleStoreFacts.

Section StoreAndPool.

Variable COLOR_PAIRS : Z.
Variable color_ok : Z -> bool.
Variable beyond : Z -> bool.

#[local] Abbreviation add_rule := (add_color_rule COLOR_PAIRS color_ok beyond).
#[local] Abbreviation find_add := (find_add_pair COLOR_PAIRS color_ok beyond).

(** [add_color_rule] keeps the pool ready and, for colors from -1 on, its
    contents apart. *)
Lemma add_color_rule_walk_pool rules st object rule fg bg ret rules' st' :
  add_color_rule_walk COLOR_PAIRS color_ok beyond rules st object rule fg bg
  = Some (ret, rules', st') ->
  exists r, find_add st fg bg = Some (r, st').
Proof.
  revert rules'. induction rules as [|a rules IH]; intros rules';
    cbn [add_color_rule_walk].
  - destruct (find_add st fg bg) as [[r st1]|]; [|discriminate].
    destruct (r <? 0); intros [= <- <- <-]; eauto.
  - destruct (same_rule a object rule).
    + destruct (find_add st fg bg) as [[r st1]|]; [|discriminate].
      destruct (r <? 0); intros [= <- <- <-]; eauto.
    + destruct (add_color_rule_walk COLOR_PAIRS color_ok beyond rules st object
                  rule fg bg) as [[[r next'] st1]|]; [|discriminate].
      intros [= <- <- <-]. by eapply IH.
Qed.

Lemma add_color_rule_pool st object rule fg bg ret st' :
  add_rule st object rule fg bg = Some (ret, st') ->
  (pool_ready COLOR_PAIRS st -> pool_ready COLOR_PAIRS st') /\
  (pool_ready COLOR_PAIRS st ->
   -1 <= fg -> -1 <= bg ->
   contents_unique COLOR_PAIRS beyond st ->
   contents_unique COLOR_PAIRS beyond st').
Proof.
  unfold add_color_rule.
  destruct (add_color_rule_walk COLOR_PAIRS color_ok beyond (color_rules st) st
              object rule fg bg) as [[[r rules'] st1]|] eqn:E; [|discriminate].
  intros [= <- <-].
  apply add_color_rule_walk_pool in E as [r' E].
  split.
  - intros Hr. by apply (find_add_pair_result _ _ _ _ _ _ _ _ E) in Hr.
  - intros Hr Hfg Hbg Hu.
    by apply (find_add_pair_unique _ _ _ _ _ _ _ _ Hr Hfg Hbg Hu E).
Qed.

Lemma add_color_rules_pool l st st' :
  add_color_rules COLOR_PAIRS color_ok beyond st l = Some st' ->
  (pool_ready COLOR_PAIRS st -> pool_ready COLOR_PAIRS st') /\
  (pool_ready COLOR_PAIRS st ->
   Forall (fun x => -1 <= snd (fst x) /\ -1 <= snd x) l ->
   contents_unique COLOR_PAIRS beyond st ->
   contents_unique COLOR_PAIRS beyond st').
Proof.
  revert st. induction l as [|[[[object rule] fg] bg] l IH]; intros st;
    cbn [add_color_rules].
  - intros [= <-]. auto.
  - destruct (add_rule st object rule fg bg) as [[r st1]|] eqn:E;
      [|discriminate].
    intros H. apply IH in H as [H1 H2].
    apply add_color_rule_pool in E as [E1 E2].
    split; [auto|]. intros Hr Hl Hu.
    apply Forall_cons in Hl as [[Hfg Hbg] Hl]. cbn [fst snd] in Hfg, Hbg.
    auto.
Qed.

(** The default rules ask for colors from -1 on only. *)
Lemma default_rules_colors :
  Forall (fun x => -1 <= snd (fst x) /\ -1 <= snd x) default_rules.
Proof. unfold default_rules. repeat constructor; by vm_compute. Qed.

(** [init_colors] on a terminal with colors leaves the pool ready, with
    no two pairs of the same content. *)
Lemma init_colors_pool start_ok default_ok st ret st' :
  init_colors COLOR_PAIRS color_ok beyond start_ok default_ok true st
  = Some (ret, st') ->
  ret = 0 ->
  pool_ready COLOR_PAIRS st' /\ contents_unique COLOR_PAIRS beyond st'.
Proof.
  unfold init_colors.
  destruct start_ok; cbn [negb]; [|intros [= <- <-]; discriminate].
  destruct default_ok; cbn [negb]; [|intros [= <- <-]; discriminate].
  destruct (Z.ltb_spec COLOR_PAIRS 1) as [|Hc]; [discriminate|].
  unfold set_default_colors.
  set (st0 := with_pool _ _ _).
  destruct (add_color_rules COLOR_PAIRS color_ok beyond st0 default_rules)
    as [st1|] eqn:E; [|discriminate].
  intros [= <- <-] _.
  apply add_color_rules_pool in E as [E1 E2].
  assert (Hr : pool_ready COLOR_PAIRS st0).
  { eexists. split; [reflexivity|].
    rewrite length_insert, length_replicate. lia. }
  split; [auto|]. apply E2; [done|apply default_rules_colors|].
  (* only pair 0 is in use *)
  intros p q fg bg Hp Hq (u & [= <-] & Hu) _ _ _. exfalso.
  unfold read_used in Hu. replace (p <? 0) with false in Hu by lia.
  rewrite list_lookup_insert_ne in Hu by lia.
  rewrite lookup_replicate_2 in Hu by lia. discriminate.
Qed.

End StoreAndPool.

(** ** The pool and the rule store: the statements *)


Lemma started8_ready : pool_ready 8 started8.
Proof. exists [true; true; true; true; true; true; true; false]. by vm_compute. Qed.



(** C4. When the pool is ready, [COLOR_PAIRS] is in the range of the
    [short] pair numbers, every pair below [COLOR_PAIRS] is in use and none
    of them holds the content [(fg, bg)], then [find_add_pair(fg, bg)]
    returns -1 and the state is as before, so that every pair is in use
    with the content it had; and [add_color_rule] with these colors
    returns -1 and leaves the state, the rule store with it, as before,
    for every object and rule. *)
Theorem pool_exhausted_changes_nothing :
  forall (COLOR_PAIRS : Z) (color_ok beyond : Z -> bool) (st : colors)
         (fg bg : Z),
    COLOR_PAIRS <= SHRT_MAX ->
    pool_ready COLOR_PAIRS st ->
    pool_full COLOR_PAIRS beyond st ->
    content_absent COLOR_PAIRS beyond st fg bg ->
    find_add_pair COLOR_PAIRS color_ok beyond st fg bg = Some (-1, st) /\
    (forall object rule,
        add_color_rule COLOR_PAIRS color_ok beyond st object rule fg bg
        = Some (-1, st)).
Proof.
  intros CP C beyond st fg bg Hs Hr Hfull Habs.
  pose proof (find_add_pair_full CP C beyond st fg bg Hs Hr Hfull Habs) as Hf.
  split; [done|]. intros object rule. unfold add_color_rule.
  rewrite (add_color_rule_walk_failed _ _ _ _ _ _ _ _ _ _ _ Hf) by lia.
  by rewrite with_rules_same.
Qed.

Lemma full8_ready : pool_ready 8 full8.
Proof. exists (replicate 8 true). by vm_compute. Qed.

Lemma full8_full : pool_full 8 zero_heap full8.
Proof.
  intros p Hp. exists (replicate 8 true). split; [by vm_compute|].
  assert (Hc : p = 0 \/ p = 1 \/ p = 2 \/ p = 3 \/ p = 4 \/ p = 5 \/ p = 6
               \/ p = 7) by lia.
  repeat destruct Hc as [->|Hc]; try subst p; reflexivity.
Qed.

Lemma full8_no_green : content_absent 8 zero_heap full8 COLOR_GREEN COLOR_GREEN.
Proof.
  intros p Hp _.
  assert (Hc : p = 1 \/ p = 2 \/ p = 3 \/ p = 4 \/ p = 5 \/ p = 6 \/ p = 7)
    by lia.
  repeat destruct Hc as [->|Hc]; try subst p; by vm_compute.
Qed.

Lemma pool_exhausted_changes_nothing_witness :
  find_add_pair 8 (legal_color 8) zero_heap full8 COLOR_GREEN COLOR_GREEN = Some (-1, full8) /\
  add_color_rule 8 (legal_color 8) zero_heap full8 OBJECT_ERROR None COLOR_GREEN COLOR_GREEN
  = Some (-1, full8).
Proof.
  destruct (pool_exhausted_changes_nothing 8 (legal_color 8) zero_heap full8 COLOR_GREEN
              COLOR_GREEN ltac:(unfold SHRT_MAX; lia) full8_ready full8_full
              full8_no_green) as [H1 H2].
  split; [exact H1|exact (H2 OBJECT_ERROR None)].
Defined.

(** C7. When the pool is ready, [COLOR_PAIRS] is in the range of the
    [short] pair numbers and the rule store holds a rule with the object
    and the rule text given (both texts NULL, or texts of the same
    content), [add_color_rule] returns, and the rule store afterwards has
    the length it had, every rule but the first such rule is as it was and
    where it was, and that rule has kept its object and its text; its pair
    is the one [find_add_pair] gave, and when that call failed nothing has
    changed at all. *)
Theorem add_color_rule_overwrites_in_place :
  forall (COLOR_PAIRS : Z) (color_ok beyond : Z -> bool) (st : colors)
         (object : color_object) (rule : option string) (fg bg : Z),
    COLOR_PAIRS <= SHRT_MAX ->
    pool_ready COLOR_PAIRS st ->
    (exists r, In r (color_rules st) /\
               rule_object r = object /\ rule_text r = rule) ->
    exists ret st' i this this',
      add_color_rule COLOR_PAIRS color_ok beyond st object rule fg bg
      = Some (ret, st') /\
      color_rules st !! i = Some this /\
      rule_object this = object /\ rule_text this = rule /\
      (forall j r, (j < i)%nat -> color_rules st !! j = Some r ->
                   ~ (rule_object r = object /\ rule_text r = rule)) /\
      color_rules st' !! i = Some this' /\
      rule_object this' = object /\ rule_text this' = rule /\
      length (color_rules st') = length (color_rules st) /\
      (forall j, j <> i -> color_rules st' !! j = color_rules st !! j) /\
      (ret < 0 -> st' = st) /\
      (0 <= ret ->
       ret = 0 /\
       exists p st1,
         find_add_pair COLOR_PAIRS color_ok beyond st fg bg = Some (p, st1) /\
         0 <= p /\ rule_pair this' = p).
Proof.
  intros CP C beyond st object rule fg bg Hs Hr (r & Hin & Ho & Ht).
  destruct (first_same_rule (color_rules st) object rule)
    as (i & this & Hi & Hsame & Hbefore).
  { exists r. split; [done|]. by apply same_rule_iff. }
  destruct Hr as (used & Hu & Hlen).
  destruct (find_add_pair_total CP C beyond st fg bg used Hs Hu)
    as (p & st1 & Hf).
  pose proof (add_color_rule_walk_found CP C beyond _ _ _ _ _ _ _ _ _ _
                Hf Hi Hsame Hbefore) as Hw.
  apply same_rule_iff in Hsame as [Hto Htt].
  assert (Hbefore' : forall j r0, (j < i)%nat -> color_rules st !! j = Some r0 ->
                                  ~ (rule_object r0 = object /\ rule_text r0 = rule)).
  { intros j r0 Hj Hr0 Hc. apply same_rule_iff in Hc.
    rewrite (Hbefore j r0) in Hc by done. discriminate. }
  pose proof (lookup_lt_Some _ _ _ Hi) as Hlt.
  unfold add_color_rule. rewrite Hw.
  destruct (Z.ltb_spec p 0) as [Hneg|Hpos].
  - exists p, (with_rules st1 (color_rules st)), i, this, this.
    apply find_add_pair_result in Hf as (_ & Hsame & _).
    rewrite (Hsame Hneg), with_rules_same.
    repeat split; try done; lia.
  - exists 0, (with_rules st1 (<[i := set_rule_pair this p]> (color_rules st))),
      i, this, (set_rule_pair this p).
    cbn [with_rules color_rules].
    repeat split; try done; try lia.
    + by apply list_lookup_insert_eq.
    + apply length_insert.
    + intros j Hj. by apply list_lookup_insert_ne.
    + exists p, st1. repeat split; try done.
Qed.

Lemma add_color_rule_overwrites_in_place_witness :
  exists st',
    add_color_rule 8 (legal_color 8) zero_heap started8 OBJECT_TASK (Some "~S"%string)
      COLOR_RED (-1) = Some (0, st') /\
    length (color_rules st') = length (color_rules started8) /\
    (forall j, j <> 5%nat -> color_rules st' !! j = color_rules started8 !! j).
Proof.
  destruct (add_color_rule_overwrites_in_place 8 (legal_color 8) zero_heap started8
              OBJECT_TASK (Some "~S"%string) COLOR_RED (-1)
              ltac:(unfold SHRT_MAX; lia) started8_ready)
    as (ret & st' & i & this & this' & Ha & Hi & Ho & Ht & Hb & Hi' & _ & _
        & Hlen & Hothers & Hneg & Hpos).
  { exists {| rule_pair := 6; rule_text := Some "~S"%string;
              rule_object := OBJECT_TASK |}.
    split; [|split; reflexivity]. vm_compute. do 5 right. by left. }
  assert (Hi5 : i = 5%nat).
  { assert (Hl : (i < 7)%nat) by (apply lookup_lt_Some in Hi; exact Hi).
    destruct i as [|[|[|[|[|[|[|i]]]]]]]; [..|exfalso; lia];
      try reflexivity; exfalso;
      vm_compute in Hi; injection Hi as <-; vm_compute in Ht; discriminate Ht. }
  subst i.
  assert (Hret : ret = 0).
  { vm_compute in Ha. by injection Ha as <- _. }
  subst ret. exists st'. split; [exact Ha|]. split; [exact Hlen|exact Hothers].
Defined.

(** ** Initialisation and resolution *)

Lemma set_default_colors_zero CP C beyond st ret st' :
  set_default_colors CP C beyond st = Some (ret, st') -> ret = 0.
Proof.
  unfold set_default_colors.
  destruct (add_color_rules CP C beyond st default_rules); [|discriminate].
  by intros [= <- _].
Qed.

(** [init_colors] answers 3 exactly when curses starts and the terminal
    has no colors; the rule store and the pool are then as they were. *)
Lemma init_colors_three CP C beyond start_ok default_ok has_colors st st' :
  init_colors CP C beyond start_ok default_ok has_colors st = Some (3, st') ->
  start_ok = true /\ default_ok = true /\ has_colors = false /\
  color_rules st' = color_rules st /\ pairs_used st' = pairs_used st /\
  use_colors st' = false.
Proof.
  unfold init_colors.
  destruct start_ok; cbn [negb]; [|discriminate].
  destruct default_ok; cbn [negb]; [|discriminate].
  destruct has_colors.
  - destruct (CP <? 1); [discriminate|].
    intros H. apply set_default_colors_zero in H. discriminate.
  - by intros [= <-].
Qed.

(** C8. When [init_colors], called on the globals as they start, answers 3,
    the terminal has no colors, no rule is in the rule store, and every
    call of [get_colors] then returns 0, for every object, task, selection
    flag and matcher; a terminal that starts curses and has no colors gets
    this answer. And in any state, when no rule applies to the object,
    [get_colors] returns 0. *)
Theorem get_colors_monochrome :
  forall (COLOR_PAIRS : Z) (color_ok beyond : Z -> bool),
    (forall start_ok default_ok has_colors st',
        init_colors COLOR_PAIRS color_ok beyond start_ok default_ok has_colors
          colors_start = Some (3, st') ->
        has_colors = false /\ color_rules st' = [] /\
        forall match_string object tsk selected,
          get_colors match_string st' object tsk selected = 0) /\
    (exists st',
        init_colors COLOR_PAIRS color_ok beyond true true false colors_start
        = Some (3, st')) /\
    (forall match_string st object tsk selected,
        forallb (fun r => negb (rule_matches match_string object tsk selected r))
          (color_rules st) = true ->
        get_colors match_string st object tsk selected = 0).
Proof.
  intros CP C beyond. split; [|split].
  - intros start_ok default_ok has_colors st' H.
    apply init_colors_three in H as (_ & _ & Hc & Hr & _).
    split; [done|]. split; [done|].
    intros ms object tsk selected. unfold get_colors. rewrite Hr.
    reflexivity.
  - eexists. reflexivity.
  - intros ms st object tsk selected H. unfold get_colors.
    by rewrite get_colors_walk_no_match.
Qed.

Lemma get_colors_monochrome_witness :
  (exists st',
      init_colors 8 (legal_color 8) zero_heap true true false colors_start = Some (3, st') /\
      get_colors match_literal st' OBJECT_TASK sample_task true = 0) /\
  get_colors match_literal selected_only OBJECT_TASK sample_task false = 0.
Proof.
  destruct (get_colors_monochrome 8 (legal_color 8) zero_heap) as (H1 & _ & H3).
  split.
  - eexists. split; [reflexivity|].
    refine (proj2 (proj2 (H1 true true false _ eq_refl)) _ _ _ _).
  - exact (H3 match_literal selected_only OBJECT_TASK sample_task false eq_refl).
Defined.

(** ** The read past the end of [pairs_used] *)

(** When every pair is in use, the loop of [add_color_pair] reads
    [pairs_used] at every index from 0 to [COLOR_PAIRS], that one
    included, and ends there. *)
Lemma free_search_reads_ceiling COLOR_PAIRS beyond used :
  0 <= COLOR_PAIRS <= SHRT_MAX ->
  (forall q, 0 <= q < COLOR_PAIRS -> read_used beyond used q = true) ->
  free_search COLOR_PAIRS beyond (S (Z.to_nat COLOR_PAIRS)) used 0
  = Some (COLOR_PAIRS, seqZ 0 (COLOR_PAIRS + 1)).
Proof.
  intros Hc Hfull.
  destruct (free_search_spec COLOR_PAIRS beyond ltac:(lia)
              (S (Z.to_nat COLOR_PAIRS)) used 0)
    as (slot & E & H1 & H2 & H3); [lia|lia|].
  destruct (Z.eq_dec slot COLOR_PAIRS) as [->|Hne].
  - rewrite E. do 3 f_equal. lia.
  - rewrite Hfull in H3 by lia. discriminate H3. lia.
Qed.

(** C9, where it fails. On a terminal with eight color pairs, once the
    default rules and one more have taken the pairs 1 to 7, [pairs_used]
    has its eight entries set; a call of [find_add_pair] with a new
    content then returns -1, and the loop of [add_color_pair] has read
    [pairs_used] at the indices 0 to 8: index 8 is one past the end. *)
Theorem add_color_pair_reads_past_the_end :
  forall beyond : Z -> bool,
    pairs_used full8 = Some (replicate 8 true) /\
    free_search 8 beyond 9 (replicate 8 true) 0
    = Some (8, [0; 1; 2; 3; 4; 5; 6; 7; 8]) /\
    find_add_pair 8 (legal_color 8) beyond full8 COLOR_GREEN COLOR_GREEN = Some (-1, full8).
Proof.
  intros beyond. split; [by vm_compute|]. split.
  - refine (free_search_reads_ceiling 8 beyond (replicate 8 true) _ _).
    + unfold SHRT_MAX. lia.
    + intros q Hq.
      assert (Hc : q = 0 \/ q = 1 \/ q = 2 \/ q = 3 \/ q = 4 \/ q = 5 \/ q = 6
                   \/ q = 7) by lia.
      repeat destruct Hc as [->|Hc]; try subst q; reflexivity.
  - apply find_add_pair_full.
    + unfold SHRT_MAX. lia.
    + apply full8_ready.
    + intros p Hp. exists (replicate 8 true). split; [by vm_compute|].
      assert (Hc : p = 0 \/ p = 1 \/ p = 2 \/ p = 3 \/ p = 4 \/ p = 5 \/ p = 6
                   \/ p = 7) by lia.
      repeat destruct Hc as [->|Hc]; try subst p; reflexivity.
    + intros p Hp _.
      assert (Hc : p = 1 \/ p = 2 \/ p = 3 \/ p = 4 \/ p = 5 \/ p = 6 \/ p = 7)
        by lia.
      repeat destruct Hc as [->|Hc]; try subst p; by vm_compute.
Qed.

(** ** Color names *)

Lemma digit_char_digit d :
  (d < 10)%nat ->
  isdigit (digit_char d) = true /\ digit_val (digit_char d) = Z.of_nat d /\
  isspace (digit_char d) = false /\
  Ascii.eqb (digit_char d) "-" = false /\ Ascii.eqb (digit_char d) "+" = false.
Proof.
  intros H. do 10 (destruct d as [|d]; [by vm_compute|]). lia.
Qed.

(** The digits of a numeral are read up to the width, or up to the first
    character that is no digit. *)
Lemma digits_value_text max ds rest acc n :
  all_digits ds = true ->
  (max <= length ds)%nat \/ starts_with_digit rest = false ->
  digits_value max (digits_text ds +:+ rest) acc n
  = (digits_number (take max ds) acc, (n + length (take max ds))%nat).
Proof.
  revert ds acc n; induction max as [|max IH]; intros ds acc n Hd Hr.
  - rewrite take_0. cbn. f_equal. lia.
  - destruct ds as [|d ds].
    + destruct Hr as [Hr|Hr]; [cbn in Hr; lia|].
      rewrite take_nil.
      cbn [digits_text String.append digits_number length].
      cbn [digits_value]. destruct rest as [|c rest]; [f_equal; lia|].
      cbn in Hr. rewrite Hr. f_equal. lia.
    + cbn [all_digits forallb] in Hd. apply andb_true_iff in Hd as [Hd1 Hd2].
      apply Nat.ltb_lt in Hd1.
      destruct (digit_char_digit d Hd1) as (H1 & H2 & _).
      rewrite firstn_cons.
      cbn [digits_text String.append digits_value digits_number length].
      rewrite H1, H2, IH; [f_equal; lia|done|].
      destruct Hr as [Hr|Hr]; [left; cbn in Hr; lia|by right].
Qed.

Lemma to_int_clamp v :
  INT_MIN <= v <= INT_MAX -> to_int (strtol_clamp v) = v.
Proof.
  unfold INT_MIN, INT_MAX, to_int, strtol_clamp, LONG_MIN, LONG_MAX.
  intros H. rewrite Z.max_r, Z.min_r by lia.
  rewrite Z.mod_small; lia.
Qed.

Lemma length_digits_text ds : String.length (digits_text ds) = length ds.
Proof. induction ds as [|d ds IH]; cbn; [done|by rewrite IH]. Qed.

(** [%d] reads a numeral at the head of the string. *)
Lemma sscanf_d_numeral negative ds rest :
  ds <> [] ->
  all_digits ds = true ->
  starts_with_digit rest = false ->
  INT_MIN <= numeral_number negative ds <= INT_MAX ->
  sscanf_d (numeral_text negative ds +:+ rest)
  = IntValue (numeral_number negative ds).
Proof.
  intros Hne Hd Hr Hv. unfold sscanf_d, scan_d.
  destruct ds as [|d ds]; [done|].
  pose proof Hd as Hd'.
  cbn [all_digits forallb] in Hd'. apply andb_true_iff in Hd' as [Hd1 _].
  apply Nat.ltb_lt in Hd1.
  destruct (digit_char_digit d Hd1) as (_ & _ & Hsp & Hm & Hp).
  destruct negative; cbn [numeral_text numeral_number] in *.
  - cbn [String.append skip_space].
    change (isspace "-") with false. cbv iota.
    change (Ascii.eqb "-" "-") with true. cbn [orb].
    rewrite digits_value_text; [|done|by right].
    rewrite take_ge.
    2:{ cbn [String.length Nat.pred]. rewrite length_append, length_digits_text. lia. }
    cbn [length Nat.add Nat.eqb]. by rewrite to_int_clamp.
  - cbn [digits_text String.append skip_space]. rewrite Hsp, Hm, Hp.
    cbn [orb].
    change (String (digit_char d) (digits_text ds +:+ rest))
      with (digits_text (d :: ds) +:+ rest).
    rewrite digits_value_text; [|done|by right].
    rewrite take_ge.
    2:{ rewrite length_append, length_digits_text. lia. }
    cbn [length Nat.add Nat.eqb]. by rewrite to_int_clamp.
Qed.

Lemma digits_number_bound ds acc :
  all_digits ds = true -> 0 <= acc ->
  acc <= digits_number ds acc
  /\ digits_number ds acc < (acc + 1) * 10 ^ Z.of_nat (length ds).
Proof.
  revert acc; induction ds as [|d ds IH]; intros acc Hd Ha.
  - cbn. lia.
  - cbn [all_digits forallb] in Hd. apply andb_true_iff in Hd as [Hd1 Hd2].
    apply Nat.ltb_lt in Hd1.
    cbn [digits_number length].
    destruct (IH (acc * 10 + Z.of_nat d) Hd2 ltac:(lia)) as [H1 H2].
    split; [lia|].
    rewrite Nat2Z.inj_succ, Z.pow_succ_r by lia.
    eapply Z.lt_le_trans; [exact H2|].
    assert (0 < 10 ^ Z.of_nat (length ds)) by (apply Z.pow_pos_nonneg; lia).
    nia.
Qed.

Lemma all_digits_take n ds :
  all_digits ds = true -> all_digits (take n ds) = true.
Proof.
  revert ds; induction n as [|n IH]; intros ds H; [by rewrite take_0|].
  destruct ds as [|d ds]; [done|].
  rewrite firstn_cons. cbn [all_digits forallb] in *.
  apply andb_true_iff in H as [H1 H2]. rewrite H1. by apply IH.
Qed.

(** [color%3d] reads at most three digits after the word. *)
Lemma sscanf_color3d_digits ds rest :
  ds <> [] ->
  all_digits ds = true ->
  (3 <= length ds)%nat \/ starts_with_digit rest = false ->
  sscanf_color3d ("color" +:+ digits_text ds +:+ rest)
  = IntValue (digits_number (take 3 ds) 0).
Proof.
  intros Hne Hd Hr. unfold sscanf_color3d.
  cbn [String.append scan_literal]. cbn [Ascii.eqb Bool.eqb].
  unfold scan_d.
  destruct ds as [|d ds]; [done|].
  pose proof Hd as Hd'.
  cbn [all_digits forallb] in Hd'. apply andb_true_iff in Hd' as [Hd1 Hd2].
  apply Nat.ltb_lt in Hd1.
  destruct (digit_char_digit d Hd1) as (_ & _ & Hsp & Hm & Hp).
  cbn [digits_text String.append skip_space]. rewrite Hsp, Hm, Hp.
  cbn [orb].
  change (String (digit_char d) (digits_text ds +:+ rest))
    with (digits_text (d :: ds) +:+ rest).
  rewrite digits_value_text by done.
  cbn [take length Nat.add Nat.eqb].
  rewrite to_int_clamp; [done|].
  pose proof (all_digits_take 3 (d :: ds) Hd) as Ht.
  destruct (digits_number_bound (take 3 (d :: ds)) 0 Ht ltac:(lia)) as [H1 H2].
  assert (Hl : (length (take 3 (d :: ds)) <= 3)%nat)
    by (rewrite length_take; lia).
  assert (10 ^ Z.of_nat (length (take 3 (d :: ds))) <= 10 ^ 3)
    by (apply Z.pow_le_mono_r; lia).
  cbn [take] in *. unfold INT_MIN, INT_MAX. lia.
Qed.

Lemma sscanf_d_word c rest :
  isspace c = false -> isdigit c = false ->
  Ascii.eqb c "-" = false -> Ascii.eqb c "+" = false ->
  sscanf_d (String c rest) = IntNone.
Proof.
  intros Hs Hd Hm Hp. unfold sscanf_d, scan_d.
  cbn [skip_space]. rewrite Hs, Hm, Hp. cbn [orb String.length digits_value].
  by rewrite Hd.
Qed.

(** C10, as amended. Of a string that begins with a decimal numeral, with
    a minus sign or without, whose number fits an [int], [parse_color]
    returns the number, whatever follows the numeral (12 for "12abc"); so
    it returns -2, the value that otherwise says that nothing was
    recognized, exactly when the number is -2. Of the word color and
    digits it returns the number of the first three digits at most (123
    for "color1234"). *)
Theorem parse_color_leading_integer :
  (forall negative ds rest,
      ds <> [] ->
      all_digits ds = true ->
      starts_with_digit rest = false ->
      INT_MIN <= numeral_number negative ds <= INT_MAX ->
      parse_color (numeral_text negative ds +:+ rest)
      = numeral_number negative ds) /\
  (forall ds rest,
      ds <> [] ->
      all_digits ds = true ->
      (3 <= length ds)%nat \/ starts_with_digit rest = false ->
      parse_color ("color" +:+ digits_text ds +:+ rest)
      = digits_number (take 3 ds) 0) /\
  parse_color "12abc" = 12 /\
  parse_color "color1234" = 123.
Proof.
  split; [|split; [|split; reflexivity]].
  - intros negative ds rest Hne Hd Hr Hv. unfold parse_color.
    by rewrite sscanf_d_numeral.
  - intros ds rest Hne Hd Hr. unfold parse_color.
    change ("color" +:+ digits_text ds +:+ rest)
      with (String "c" ("olor" +:+ digits_text ds +:+ rest)).
    rewrite sscanf_d_word by reflexivity.
    change (String "c" ("olor" +:+ digits_text ds +:+ rest))
      with ("color" +:+ digits_text ds +:+ rest).
    by rewrite sscanf_color3d_digits.
Qed.

Lemma parse_color_leading_integer_witness :
  parse_color "-1 " = -1 /\ parse_color "color0075" = 7.
Proof.
  destruct parse_color_leading_integer as (H1 & H2 & _).
  split.
  - exact (H1 true [1%nat] " "%string ltac:(discriminate) eq_refl eq_refl
             ltac:(vm_compute; split; discriminate)).
  - exact (H2 [0; 0; 7; 5]%nat EmptyString ltac:(discriminate) eq_refl
             ltac:(left; cbn; lia)).
Defined.

(** C10, where it fails. The string "-2" begins with a decimal integer,
    and [parse_color] returns -2 for it as it does for a name it does not
    know. *)
Lemma parse_color_minus_two :
  parse_color "-2" = -2 /\ parse_color "-2abc" = -2 /\
  parse_color "no such color" = -2.
Proof. repeat split; reflexivity. Qed.

(** * Further properties *)

(** ** The selection flag in predicates *)

Lemma occurs_tail needle c rest :
  occurs needle (String c rest) = false ->
  str_starts_with (String c rest) needle = false /\
  occurs needle rest = false.
Proof. cbn [occurs]. intros H. by apply orb_false_elim in H. Qed.

Lemma occurs_advance needle k s r :
  occurs needle s = false -> advance k s = Some r ->
  occurs needle r = false.
Proof.
  revert s; induction k as [|k IH]; intros s Ho Ha; cbn [advance] in Ha.
  - by injection Ha as <-.
  - destruct s as [|c s]; [discriminate|].
    apply occurs_tail in Ho as [_ Ho]. by eapply IH.
Qed.

Section SelectionFacts.

Variable match_string : option string -> string -> bool.

(** Where no [~S] occurs the flag is not looked at. *)
Lemma eval_rules_from_unselected fuel rule tsk :
  occurs "~S" rule = false ->
  eval_rules_from match_string fuel rule tsk true
  = eval_rules_from match_string fuel rule tsk false.
Proof.
  revert rule; induction fuel as [|fuel IH]; intros rule Ho; [done|].
  destruct rule as [|c rest]; [done|].
  cbn [eval_rules_from].
  destruct (occurs_tail _ _ _ Ho) as [Hs Hrest].
  destruct (negb (Ascii.eqb c tilde)); [by apply IH|].
  rewrite Hs.
  destruct (sscanf_clause (String c rest)) as [| |p|p re]; try done.
  destruct (advance (String.length re + 3) (String c rest)) as [r|] eqn:Ea;
    [|done].
  by rewrite (IH r (occurs_advance _ _ _ _ Ho Ea)).
Qed.

(** A rule that holds without the flag holds with it. *)
Lemma eval_rules_from_selected fuel rule tsk :
  eval_rules_from match_string fuel rule tsk false = Some true ->
  eval_rules_from match_string fuel rule tsk true = Some true.
Proof.
  revert rule; induction fuel as [|fuel IH]; intros rule H; [done|].
  destruct rule as [|c rest]; [done|].
  cbn [eval_rules_from] in *.
  destruct (negb (Ascii.eqb c tilde)); [by apply IH|].
  destruct (str_starts_with (String c rest) "~S"); [discriminate|].
  destruct (sscanf_clause (String c rest)) as [| |p|p re]; try done.
  destruct (advance (String.length re + 3) (String c rest)) as [r|] eqn:Ea.
  - destruct (eval_rules_from match_string fuel r tsk false) as [[|]|] eqn:E.
    + by rewrite (IH r E).
    + repeat match type of H with
             | context [if ?c then _ else _] => destruct c
             end; done.
    + repeat match type of H with
             | context [if ?c then _ else _] => destruct c
             end; done.
  - done.
Qed.

End SelectionFacts.

(** X1. A rule that matches a task that is not selected matches it when it
    is selected; and a rule in which no [~S] occurs gives the same answer
    for both values of the flag. *)
Theorem eval_rules_selection_flag :
  forall (match_string : option string -> string -> bool)
         (rule : option string) (tsk : task),
    (eval_rules match_string rule tsk false = true ->
     eval_rules match_string rule tsk true = true) /\
    (forall r, rule = Some r -> occurs "~S" r = false ->
               eval_rules match_string rule tsk true
               = eval_rules match_string rule tsk false).
Proof.
  intros ms rule tsk. split.
  - destruct rule as [r|]; [|done]. unfold eval_rules.
    destruct (eval_rules_from ms (S (String.length r)) r tsk false)
      as [[|]|] eqn:E; try discriminate.
    intros _. by rewrite (eval_rules_from_selected ms _ _ _ E).
  - intros r -> Ho. unfold eval_rules.
    by rewrite eval_rules_from_unselected.
Qed.

Lemma eval_rules_selection_flag_witness :
  eval_rules match_literal (Some "~p 'task'"%string) sample_task true = true /\
  eval_rules match_literal (Some "~d 'zzz'"%string) sample_task true
  = eval_rules match_literal (Some "~d 'zzz'"%string) sample_task false.
Proof.
  destruct (eval_rules_selection_flag match_literal (Some "~p 'task'"%string)
              sample_task) as [H1 _].
  destruct (eval_rules_selection_flag match_literal (Some "~d 'zzz'"%string)
              sample_task) as [_ H2].
  split; [exact (H1 eq_refl)|exact (H2 _ eq_refl eq_refl)].
Defined.

(** ** What the pool hands out and keeps *)

Lemma holds_content_true COLOR_PAIRS scr p fg bg :
  holds_content COLOR_PAIRS scr p fg bg = true <->
  pair_content COLOR_PAIRS scr p = Some (fg, bg).
Proof.
  unfold holds_content.
  destruct (pair_content COLOR_PAIRS scr p) as [[f b]|]; [|done].
  split.
  - intros H. apply andb_true_iff in H as [H1 H2].
    apply Z.eqb_eq in H1, H2. by subst.
  - intros [= -> ->]. by rewrite !Z.eqb_refl.
Qed.

Lemma pair_content_insert COLOR_PAIRS scr p (c : Z * Z) :
  0 <= p < COLOR_PAIRS ->
  pair_content COLOR_PAIRS (<[p := c]> scr) p = Some c.
Proof.
  intros H. unfold pair_content.
  replace ((0 <=? p) && (p <? COLOR_PAIRS)) with true by lia.
  by rewrite lookup_insert_eq.
Qed.

Section PoolGives.

Variable COLOR_PAIRS : Z.
Variable color_ok : Z -> bool.
Variable beyond : Z -> bool.

#[local] Abbreviation find_add := (find_add_pair COLOR_PAIRS color_ok beyond).
#[local] Abbreviation add_rule := (add_color_rule COLOR_PAIRS color_ok beyond).

(** The pair [find_add_pair] returns is in use afterwards; it holds the
    content asked for when it was found, and the colors as curses keeps
    them when it was taken. *)
Lemma find_add_pair_gives st fg bg ret st' :
  COLOR_PAIRS <= SHRT_MAX ->
  pool_ready COLOR_PAIRS st ->
  find_add st fg bg = Some (ret, st') ->
  (ret = -1 /\ st' = st) \/
  (1 <= ret < COLOR_PAIRS /\ pair_in_use beyond st' ret /\
   (pair_content COLOR_PAIRS (scr_pairs st') ret = Some (fg, bg) \/
    pair_content COLOR_PAIRS (scr_pairs st') ret
    = Some (stored_color fg, stored_color bg))).
Proof.
  intros Hs (used & Hu & Hlen) H. unfold find_add_pair in H. rewrite Hu in H.
  destruct (find_pair COLOR_PAIRS beyond (S (Z.to_nat COLOR_PAIRS)) used
              (scr_pairs st) fg bg 1 (-1)) as [[p|free]|] eqn:Es;
    [| |discriminate].
  - injection H as <- <-.
    destruct (find_pair_spec COLOR_PAIRS beyond Hs _ _ _ _ _ 1 _ _ ltac:(lia) Es)
      as (Hr & Hread & Hh & _).
    right. split; [done|]. split; [by exists used|].
    left. by apply holds_content_true.
  - destruct (find_pair_spec COLOR_PAIRS beyond Hs _ _ _ _ _ 1 _ _ ltac:(lia) Es)
      as (_ & _ & Hfree).
    destruct (Hfree eq_refl) as [[-> Hall]|(Hr & Hun & _)].
    + rewrite add_color_pair_none_free in H by (done || lia).
      injection H as <- <-. left. split; [done|]. by apply with_pool_same.
    + rewrite add_color_pair_asked, Hun in H by lia.
      destruct (init_pair COLOR_PAIRS color_ok (scr_pairs st) free fg bg)
        as [scr'|] eqn:Ei.
      * injection H as <- <-. apply init_pair_some in Ei as [_ ->].
        right. split; [done|]. cbn [with_pool pairs_used scr_pairs]. split.
        -- eexists. split; [reflexivity|]. apply read_used_insert_eq. lia.
        -- right. apply pair_content_insert. lia.
      * injection H as <- <-. left. split; [done|]. by apply with_pool_same.
Qed.

(** A pair in use stays in use, with its content. *)
Lemma find_add_pair_keeps st fg bg ret st' :
  pool_ready COLOR_PAIRS st ->
  find_add st fg bg = Some (ret, st') ->
  forall p, pair_in_use beyond st p ->
            pair_in_use beyond st' p /\
            scr_pairs st' !! p = scr_pairs st !! p.
Proof.
  intros Hr H p Hp.
  destruct (Z.lt_ge_cases ret 0) as [Hneg|Hpos].
  { apply find_add_pair_result in H as (_ & Hsame & _).
    by rewrite (Hsame Hneg). }
  destruct (find_add_pair_given _ _ _ _ _ _ _ _ H Hpos)
    as [->|used Hs Hu -> Hrange Hfree Hbefore Hno]; [done|].
  destruct Hp as (u & Hu' & Hp). rewrite Hu in Hu'. injection Hu' as <-.
  assert (Hne : ret <> p) by congruence.
  cbn [with_pool scr_pairs]. split.
  - exists (<[Z.to_nat ret := true]> used). split; [done|].
    by rewrite read_used_insert_ne by lia.
  - by rewrite lookup_insert_ne.
Qed.

(** [find_add_pair] does not look at the rules. *)
Lemma find_add_pair_with_rules st rules fg bg :
  find_add (with_rules st rules) fg bg
  = match find_add st fg bg with
    | Some (ret, st') => Some (ret, with_rules st' rules)
    | None => None
    end.
Proof.
  unfold find_add_pair. cbn [with_rules pairs_used scr_pairs].
  destruct (pairs_used st) as [used|]; [|done].
  destruct (find_pair _ _ _ used (scr_pairs st) fg bg 1 (-1)) as [[p|free]|];
    try done.
  by destruct (add_color_pair _ _ _ used (scr_pairs st) free fg bg)
    as [[[r u] s]|].
Qed.

(** Either a rule of the store passes the test of [add_color_rule], or
    none does. *)
Lemma same_rule_cases rules object rule :
  (exists r, In r rules /\ same_rule r object rule = true) \/
  (forall r, In r rules -> same_rule r object rule = false).
Proof.
  induction rules as [|a rules IH]; [right; by intros r []|].
  destruct (same_rule a object rule) eqn:Ea.
  - left. exists a. split; [by left|done].
  - destruct IH as [(r & Hin & Hr)|Hno].
    + left. exists r. split; [by right|done].
    + right. intros r [<-|Hin]; auto.
Qed.

(** What [add_color_rule] does, by what [find_add_pair] gives. *)
Lemma add_color_rule_shape st object rule fg bg ret st' :
  add_rule st object rule fg bg = Some (ret, st') ->
  exists p st1,
    find_add st fg bg = Some (p, st1) /\
    ((p < 0 /\ ret = p /\ st' = st) \/
     (0 <= p /\ ret = 0 /\ st' = with_rules st1 (color_rules st') /\
      pairs_used st' = pairs_used st1 /\ scr_pairs st' = scr_pairs st1 /\
      (((forall r, In r (color_rules st) -> same_rule r object rule = false) /\
        color_rules st' = color_rules st ++ [new_rule object rule p]) \/
       (exists i this,
           color_rules st !! i = Some this /\
           same_rule this object rule = true /\
           (forall j r, (j < i)%nat -> color_rules st !! j = Some r ->
                        same_rule r object rule = false) /\
           color_rules st' = <[i := set_rule_pair this p]> (color_rules st))))).
Proof.
  unfold add_color_rule. intros H.
  destruct (add_color_rule_walk COLOR_PAIRS color_ok beyond (color_rules st) st
              object rule fg bg) as [[[r rules'] st1]|] eqn:Ew; [|discriminate].
  injection H as <- <-.
  destruct (add_color_rule_walk_pool _ _ _ _ _ _ _ _ _ _ _ _ Ew) as [p Hf].
  exists p, st1. split; [done|].
  destruct (Z.lt_ge_cases p 0) as [Hneg|Hpos].
  - left.
    rewrite (add_color_rule_walk_failed _ _ _ _ _ _ _ _ _ _ _ Hf Hneg) in Ew.
    injection Ew as <- <-.
    apply find_add_pair_result in Hf as (_ & Hsame & _).
    rewrite (Hsame Hneg). by rewrite with_rules_same.
  - right. split; [done|].
    destruct (same_rule_cases (color_rules st) object rule) as [Hex|Hno].
    + destruct (first_same_rule _ _ _ Hex) as (i & this & Hi & Hsame & Hbefore).
      rewrite (add_color_rule_walk_found _ _ _ _ _ _ _ _ _ _ _ _ _ Hf Hi Hsame
                 Hbefore) in Ew.
      replace (p <? 0) with false in Ew by lia.
      injection Ew as <- <-. repeat split. right. by exists i, this.
    + rewrite (add_color_rule_walk_new _ _ _ _ _ _ _ _ _ _ _ Hf Hpos Hno) in Ew.
      injection Ew as <- <-. repeat split. by left.
Qed.

Lemma add_color_rule_total st object rule fg bg :
  COLOR_PAIRS <= SHRT_MAX ->
  pool_ready COLOR_PAIRS st ->
  exists ret st', add_rule st object rule fg bg = Some (ret, st').
Proof.
  intros Hs (used & Hu & Hlen).
  destruct (find_add_pair_total COLOR_PAIRS color_ok beyond st fg bg used Hs Hu)
    as (p & st1 & Hf).
  unfold add_color_rule.
  destruct (Z.lt_ge_cases p 0) as [Hneg|Hpos].
  - rewrite (add_color_rule_walk_failed _ _ _ _ _ _ _ _ _ _ _ Hf Hneg). eauto.
  - destruct (same_rule_cases (color_rules st) object rule) as [Hex|Hno].
    + destruct (first_same_rule _ _ _ Hex) as (i & this & Hi & Hsame & Hbefore).
      rewrite (add_color_rule_walk_found _ _ _ _ _ _ _ _ _ _ _ _ _ Hf Hi Hsame
                 Hbefore). eauto.
    + rewrite (add_color_rule_walk_new _ _ _ _ _ _ _ _ _ _ _ Hf Hpos Hno). eauto.
Qed.

(** With a pair from [find_add_pair], [add_color_rule] returns 0 and keeps
    the pool that call left. *)
Lemma add_color_rule_by_find st object rule fg bg p st1 :
  find_add st fg bg = Some (p, st1) ->
  0 <= p ->
  exists rules', add_rule st object rule fg bg
                 = Some (0, with_rules st1 rules').
Proof.
  intros Hf Hpos. unfold add_color_rule.
  destruct (same_rule_cases (color_rules st) object rule) as [Hex|Hno].
  - destruct (first_same_rule _ _ _ Hex) as (i & this & Hi & Hsame & Hbefore).
    rewrite (add_color_rule_walk_found _ _ _ _ _ _ _ _ _ _ _ _ _ Hf Hi Hsame
               Hbefore).
    replace (p <? 0) with false by lia. eauto.
  - rewrite (add_color_rule_walk_new _ _ _ _ _ _ _ _ _ _ _ Hf Hpos Hno). eauto.
Qed.

End PoolGives.

(** ** Lists of rules *)

Lemma In_insert {A : Type} (l : list A) i x r :
  In r (<[i := x]> l) -> r = x \/ In r l.
Proof.
  revert i; induction l as [|a l IH]; intros i; [by intros []|].
  destruct i as [|i]; cbn.
  - intros [<-|H]; auto.
  - intros [<-|H]; [auto|]. destruct (IH i H); auto.
Qed.

Lemma find_app_first {A : Type} (f : A -> bool) (l l' : list A) x :
  List.find f l = Some x -> List.find f (l ++ l') = Some x.
Proof.
  induction l as [|a l IH]; [discriminate|]. cbn.
  by destruct (f a).
Qed.

(** Writing a rule that the class test takes as before, behind or instead
    of a rule other than the first of the class, keeps the first. *)
Lemma find_insert_other (f : color_rule -> bool) rules i this this' r0 :
  List.find f rules = Some r0 ->
  rules !! i = Some this ->
  this <> r0 ->
  f this' = f this ->
  List.find f (<[i := this']> rules) = Some r0.
Proof.
  revert i; induction rules as [|a rules IH]; intros i Hf Hi Hne Hsame;
    [discriminate|].
  cbn [List.find] in Hf.
  destruct i as [|i].
  - injection Hi as ->. cbn. rewrite Hsame.
    destruct (f this); [congruence|done].
  - cbn. destruct (f a); [done|]. by eapply IH.
Qed.

Section ResolverMore.

Variable match_string : option string -> string -> bool.

(** A rule at the end of the store is the last word on a task. *)
Lemma get_colors_walk_snoc rules r tsk selected pair :
  rule_object r = OBJECT_TASK ->
  fst (get_colors_walk match_string (rules ++ [r]) OBJECT_TASK tsk selected pair)
  = if eval_rules match_string (rule_text r) tsk selected then rule_pair r
    else fst (get_colors_walk match_string rules OBJECT_TASK tsk selected pair).
Proof.
  intros Ho. rewrite !get_colors_walk_task. cbn [fst].
  rewrite List.filter_app, map_app. cbn [List.filter].
  unfold rule_matches at 2. rewrite Ho. cbn [object_eqb andb].
  destruct (eval_rules match_string (rule_text r) tsk selected).
  - cbn [map]. by rewrite last_snoc.
  - cbn [map]. by rewrite app_nil_r.
Qed.

(** [get_colors] returns the pair of a rule that applies, or 0 when none
    does. *)
Lemma get_colors_walk_of_a_rule rules object tsk selected :
  (exists r, In r rules /\
             rule_matches match_string object tsk selected r = true /\
             fst (get_colors_walk match_string rules object tsk selected 0)
             = rule_pair r) \/
  (forallb (fun r => negb (rule_matches match_string object tsk selected r))
     rules = true /\
   fst (get_colors_walk match_string rules object tsk selected 0) = 0).
Proof.
  destruct (forallb (fun r => negb (rule_matches match_string object tsk selected r))
              rules) eqn:Eall.
  { right. split; [done|]. by apply get_colors_walk_no_match. }
  left. destruct object.
  - rewrite get_colors_walk_first by auto. cbn [fst].
    destruct (List.find (fun r => object_eqb OBJECT_HEADER (rule_object r)) rules)
      as [r|] eqn:Ef.
    + apply find_some in Ef as [Hin Hr]. exists r.
      unfold rule_matches. by rewrite Hr.
    + exfalso. assert (Hall : forallb (fun r => negb (rule_matches match_string
                                 OBJECT_HEADER tsk selected r)) rules = true).
      { apply forallb_forall. intros r Hin.
        pose proof (find_none _ _ Ef r Hin) as Hr. cbn beta in Hr.
        unfold rule_matches. by rewrite Hr. }
      congruence.
  - rewrite get_colors_walk_task. cbn [fst].
    destruct (last (map rule_pair
                      (List.filter (rule_matches match_string OBJECT_TASK tsk selected)
                         rules))) as [p|] eqn:El.
    + apply last_Some_elem_of, list_elem_of_In, in_map_iff in El
        as (r & <- & Hin).
      apply filter_In in Hin as [Hin Hr]. by exists r.
    + exfalso. apply last_None in El. apply map_eq_nil in El.
      assert (Hall : forallb (fun r => negb (rule_matches match_string
                               OBJECT_TASK tsk selected r)) rules = true).
      { apply forallb_forall. intros r Hin.
        destruct (rule_matches match_string OBJECT_TASK tsk selected r) eqn:Er;
          [|done].
        assert (Hf : In r (List.filter (rule_matches match_string OBJECT_TASK
                                          tsk selected) rules))
          by (apply filter_In; auto).
        rewrite El in Hf. destruct Hf. }
      congruence.
  - rewrite get_colors_walk_first by auto. cbn [fst].
    destruct (List.find (fun r => object_eqb OBJECT_ERROR (rule_object r)) rules)
      as [r|] eqn:Ef.
    + apply find_some in Ef as [Hin Hr]. exists r.
      unfold rule_matches. by rewrite Hr.
    + exfalso. assert (Hall : forallb (fun r => negb (rule_matches match_string
                                 OBJECT_ERROR tsk selected r)) rules = true).
      { apply forallb_forall. intros r Hin.
        pose proof (find_none _ _ Ef r Hin) as Hr. cbn beta in Hr.
        unfold rule_matches. by rewrite Hr. }
      congruence.
  - exfalso. assert (Hall : forallb (fun r => negb (rule_matches match_string
                               OBJECT_NONE tsk selected r)) rules = true).
    { apply forallb_forall. intros r Hin. unfold rule_matches.
      by rewrite andb_false_r. }
    congruence.
Qed.

End ResolverMore.

(** ** The pool and the rule store: further statements *)

(** X2. On a ready pool, with [COLOR_PAIRS] in the range of [short],
    [find_add_pair(fg, bg)] returns -1 and leaves the state as it was, or
    returns a pair from 1 below [COLOR_PAIRS] that is in use afterwards;
    it never returns pair 0. What [pair_content] gives for the pair is
    [(fg, bg)], or the two colors as curses keeps them, with -1 for a
    negative color; so it is [(fg, bg)] when both colors are at least
    -1. *)
Theorem find_add_pair_returns_allocated :
  forall (COLOR_PAIRS : Z) (color_ok beyond : Z -> bool) (st : colors)
         (fg bg ret : Z) (st' : colors),
    COLOR_PAIRS <= SHRT_MAX ->
    pool_ready COLOR_PAIRS st ->
    find_add_pair COLOR_PAIRS color_ok beyond st fg bg = Some (ret, st') ->
    (ret = -1 /\ st' = st) \/
    (1 <= ret < COLOR_PAIRS /\ pair_in_use beyond st' ret /\
     (pair_content COLOR_PAIRS (scr_pairs st') ret = Some (fg, bg) \/
      pair_content COLOR_PAIRS (scr_pairs st') ret
      = Some (stored_color fg, stored_color bg)) /\
     (-1 <= fg -> -1 <= bg ->
      pair_content COLOR_PAIRS (scr_pairs st') ret = Some (fg, bg))).
Proof.
  intros CP ok beyond st fg bg ret st' Hs Hr H.
  destruct (find_add_pair_gives CP ok beyond st fg bg ret st' Hs Hr H)
    as [[-> ->]|(Hrange & Huse & Hc)].
  - by left.
  - right. split; [exact Hrange|]. split; [exact Huse|].
    split; [exact Hc|]. intros Hfg Hbg.
    rewrite (stored_color_same fg Hfg), (stored_color_same bg Hbg) in Hc.
    by destruct Hc.
Qed.

Lemma small8 : 8 <= SHRT_MAX.
Proof. unfold SHRT_MAX. lia. Qed.

(** A call on the sample state that takes pair 7. *)
Lemma find_add_pair_returns_allocated_witness :
  exists st',
    find_add_pair 8 (legal_color 8) zero_heap started8 COLOR_WHITE COLOR_BLUE
    = Some (7, st') /\
    pair_content 8 (scr_pairs st') 7 = Some (COLOR_WHITE, COLOR_BLUE).
Proof.
  destruct (find_add_pair 8 (legal_color 8) zero_heap started8 COLOR_WHITE
              COLOR_BLUE) as [[P st']|] eqn:E; [|by vm_compute in E].
  assert (HP : P = 7) by (vm_compute in E; by injection E as <- _).
  subst P. exists st'. split; [done|].
  destruct (find_add_pair_returns_allocated 8 (legal_color 8) zero_heap started8
              COLOR_WHITE COLOR_BLUE 7 st' small8 started8_ready E)
    as [[Hneg _]|(_ & _ & _ & Hc)]; [lia|].
  apply Hc; by vm_compute.
Defined.

(** X3. [add_color_rule] on a ready pool frees no pair and rewrites none:
    a pair that is in use before the call is in use after it, and
    [pair_content] gives for it what it gave. *)
Theorem add_color_rule_keeps_pairs :
  forall (COLOR_PAIRS : Z) (color_ok beyond : Z -> bool) (st : colors)
         (object : color_object) (rule : option string) (fg bg ret : Z)
         (st' : colors),
    pool_ready COLOR_PAIRS st ->
    add_color_rule COLOR_PAIRS color_ok beyond st object rule fg bg
    = Some (ret, st') ->
    forall p, pair_in_use beyond st p ->
              pair_in_use beyond st' p /\
              pair_content COLOR_PAIRS (scr_pairs st') p
              = pair_content COLOR_PAIRS (scr_pairs st) p.
Proof.
  intros CP ok beyond st object rule fg bg ret st' Hr H p Hp.
  destruct (add_color_rule_shape CP ok beyond st object rule fg bg ret st' H)
    as (p0 & st1 & Hf & [(_ & _ & ->)|(_ & _ & _ & Hu & Hs & _)]); [done|].
  destruct (find_add_pair_keeps CP ok beyond st fg bg p0 st1 Hr Hf p Hp)
    as [(u & Hu1 & Hread) Hsame].
  split.
  - exists u. by rewrite Hu.
  - unfold pair_content. by rewrite Hs, Hsame.
Qed.

Lemma started8_pair3 : pair_in_use zero_heap started8 3.
Proof. eexists. split; by vm_compute. Qed.

Lemma add_color_rule_keeps_pairs_witness :
  exists st',
    add_color_rule 8 (legal_color 8) zero_heap started8 OBJECT_TASK
      (Some "~t 'x'"%string) COLOR_WHITE COLOR_BLUE = Some (0, st') /\
    pair_in_use zero_heap st' 3 /\
    pair_content 8 (scr_pairs st') 3 = Some (COLOR_YELLOW, -1).
Proof.
  destruct (add_color_rule 8 (legal_color 8) zero_heap started8 OBJECT_TASK
              (Some "~t 'x'"%string) COLOR_WHITE COLOR_BLUE)
    as [[ret st']|] eqn:E; [|by vm_compute in E].
  assert (Hret : ret = 0) by (vm_compute in E; by injection E as <- _).
  subst ret. exists st'. split; [done|].
  destruct (add_color_rule_keeps_pairs 8 (legal_color 8) zero_heap started8
              OBJECT_TASK (Some "~t 'x'"%string) COLOR_WHITE COLOR_BLUE 0 st'
              started8_ready E 3 started8_pair3) as [H1 H2].
  split; [exact H1|]. rewrite H2. by vm_compute.
Defined.

(** X4. When the pool is ready, [COLOR_PAIRS] is in the range of [short]
    and no rule of the store has the object and the rule text given,
    [add_color_rule] returns -1 and changes nothing, or returns 0 and the
    store is the old one with one rule more at its end, made of the object,
    the text and a pair from 1 below [COLOR_PAIRS]; that pair holds the
    colors given when both are at least -1, and in any case the colors
    given or the colors as curses keeps them. *)
Theorem add_color_rule_appends :
  forall (COLOR_PAIRS : Z) (color_ok beyond : Z -> bool) (st : colors)
         (object : color_object) (rule : option string) (fg bg : Z),
    COLOR_PAIRS <= SHRT_MAX ->
    pool_ready COLOR_PAIRS st ->
    (forall r, In r (color_rules st) ->
               ~ (rule_object r = object /\ rule_text r = rule)) ->
    exists ret st',
      add_color_rule COLOR_PAIRS color_ok beyond st object rule fg bg
      = Some (ret, st') /\
      ((ret = -1 /\ st' = st) \/
       (ret = 0 /\
        exists P,
          1 <= P < COLOR_PAIRS /\
          color_rules st' = color_rules st ++ [new_rule object rule P] /\
          (pair_content COLOR_PAIRS (scr_pairs st') P = Some (fg, bg) \/
           pair_content COLOR_PAIRS (scr_pairs st') P
           = Some (stored_color fg, stored_color bg)) /\
          (-1 <= fg -> -1 <= bg ->
           pair_content COLOR_PAIRS (scr_pairs st') P = Some (fg, bg)))).
Proof.
  intros CP ok beyond st object rule fg bg Hs Hr Hno.
  destruct (add_color_rule_total CP ok beyond st object rule fg bg Hs Hr)
    as (ret & st' & H).
  exists ret, st'. split; [done|].
  destruct (add_color_rule_shape CP ok beyond st object rule fg bg ret st' H)
    as (p & st1 & Hf & Hcases).
  destruct (find_add_pair_gives CP ok beyond st fg bg p st1 Hs Hr Hf)
    as [[-> _]|(Hrange & _ & Hc)].
  - destruct Hcases as [(_ & -> & ->)|(Hpos & _)]; [by left|lia].
  - destruct Hcases as [(Hneg & _)|(_ & -> & _ & _ & Hscr & Hrules)]; [lia|].
    right. split; [done|]. exists p. split; [done|].
    destruct Hrules as [[_ Happ]|(i & this & Hi & Hsame & _)].
    + split; [done|]. rewrite Hscr. split; [exact Hc|].
      intros Hfg Hbg.
      rewrite (stored_color_same fg Hfg), (stored_color_same bg Hbg) in Hc.
      by destruct Hc.
    + exfalso. apply same_rule_iff in Hsame.
      apply (Hno this); [|done].
      apply list_elem_of_In. by eapply list_elem_of_lookup_2.
Qed.

Lemma add_color_rule_appends_witness :
  exists ret st',
    add_color_rule 8 (legal_color 8) zero_heap started8 OBJECT_TASK
      (Some "~t 'x'"%string) COLOR_WHITE COLOR_BLUE = Some (ret, st') /\
    ((ret = -1 /\ st' = started8) \/
     (ret = 0 /\
      exists P,
        1 <= P < 8 /\
        color_rules st'
        = color_rules started8
          ++ [new_rule OBJECT_TASK (Some "~t 'x'"%string) P] /\
        (pair_content 8 (scr_pairs st') P = Some (COLOR_WHITE, COLOR_BLUE) \/
         pair_content 8 (scr_pairs st') P
         = Some (stored_color COLOR_WHITE, stored_color COLOR_BLUE)) /\
        (-1 <= COLOR_WHITE -> -1 <= COLOR_BLUE ->
         pair_content 8 (scr_pairs st') P = Some (COLOR_WHITE, COLOR_BLUE)))).
Proof.
  apply (add_color_rule_appends 8 (legal_color 8) zero_heap started8 OBJECT_TASK
           (Some "~t 'x'"%string) COLOR_WHITE COLOR_BLUE small8 started8_ready).
  intros r Hin [_ Ht]. vm_compute in Hin.
  repeat destruct Hin as [<-|Hin]; try discriminate Ht. destruct Hin.
Defined.

(** X5. After [add_color_rule] has added a rule for tasks to the store (it
    returned 0, and no rule with this text for tasks was there), a task on
    which the new rule's predicate holds gets the new rule's pair from
    [get_colors], and every other task gets what it got before. *)
Theorem new_task_rule_overrides :
  forall (COLOR_PAIRS : Z) (color_ok beyond : Z -> bool) (st : colors)
         (rule : option string) (fg bg : Z) (st' : colors),
    (forall r, In r (color_rules st) ->
               ~ (rule_object r = OBJECT_TASK /\ rule_text r = rule)) ->
    add_color_rule COLOR_PAIRS color_ok beyond st OBJECT_TASK rule fg bg
    = Some (0, st') ->
    exists P,
      color_rules st' = color_rules st ++ [new_rule OBJECT_TASK rule P] /\
      forall match_string tsk selected,
        get_colors match_string st' OBJECT_TASK tsk selected
        = if eval_rules match_string rule tsk selected then COLOR_PAIR P
          else get_colors match_string st OBJECT_TASK tsk selected.
Proof.
  intros CP ok beyond st rule fg bg st' Hno H.
  destruct (add_color_rule_shape CP ok beyond st OBJECT_TASK rule fg bg 0 st' H)
    as (p & st1 & Hf & [(Hneg & Hret & _)|(_ & _ & _ & _ & _ & Hrules)]); [lia|].
  destruct Hrules as [[_ Happ]|(i & this & Hi & Hsame & _)].
  - exists p. split; [done|]. intros ms tsk selected.
    unfold get_colors. rewrite Happ, get_colors_walk_snoc by done.
    cbn [new_rule rule_text rule_pair].
    by destruct (eval_rules ms rule tsk selected).
  - exfalso. apply same_rule_iff in Hsame.
    apply (Hno this); [|done].
    apply list_elem_of_In. by eapply list_elem_of_lookup_2.
Qed.

Lemma new_task_rule_overrides_witness :
  exists st' P,
    add_color_rule 8 (legal_color 8) zero_heap started8 OBJECT_TASK
      (Some "~p 'task'"%string) COLOR_WHITE COLOR_BLUE = Some (0, st') /\
    get_colors match_literal st' OBJECT_TASK sample_task false = COLOR_PAIR P.
Proof.
  destruct (add_color_rule 8 (legal_color 8) zero_heap started8 OBJECT_TASK
              (Some "~p 'task'"%string) COLOR_WHITE COLOR_BLUE)
    as [[ret st']|] eqn:E; [|by vm_compute in E].
  assert (Hret : ret = 0) by (vm_compute in E; by injection E as <- _).
  subst ret.
  destruct (new_task_rule_overrides 8 (legal_color 8) zero_heap started8
              (Some "~p 'task'"%string) COLOR_WHITE COLOR_BLUE st')
    as (P & _ & HP); [|exact E|].
  { intros r Hin [_ Ht]. vm_compute in Hin.
    repeat destruct Hin as [<-|Hin]; try discriminate Ht. destruct Hin. }
  exists st', P. split; [done|].
  exact (HP match_literal sample_task false).
Defined.

(** X6. For headers and errors only the first rule of the class counts:
    when the first rule of the class has a text other than the one given,
    [add_color_rule] for that class, whatever it returns, leaves what
    [get_colors] gives for the class as it was. *)
Theorem add_color_rule_behind_first :
  forall (COLOR_PAIRS : Z) (color_ok beyond : Z -> bool) (st : colors)
         (object : color_object) (rule : option string) (fg bg ret : Z)
         (st' : colors) (r0 : color_rule),
    object = OBJECT_HEADER \/ object = OBJECT_ERROR ->
    List.find (fun r => object_eqb object (rule_object r)) (color_rules st)
    = Some r0 ->
    rule_text r0 <> rule ->
    add_color_rule COLOR_PAIRS color_ok beyond st object rule fg bg
    = Some (ret, st') ->
    forall match_string tsk selected,
      get_colors match_string st' object tsk selected
      = get_colors match_string st object tsk selected.
Proof.
  intros CP ok beyond st object rule fg bg ret st' r0 Ho Hfind Htext H
    ms tsk selected.
  unfold get_colors. rewrite !get_colors_walk_first by done. cbn [fst].
  rewrite Hfind.
  destruct (add_color_rule_shape CP ok beyond st object rule fg bg ret st' H)
    as (p & st1 & Hf & [(_ & _ & ->)|(_ & _ & _ & _ & _ & Hrules)]).
  { by rewrite Hfind. }
  destruct Hrules as [[_ ->]|(i & this & Hi & Hsame & _ & ->)].
  - by rewrite (find_app_first _ _ _ _ Hfind).
  - rewrite (find_insert_other _ _ i this (set_rule_pair this p) r0 Hfind Hi);
      [done| |done].
    intros ->. apply same_rule_iff in Hsame as [_ Ht]. done.
Qed.

Lemma add_color_rule_behind_first_witness :
  exists ret st',
    add_color_rule 8 (legal_color 8) zero_heap started8 OBJECT_HEADER
      (Some "~S"%string) COLOR_GREEN (-1) = Some (ret, st') /\
    get_colors match_literal st' OBJECT_HEADER sample_task true
    = get_colors match_literal started8 OBJECT_HEADER sample_task true.
Proof.
  destruct (add_color_rule 8 (legal_color 8) zero_heap started8 OBJECT_HEADER
              (Some "~S"%string) COLOR_GREEN (-1))
    as [[ret st']|] eqn:E; [|by vm_compute in E].
  exists ret, st'. split; [done|].
  refine (add_color_rule_behind_first 8 (legal_color 8) zero_heap started8
            OBJECT_HEADER (Some "~S"%string) COLOR_GREEN (-1) ret st'
            {| rule_pair := 1; rule_text := None; rule_object := OBJECT_HEADER |}
            (or_introl eq_refl) _ _ E match_literal sample_task true).
  - by vm_compute.
  - discriminate.
Defined.

(** X7. Rules of the same colors share a pair, for colors from -1 on:
    after [add_color_rule] has returned 0 for the colors [(fg, bg)], both
    at least -1, a further [add_color_rule] with these colors, for any
    object and rule, returns 0 and leaves [pairs_used] and the table of
    pairs as they are. *)
Theorem add_color_rule_shares_pair :
  forall (COLOR_PAIRS : Z) (color_ok beyond : Z -> bool) (st : colors)
         (object1 : color_object) (rule1 : option string) (fg bg : Z)
         (st1 : colors),
    pool_ready COLOR_PAIRS st ->
    -1 <= fg -> -1 <= bg ->
    add_color_rule COLOR_PAIRS color_ok beyond st object1 rule1 fg bg
    = Some (0, st1) ->
    forall object2 rule2,
    exists st2,
      add_color_rule COLOR_PAIRS color_ok beyond st1 object2 rule2 fg bg
      = Some (0, st2) /\
      pairs_used st2 = pairs_used st1 /\ scr_pairs st2 = scr_pairs st1.
Proof.
  intros CP ok beyond st object1 rule1 fg bg st1 Hr Hfg Hbg H object2 rule2.
  destruct (add_color_rule_shape CP ok beyond st object1 rule1 fg bg 0 st1 H)
    as (p & s1 & Hf & [(Hneg & Hret & _)|(Hpos & _ & Hst1 & _)]); [lia|].
  pose proof (find_add_pair_again CP ok beyond st fg bg p s1 Hr Hfg Hbg Hf
                Hpos) as Hagain.
  assert (Hf1 : find_add_pair CP ok beyond st1 fg bg = Some (p, st1)).
  { rewrite Hst1 at 1. rewrite find_add_pair_with_rules, Hagain.
    by rewrite <- Hst1. }
  destruct (add_color_rule_by_find CP ok beyond st1 object2 rule2 fg bg p st1
              Hf1 Hpos) as [rules' Hadd].
  exists (with_rules st1 rules'). by split.
Qed.

Lemma add_color_rule_shares_pair_witness :
  exists st1 st2,
    add_color_rule 8 (legal_color 8) zero_heap started8 OBJECT_TASK
      (Some "~t 'x'"%string) COLOR_WHITE COLOR_BLUE = Some (0, st1) /\
    add_color_rule 8 (legal_color 8) zero_heap st1 OBJECT_ERROR None
      COLOR_WHITE COLOR_BLUE = Some (0, st2) /\
    pairs_used st2 = pairs_used st1.
Proof.
  destruct (add_color_rule 8 (legal_color 8) zero_heap started8 OBJECT_TASK
              (Some "~t 'x'"%string) COLOR_WHITE COLOR_BLUE)
    as [[ret st1]|] eqn:E; [|by vm_compute in E].
  assert (Hret : ret = 0) by (vm_compute in E; by injection E as <- _).
  subst ret.
  destruct (add_color_rule_shares_pair 8 (legal_color 8) zero_heap started8
              OBJECT_TASK (Some "~t 'x'"%string) COLOR_WHITE COLOR_BLUE st1
              started8_ready ltac:(by vm_compute) ltac:(by vm_compute) E
              OBJECT_ERROR None) as (st2 & H2 & Hu & _).
  exists st1, st2. split; [done|]. split; [exact H2|exact Hu].
Defined.

(** ** The pairs of the rules *)

Section Allocated.

Variable COLOR_PAIRS : Z.
Variable color_ok : Z -> bool.
Variable beyond : Z -> bool.

Lemma pair_in_use_same_pool st st' p :
  pairs_used st' = pairs_used st ->
  pair_in_use beyond st p -> pair_in_use beyond st' p.
Proof. intros Hu (u & Hu' & Hr). exists u. by rewrite Hu. Qed.

Lemma add_color_rule_allocated st object rule fg bg ret st' :
  COLOR_PAIRS <= SHRT_MAX ->
  pool_ready COLOR_PAIRS st ->
  rules_allocated COLOR_PAIRS beyond st ->
  add_color_rule COLOR_PAIRS color_ok beyond st object rule fg bg
  = Some (ret, st') ->
  rules_allocated COLOR_PAIRS beyond st'.
Proof.
  intros Hs Hr Hall H.
  destruct (add_color_rule_shape _ _ _ _ _ _ _ _ _ _ H)
    as (p & st1 & Hf & [(_ & _ & ->)|(Hpos & _ & _ & Hu & Hscr & Hrules)]);
    [done|].
  destruct (find_add_pair_gives _ _ _ _ _ _ _ _ Hs Hr Hf)
    as [[-> _]|(Hrange & Huse & _)]; [lia|].
  assert (Hold : forall r, In r (color_rules st) ->
                           1 <= rule_pair r < COLOR_PAIRS /\
                           pair_in_use beyond st' (rule_pair r)).
  { intros r Hin. destruct (Hall r Hin) as [H1 H2]. split; [done|].
    apply (pair_in_use_same_pool st1); [done|].
    by apply (find_add_pair_keeps _ _ _ _ _ _ _ _ Hr Hf). }
  assert (Hnew : pair_in_use beyond st' p)
    by (by apply (pair_in_use_same_pool st1)).
  intros r Hin.
  destruct Hrules as [[_ Happ]|(i & this & Hi & _ & _ & Hins)].
  - rewrite Happ in Hin. apply in_app_or in Hin as [Hin|[<-|[]]]; auto.
  - rewrite Hins in Hin. apply In_insert in Hin as [->|Hin]; auto.
Qed.



End Allocated.

(** X8. The rules of the store carry pairs that are in use: when the pool
    is ready, [COLOR_PAIRS] is in the range of [short] and every rule has a
    pair from 1 below [COLOR_PAIRS] that is in use, the same holds after
    [add_color_rule], whatever it returns. *)
Theorem add_color_rule_keeps_rules_allocated :
  forall (COLOR_PAIRS : Z) (color_ok beyond : Z -> bool) (st : colors)
         (object : color_object) (rule : option string) (fg bg ret : Z)
         (st' : colors),
    COLOR_PAIRS <= SHRT_MAX ->
    pool_ready COLOR_PAIRS st ->
    rules_allocated COLOR_PAIRS beyond st ->
    add_color_rule COLOR_PAIRS color_ok beyond st object rule fg bg
    = Some (ret, st') ->
    pool_ready COLOR_PAIRS st' /\ rules_allocated COLOR_PAIRS beyond st'.
Proof.
  intros CP ok beyond st object rule fg bg ret st' Hs Hr Hall H. split.
  - by apply (add_color_rule_pool CP ok beyond st object rule fg bg ret st' H).
  - by eapply add_color_rule_allocated.
Qed.



Lemma started8_allocated : rules_allocated 8 zero_heap started8.
Proof.
  intros r Hin. vm_compute in Hin.
  repeat destruct Hin as [<-|Hin]; try destruct Hin;
    (split; [cbn; lia|]); eexists; (split; [by vm_compute|by vm_compute]).
Qed.

Lemma add_color_rule_keeps_rules_allocated_witness :
  exists ret st',
    add_color_rule 8 (legal_color 8) zero_heap started8 OBJECT_TASK
      (Some "~t 'x'"%string) COLOR_WHITE COLOR_BLUE = Some (ret, st') /\
    rules_allocated 8 zero_heap st'.
Proof.
  destruct (add_color_rule 8 (legal_color 8) zero_heap started8 OBJECT_TASK
              (Some "~t 'x'"%string) COLOR_WHITE COLOR_BLUE)
    as [[ret st']|] eqn:E; [|by vm_compute in E].
  exists ret, st'. split; [done|].
  exact (proj2 (add_color_rule_keeps_rules_allocated 8 (legal_color 8) zero_heap
                  started8 OBJECT_TASK (Some "~t 'x'"%string) COLOR_WHITE
                  COLOR_BLUE ret st' small8 started8_ready started8_allocated E)).
Defined.

(** The attribute of a pair from 1 to 255 is not 0. *)
Lemma COLOR_PAIR_positive n : 1 <= n <= 255 -> COLOR_PAIR n <> 0.
Proof.
  intros Hn.
  assert (Hall : forallb (fun k => negb (COLOR_PAIR k =? 0)) (seqZ 1 255)
                 = true) by (by vm_compute).
  rewrite forallb_forall in Hall.
  specialize (Hall n). cbn beta in Hall.
  assert (Hin : In n (seqZ 1 255))
    by (apply list_elem_of_In, elem_of_seqZ; lia).
  apply Hall, negb_true_iff, Z.eqb_neq in Hin. exact Hin.
Qed.

(** X10. [get_colors] returns the pair (as the attribute [COLOR_PAIR] makes
    of it) of a rule of the store that applies to the object, or 0 when no
    rule applies: it never returns a pair that is not in a rule of the
    class asked for. And when every rule of the store carries a pair from
    1 to 255, it returns 0 exactly when no rule applies. *)
Theorem get_colors_of_a_rule :
  forall (match_string : option string -> string -> bool) (st : colors)
         (object : color_object) (tsk : task) (selected : bool),
    ((exists r, In r (color_rules st) /\
                rule_object r = object /\
                rule_matches match_string object tsk selected r = true /\
                get_colors match_string st object tsk selected
                = COLOR_PAIR (rule_pair r)) \/
     (forallb (fun r => negb (rule_matches match_string object tsk selected r))
        (color_rules st) = true /\
      get_colors match_string st object tsk selected = 0)) /\
    ((forall r, In r (color_rules st) -> 1 <= rule_pair r <= 255) ->
     (get_colors match_string st object tsk selected = 0 <->
      forallb (fun r => negb (rule_matches match_string object tsk selected r))
        (color_rules st) = true)).
Proof.
  intros ms st object tsk selected. unfold get_colors.
  destruct (get_colors_walk_of_a_rule ms (color_rules st) object tsk selected)
    as [(r & Hin & Hm & Hp)|[Hall Hp]].
  - split.
    + left. exists r. rewrite Hp. repeat split; try done.
      unfold rule_matches in Hm. apply andb_true_iff in Hm as [Hm _].
      by destruct object, (rule_object r).
    + intros Hpairs. rewrite Hp. split.
      * intros Hz. by destruct (COLOR_PAIR_positive _ (Hpairs r Hin)).
      * intros Hall. rewrite forallb_forall in Hall.
        specialize (Hall r Hin). cbn beta in Hall.
        rewrite Hm in Hall. discriminate Hall.
  - split.
    + right. by rewrite Hp.
    + intros _. rewrite Hp. by split.
Qed.

Lemma started8_pairs r : In r (color_rules started8) -> 1 <= rule_pair r <= 255.
Proof.
  intros Hin. vm_compute in Hin.
  repeat destruct Hin as [<-|Hin]; try destruct Hin; cbn [rule_pair]; lia.
Qed.

Lemma get_colors_of_a_rule_witness :
  get_colors match_literal started8 OBJECT_TASK sample_task false = 0 <->
  forallb (fun r => negb (rule_matches match_literal OBJECT_TASK sample_task
                            false r))
    (color_rules started8) = true.
Proof.
  exact (proj2 (get_colors_of_a_rule match_literal started8 OBJECT_TASK
                  sample_task false) started8_pairs).
Defined.

(** ** Names of objects and colors *)

(** X11. [parse_object] knows the three names header, task and error as
    they are written, and gives [OBJECT_NONE] for every other string. *)
Theorem parse_object_names :
  forall name : string,
    (parse_object name = OBJECT_HEADER <-> name = "header"%string) /\
    (parse_object name = OBJECT_TASK <-> name = "task"%string) /\
    (parse_object name = OBJECT_ERROR <-> name = "error"%string) /\
    (parse_object name = OBJECT_NONE <->
     name <> "header"%string /\ name <> "task"%string /\
     name <> "error"%string).
Proof.
  intros name. unfold parse_object, color_objects_map, map_lookup, str_eq.
  destruct (String.eqb_spec "header" name) as [<-|H1].
  { repeat split; intros; try discriminate; try done. by destruct H as [? _]. }
  destruct (String.eqb_spec "task" name) as [<-|H2].
  { repeat split; intros; try discriminate; try done. by destruct H as (_ & ? & _). }
  destruct (String.eqb_spec "error" name) as [<-|H3].
  { repeat split; intros; try discriminate; try done. by destruct H as (_ & _ & ?). }
  repeat split; intros; try discriminate; try congruence.
Qed.

(** The digits read within a width stay below the power of ten of the
    width. *)
Lemma digits_value_bound max s acc n :
  0 <= acc ->
  acc <= fst (digits_value max s acc n)
  /\ fst (digits_value max s acc n) < (acc + 1) * 10 ^ Z.of_nat max.
Proof.
  revert s acc n; induction max as [|max IH]; intros s acc n Ha.
  - cbn. lia.
  - assert (Hp : 0 < 10 ^ Z.of_nat max) by (apply Z.pow_pos_nonneg; lia).
    rewrite Nat2Z.inj_succ, Z.pow_succ_r by lia.
    cbn [digits_value]. destruct s as [|c rest]; [cbn [fst]; nia|].
    destruct (isdigit c) eqn:Ec; [|cbn [fst]; nia].
    assert (Hd : 0 <= digit_val c <= 9).
    { unfold isdigit in Ec. unfold digit_val.
      apply andb_true_iff in Ec as [E1 E2].
      apply Nat.leb_le in E1, E2. lia. }
    destruct (IH rest (acc * 10 + digit_val c) (S n) ltac:(lia)) as [H1 H2].
    split; [lia|]. nia.
Qed.

(** [%3d] gives a number from -99 to 999. *)
Lemma scan_d_three s i :
  scan_d (Some 3%nat) s = IntValue i -> -99 <= i <= 999.
Proof.
  unfold scan_d. destruct (skip_space s) as [|c r]; [discriminate|].
  destruct (Ascii.eqb c "-" || Ascii.eqb c "+") eqn:Esign.
  - pose proof (digits_value_bound 2 r 0 0 ltac:(lia)) as [H1 H2].
    cbn [Nat.pred].
    destruct (digits_value 2 r 0 0) as [v n]. cbn [fst] in *.
    destruct (n =? 0)%nat; [discriminate|]. intros [= <-].
    change (10 ^ Z.of_nat 2) with 100 in H2.
    destruct (Ascii.eqb c "-"); rewrite to_int_clamp;
      unfold INT_MIN, INT_MAX; lia.
  - pose proof (digits_value_bound 3 (String c r) 0 0 ltac:(lia)) as [H1 H2].
    destruct (digits_value 3 (String c r) 0 0) as [v n]. cbn [fst] in *.
    destruct (n =? 0)%nat; [discriminate|]. intros [= <-].
    change (10 ^ Z.of_nat 3) with 1000 in H2.
    apply orb_false_elim in Esign as [-> _].
    rewrite to_int_clamp; unfold INT_MIN, INT_MAX; lia.
Qed.

(** X12. For a string that begins with the word color, [parse_color]
    returns a number from -99 to 999: the number that [%3d] reads after
    the word, within three characters with a sign, or -2 when no number
    follows. *)
Theorem parse_color_word_range :
  forall name : string,
    str_starts_with name "color" = true ->
    -99 <= parse_color name <= 999 /\
    (parse_color name = -2 \/
     exists i, sscanf_color3d name = IntValue i /\ parse_color name = i).
Proof.
  intros name H.
  destruct name as [|c0 name]; [discriminate|].
  destruct name as [|c1 name]; [cbn in H; by rewrite andb_false_r in H|].
  destruct name as [|c2 name]; [cbn in H; by rewrite !andb_false_r in H|].
  destruct name as [|c3 name]; [cbn in H; by rewrite !andb_false_r in H|].
  destruct name as [|c4 rest]; [cbn in H; by rewrite !andb_false_r in H|].
  cbn in H.
  repeat (apply andb_true_iff in H as [? H]).
  repeat match goal with
         | Hc : Ascii.eqb _ _ = true |- _ => apply Ascii.eqb_eq in Hc; subst
         end.
  unfold parse_color.
  rewrite sscanf_d_word by reflexivity.
  unfold sscanf_color3d. cbn [scan_literal]. cbn [Ascii.eqb Bool.eqb].
  destruct (scan_d (Some 3%nat) rest) as [| |i] eqn:E.
  - split; [by vm_compute|]. left.
    unfold colors_map, map_lookup, str_eq. cbn [String.eqb Ascii.eqb Bool.eqb].
    reflexivity.
  - split; [by vm_compute|]. left.
    unfold colors_map, map_lookup, str_eq. cbn [String.eqb Ascii.eqb Bool.eqb].
    reflexivity.
  - split; [by apply (scan_d_three rest)|]. right. by exists i.
Qed.

Lemma parse_color_word_range_witness :
  -99 <= parse_color "color-123" <= 999 /\ parse_color "colorful" = -2.
Proof.
  destruct (parse_color_word_range "color-123" eq_refl) as [H1 _].
  destruct (parse_color_word_range "colorful" eq_refl) as [_ [H2|(i & Hi & _)]].
  - split; [exact H1|exact H2].
  - discriminate Hi.
Defined.

(** X13. For a string that does not begin with white space, a sign, a digit
    or the word color, [parse_color] returns the color of the table when
    the string is one of the eight color names as they are written, and -2
    for every other string. *)
Theorem parse_color_names :
  forall name : string,
    match name with
    | String c _ =>
        isspace c = false /\ isdigit c = false /\
        Ascii.eqb c "-" = false /\ Ascii.eqb c "+" = false
    | EmptyString => True
    end ->
    str_starts_with name "color" = false ->
    (forall color n, In (color, n) colors_map ->
                     (parse_color name = color <-> name = n)) /\
    (parse_color name = -2 <->
     forall color n, In (color, n) colors_map -> name <> n).
Proof.
  intros name Hword Hcolor.
  assert (Hlook : parse_color name = map_lookup colors_map name (-2)).
  { unfold parse_color.
    assert (Hd : forall i, sscanf_d name <> IntValue i).
    { destruct name as [|c rest]; [done|].
      destruct Hword as (H1 & H2 & H3 & H4).
      by rewrite sscanf_d_word. }
    assert (Hc : forall i, sscanf_color3d name <> IntValue i).
    { clear Hd Hword. unfold sscanf_color3d. intros i.
      revert Hcolor. generalize "color"%string as lit.
      generalize (scan_d (Some 3%nat)) as k.
      intros k lit. revert name. induction lit as [|l lit IH]; intros name;
        [discriminate|].
      cbn [str_starts_with scan_literal].
      destruct name as [|c rest]; [done|].
      destruct (Ascii.eqb c l); [|done]. cbn [andb]. apply IH. }
    destruct (sscanf_d name) as [| |i] eqn:E1; [| |by destruct (Hd i)];
      destruct (sscanf_color3d name) as [| |j] eqn:E2; try done;
      by destruct (Hc j). }
  rewrite Hlook. unfold colors_map, map_lookup, str_eq.
  unfold COLOR_BLACK, COLOR_RED, COLOR_GREEN, COLOR_YELLOW, COLOR_BLUE,
    COLOR_MAGENTA, COLOR_CYAN, COLOR_WHITE.
  repeat match goal with
         | |- context [String.eqb ?a name] =>
             let Hne := fresh "Hne" in
             destruct (String.eqb_spec a name) as [<-|Hne]
         end;
    (split;
     [ intros ? ? Hin; cbn [In] in Hin;
       repeat destruct Hin as [[= <- <-]|Hin]; try destruct Hin;
       split; intros Heq; try reflexivity; try discriminate Heq; congruence
     | split;
       [ intros HK ? ? Hin; try discriminate HK; cbn [In] in Hin;
         repeat destruct Hin as [[= <- <-]|Hin]; try destruct Hin; congruence
       | intros Hall; try reflexivity; exfalso;
         match goal with
         | |- False =>
             first [ apply (Hall 0 "black"%string); [cbn; tauto|reflexivity]
                   | apply (Hall 1 "red"%string); [cbn; tauto|reflexivity]
                   | apply (Hall 2 "green"%string); [cbn; tauto|reflexivity]
                   | apply (Hall 3 "yellow"%string); [cbn; tauto|reflexivity]
                   | apply (Hall 4 "blue"%string); [cbn; tauto|reflexivity]
                   | apply (Hall 5 "magenta"%string); [cbn; tauto|reflexivity]
                   | apply (Hall 6 "cyan"%string); [cbn; tauto|reflexivity]
                   | apply (Hall 7 "white"%string); [cbn; tauto|reflexivity] ]
         end ] ]).
Qed.

Lemma parse_color_names_witness :
  parse_color "magenta" = COLOR_MAGENTA /\ parse_color "Red" = -2.
Proof.
  destruct (parse_color_names "magenta" ltac:(by vm_compute) eq_refl)
    as [H1 _].
  destruct (parse_color_names "Red" ltac:(by vm_compute) eq_refl) as [_ H2].
  split.
  - apply (H1 COLOR_MAGENTA "magenta"%string); [|reflexivity].
    do 5 right. by left.
  - apply H2. intros color n Hin. cbn [colors_map In] in Hin.
    repeat destruct Hin as [[= <- <-]|Hin]; try destruct Hin; discriminate.
Defined.

(** ** Quotes around a value *)

Lemma last_char_append s c :
  last_char (s +:+ String c EmptyString) = Some c.
Proof.
  induction s as [|a s IH]; [done|].
  cbn [String.append last_char]. rewrite IH.
  by destruct (s +:+ String c EmptyString) eqn:E;
    [destruct s; discriminate E|].
Qed.

Lemma last_char_some c s : last_char (String c s) <> None.
Proof.
  revert c; induction s as [|a s IH]; intros c; [done|].
  change (last_char (String c (String a s))) with (last_char (String a s)).
  apply IH.
Qed.

Lemma last_char_cons a s :
  s <> EmptyString -> last_char (String a s) = last_char s.
Proof. by destruct s. Qed.

Lemma strncpy_append s t :
  strncpy (String.length s) (s +:+ t) = s.
Proof.
  induction s as [|a s IH]; cbn [String.length String.append strncpy].
  - by destruct t.
  - by rewrite IH.
Qed.

(** What [strncpy] copies of a string with its last character is the
    string before that character. *)
Lemma strncpy_but_last rest n c :
  String.length rest = S n ->
  last_char rest = Some c ->
  rest = strncpy n rest +:+ String c EmptyString.
Proof.
  intros Hlen Hlast.
  destruct (last_char_snoc _ _ Hlast) as [p0 ->].
  rewrite length_append in Hlen. cbn in Hlen.
  replace n with (String.length p0) by lia.
  by rewrite strncpy_append.
Qed.

(** X14. Of a string in single or in double quotes, [strip_quotes] leaves
    what is between the quotes, whatever that is, also nothing or more
    quotes. *)
Theorem strip_quotes_quoted :
  forall (q : ascii) (inner : string),
    q = quote \/ q = dquote ->
    Z.of_nat (String.length inner) + 2 <= INT_MAX ->
    strip_quotes (String q (inner +:+ String q EmptyString)) = Some inner.
Proof.
  intros q inner Hq Hlen. unfold strip_quotes.
  rewrite length_append. cbn [String.length].
  rewrite (proj2 (Z.ltb_ge _ _)) by (unfold INT_MAX in *; lia).
  rewrite last_char_cons by (by destruct inner).
  rewrite last_char_append, Ascii.eqb_refl.
  assert (Hfound : strchr_found quotes q = true)
    by (by destruct Hq as [-> | ->]).
  rewrite Hfound. cbn [andb].
  rewrite (proj2 (Z.ltb_ge _ _)) by (unfold INT_MAX in *; lia).
  replace (String.length inner + 1)%nat with (S (String.length inner)) by lia.
  by rewrite strncpy_append.
Qed.

Lemma strip_quotes_quoted_witness :
  strip_quotes (String dquote ("a 'b'" +:+ String dquote EmptyString))
  = Some "a 'b'"%string.
Proof.
  apply (strip_quotes_quoted dquote "a 'b'"); [by right|].
  unfold INT_MAX. cbn. lia.
Defined.

(** X15. A string that is not empty and does not begin with a quote
    character, or whose last character is not its first, is left by
    [strip_quotes] as it is: a quote on one side only, or two different
    quotes, stay. *)
Theorem strip_quotes_plain :
  forall (c : ascii) (rest : string),
    Z.of_nat (String.length rest) <= INT_MAX ->
    strchr_found quotes c = false \/ last_char (String c rest) <> Some c ->
    strip_quotes (String c rest) = Some (String c rest).
Proof.
  intros c rest Hlen Hplain. unfold strip_quotes.
  rewrite (proj2 (Z.ltb_ge _ _)) by (unfold INT_MAX in *; lia).
  destruct Hplain as [Hq|Hlast].
  - by rewrite Hq, andb_false_r.
  - destruct (last_char (String c rest)) as [l|] eqn:El.
    + destruct (Ascii.eqb_spec c l) as [->|Hne]; [done|]. done.
    + by destruct (last_char_some c rest).
Qed.

Lemma strip_quotes_plain_witness :
  strip_quotes "'one side" = Some "'one side"%string.
Proof.
  apply (strip_quotes_plain "'" "one side").
  - unfold INT_MAX. cbn. lia.
  - right. discriminate.
Defined.

(** X16. For a string of at most [INT_MAX] characters, what [strip_quotes]
    returns is the string it was given, or that string without its first
    and its last character, which then are the same quote character; and it
    has no defined result exactly for the empty string and for a string of
    a single quote character. *)
Theorem strip_quotes_result :
  forall str : string,
    Z.of_nat (String.length str) <= INT_MAX ->
    (forall r, strip_quotes str = Some r ->
               r = str \/
               exists q, strchr_found quotes q = true /\
                         str = String q (r +:+ String q EmptyString)) /\
    (strip_quotes str = None <->
     str = EmptyString \/
     exists q, strchr_found quotes q = true /\ str = String q EmptyString).
Proof.
  intros str Hlen. destruct str as [|c rest].
  { split; [discriminate|]. split; auto. }
  unfold strip_quotes. cbn [String.length] in Hlen.
  rewrite (proj2 (Z.ltb_ge _ _)) by (unfold INT_MAX in *; lia).
  rewrite (proj2 (Z.ltb_ge INT_MAX (Z.of_nat (String.length rest) + 1)))
    by (unfold INT_MAX in *; lia).
  destruct (last_char (String c rest)) as [l|] eqn:El;
    [|by destruct (last_char_some c rest)].
  destruct (Ascii.eqb_spec c l) as [<-|Hne]; cbn [andb].
  2:{ split; [intros r [= <-]; by left|]. split; [discriminate|].
      intros [H|(q & _ & H)]; [discriminate|].
      injection H as -> ->. by injection El as ->. }
  destruct (strchr_found quotes c) eqn:Eq.
  2:{ split; [intros r [= <-]; by left|]. split; [discriminate|].
      intros [H|(q & Hq & H)]; [discriminate|].
      injection H as -> ->. congruence. }
  destruct (String.length rest) as [|n] eqn:Elen.
  - split; [discriminate|]. split; [|done]. intros _. right.
    exists c. split; [done|]. by destruct rest.
  - split.
    + intros r [= <-]. right. exists c. split; [done|]. f_equal.
      apply strncpy_but_last; [done|].
      rewrite <- El. symmetry. apply last_char_cons. by destruct rest.
    + split; [discriminate|].
      intros [H|(q & _ & H)]; [discriminate|].
      injection H as _ ->. discriminate Elen.
Qed.

Lemma strip_quotes_result_witness :
  strip_quotes "'" = None /\
  ("a" = "'a'"%string \/
   exists q, strchr_found quotes q = true /\
             "'a'"%string = String q ("a" +:+ String q EmptyString)).
Proof.
  destruct (strip_quotes_result "'" ltac:(unfold INT_MAX; cbn; lia)) as [_ H1].
  destruct (strip_quotes_result "'a'" ltac:(unfold INT_MAX; cbn; lia))
    as [H2 _].
  split.
  - apply H1. right. by exists "'"%char.
  - exact (H2 "a"%string eq_refl).
Defined.

(** ** Fields of a task *)

(** X17. [parse_task_fields_name] gives the field of a name exactly when
    the string is that name as it is written, and [TASK_UNKNOWN] exactly
    for the strings that are none of the eleven names. *)
Theorem parse_task_fields_name_exact :
  forall (name : string) (f : Task.task_fields),
    Task.parse_task_fields_name name = f <->
    match Task.field_name f with
    | Some n => name = n
    | None => forall g n, Task.field_name g = Some n -> name <> n
    end.
Proof.
  intros name f. unfold Task.parse_task_fields_name, Task.strcmp_eq.
  repeat match goal with
         | |- context [String.eqb ?a name] =>
             let Hne := fresh "Hne" in
             destruct (String.eqb_spec a name) as [<-|Hne]
         end;
    (split;
     [ intros <-; cbn [Task.field_name]; try reflexivity;
       intros g n Hg; destruct g; cbn [Task.field_name] in Hg;
       try discriminate Hg; injection Hg as <-; congruence
     | destruct f; cbn [Task.field_name]; intros H;
       try reflexivity; try discriminate H; try congruence;
       exfalso;
       first [ by apply (H Task.TASK_INDEX "id"%string)
             | by apply (H Task.TASK_UUID "uuid"%string)
             | by apply (H Task.TASK_TAGS "tags"%string)
             | by apply (H Task.TASK_START "start"%string)
             | by apply (H Task.TASK_END "end"%string)
             | by apply (H Task.TASK_ENTRY "entry"%string)
             | by apply (H Task.TASK_DUE "due"%string)
             | by apply (H Task.TASK_PROJECT "project"%string)
             | by apply (H Task.TASK_PRIORITY "priority"%string)
             | by apply (H Task.TASK_DESCRIPTION "description"%string)
             | by apply (H Task.TASK_URGENCY "urgency"%string) ] ]).
Qed.

Section TaskFacts.

Variable float : Type.
Variable float_zero : float.
Variable sscanf_f : string -> option float.
Variable strtotime : string -> Z.

#[local] Abbreviation assign := (Task.assign float sscanf_f strtotime).
#[local] Abbreviation parse_fields :=
  (Task.parse_fields float float_zero sscanf_f strtotime).

Lemma parse_fields_snoc fields field value :
  parse_fields (fields ++ [(field, value)])
  = assign (parse_fields fields) field value.
Proof. unfold Task.parse_fields. by rewrite fold_left_app. Qed.

Lemma last_value_snoc name fields field value :
  Task.last_value name (fields ++ [(field, value)])
  = if String.eqb name field then Some value
    else Task.last_value name fields.
Proof.
  unfold Task.last_value. rewrite rev_unit. cbn [List.find fst snd].
  by destruct (String.eqb name field).
Qed.

(** What one turn of the loop does to the four strings and the priority. *)
Lemma assign_strings t field value :
  Task.description float (assign t field value)
  = (if String.eqb "description" field then Some value
     else Task.description float t) /\
  Task.project float (assign t field value)
  = (if String.eqb "project" field then Some value
     else Task.project float t) /\
  Task.tags float (assign t field value)
  = (if String.eqb "tags" field then Some value else Task.tags float t) /\
  Task.uuid float (assign t field value)
  = (if String.eqb "uuid" field then Some value else Task.uuid float t) /\
  Task.priority float (assign t field value)
  = (if String.eqb "priority" field then Task.first_char value
     else Task.priority float t).
Proof.
  unfold Task.assign, Task.parse_task_fields_name, Task.strcmp_eq.
  repeat match goal with
         | |- context [String.eqb ?a field] =>
             let Hne := fresh "Hne" in
             destruct (String.eqb_spec a field) as [<-|Hne]
         end; repeat split; reflexivity.
Qed.

End TaskFacts.

(** X18. A field whose name [parse_task_fields_name] does not know changes
    nothing: the task made of a list of fields is the task made of the
    list without that field, wherever it stands. *)
Theorem parse_fields_skips_unknown :
  forall (float : Type) (float_zero : float)
         (sscanf_f : string -> option float) (strtotime : string -> Z)
         (before after : list (string * string)) (name value : string),
    Task.parse_task_fields_name name = Task.TASK_UNKNOWN ->
    Task.parse_fields float float_zero sscanf_f strtotime
      (before ++ (name, value) :: after)
    = Task.parse_fields float float_zero sscanf_f strtotime (before ++ after).
Proof.
  intros float float_zero sscanf_f strtotime before after name value H.
  unfold Task.parse_fields. rewrite !fold_left_app. cbn [fold_left fst snd].
  unfold Task.assign at 2. by rewrite H.
Qed.

Lemma parse_fields_skips_unknown_witness :
  Task.parse_fields Z 0 (fun _ => None) (fun _ => 0)
    [("description", "buy milk"); ("status", "pending"); ("id", "7")]%string
  = Task.parse_fields Z 0 (fun _ => None) (fun _ => 0)
      [("description", "buy milk"); ("id", "7")]%string.
Proof.
  exact (parse_fields_skips_unknown Z 0 (fun _ => None) (fun _ => 0)
           [("description", "buy milk")]%string [("id", "7")]%string
           "status" "pending" eq_refl).
Defined.

(** X19. Of a field given more than once the last value counts: the
    description, the project, the tags and the uuid of the task that
    [parse_task] makes are the values of the last fields of these names,
    NULL when there is none, and its priority is the first character of
    the value of the last priority field, the terminator when that value is
    empty or there is no such field. *)
Theorem parse_fields_last_value :
  forall (float : Type) (float_zero : float)
         (sscanf_f : string -> option float) (strtotime : string -> Z)
         (fields : list (string * string)),
    let t := Task.parse_fields float float_zero sscanf_f strtotime fields in
    Task.task_get_description float t = Task.last_value "description" fields /\
    Task.task_get_project float t = Task.last_value "project" fields /\
    Task.task_get_tags float t = Task.last_value "tags" fields /\
    Task.task_get_uuid float t = Task.last_value "uuid" fields /\
    Task.task_get_priority float t
    = match Task.last_value "priority" fields with
      | Some value => Task.first_char value
      | None => zero
      end.
Proof.
  intros float float_zero sscanf_f strtotime fields. cbv zeta.
  unfold Task.task_get_description, Task.task_get_project, Task.task_get_tags,
    Task.task_get_uuid, Task.task_get_priority.
  induction fields as [|[field value] fields IH] using rev_ind.
  - repeat split.
  - destruct IH as (H1 & H2 & H3 & H4 & H5).
    rewrite parse_fields_snoc, !last_value_snoc.
    destruct (assign_strings float sscanf_f strtotime
                (Task.parse_fields float float_zero sscanf_f strtotime fields)
                field value) as (A1 & A2 & A3 & A4 & A5).
    rewrite A1, A2, A3, A4, A5, H1, H2, H3, H4, H5.
    repeat split;
      match goal with
      | |- context [String.eqb ?a field] => by destruct (String.eqb a field)
      end.
Qed.

(** ** Which pair is given *)



(** X21. [add_color_rule] on a ready pool, with colors from -1 on, keeps
    the contents of the pairs in use apart: when no two pairs in use from
    1 on hold the same content before the call, none do after it, whatever
    it returns. *)
Theorem add_color_rule_keeps_contents_unique :
  forall (COLOR_PAIRS : Z) (color_ok beyond : Z -> bool) (st : colors)
         (object : color_object) (rule : option string) (fg bg ret : Z)
         (st' : colors),
    pool_ready COLOR_PAIRS st ->
    -1 <= fg -> -1 <= bg ->
    contents_unique COLOR_PAIRS beyond st ->
    add_color_rule COLOR_PAIRS color_ok beyond st object rule fg bg
    = Some (ret, st') ->
    contents_unique COLOR_PAIRS beyond st'.
Proof.
  intros CP ok beyond st object rule fg bg ret st' Hr Hfg Hbg Hu H.
  destruct (add_color_rule_shape CP ok beyond st object rule fg bg ret st' H)
    as (p & st1 & Hf & [(_ & _ & ->)|(_ & _ & _ & Hused & Hscr & _)]); [done|].
  pose proof (find_add_pair_unique CP ok beyond st fg bg p st1 Hr Hfg Hbg Hu
                Hf) as Hu1.
  intros a b f g Ha Hb (ua & Hua & Hra) (ub & Hub & Hrb) Hha Hhb.
  rewrite Hscr in Hha, Hhb. rewrite Hused in Hua, Hub.
  apply (Hu1 a b f g Ha Hb); [by exists ua|by exists ub|done|done].
Qed.

Lemma started8_unique : contents_unique 8 zero_heap started8.
Proof.
  intros p q fg bg Hp Hq _ _ H1 H2.
  apply holds_content_true in H1, H2.
  assert (Hc : p = 1 \/ p = 2 \/ p = 3 \/ p = 4 \/ p = 5 \/ p = 6 \/ p = 7)
    by lia.
  assert (Hd : q = 1 \/ q = 2 \/ q = 3 \/ q = 4 \/ q = 5 \/ q = 6 \/ q = 7)
    by lia.
  repeat destruct Hc as [->|Hc]; try subst p;
    repeat destruct Hd as [->|Hd]; try subst q;
    try reflexivity; vm_compute in H1, H2; congruence.
Qed.

Lemma add_color_rule_keeps_contents_unique_witness :
  exists ret st',
    add_color_rule 8 (legal_color 8) zero_heap started8 OBJECT_TASK
      (Some "~t 'x'"%string) COLOR_WHITE COLOR_BLUE = Some (ret, st') /\
    contents_unique 8 zero_heap st'.
Proof.
  destruct (add_color_rule 8 (legal_color 8) zero_heap started8 OBJECT_TASK
              (Some "~t 'x'"%string) COLOR_WHITE COLOR_BLUE)
    as [[ret st']|] eqn:E; [|by vm_compute in E].
  exists ret, st'. split; [done|].
  exact (add_color_rule_keeps_contents_unique 8 (legal_color 8) zero_heap
           started8 OBJECT_TASK (Some "~t 'x'"%string) COLOR_WHITE COLOR_BLUE
           ret st' started8_ready ltac:(by vm_compute) ltac:(by vm_compute)
           started8_unique E).
Defined.

(** ** The index of a task *)

Section IndexFacts.

Variable float : Type.
Variable float_zero : float.
Variable sscanf_f : string -> option float.
Variable strtotime : string -> Z.

Lemma assign_index t field value :
  Task.index float (Task.assign float sscanf_f strtotime t field value)
  = if String.eqb "id" field then Task.scan_index value (Task.index float t)
    else Task.index float t.
Proof.
  unfold Task.assign, Task.parse_task_fields_name, Task.strcmp_eq.
  repeat match goal with
         | |- context [String.eqb ?a field] =>
             let Hne := fresh "Hne" in
             destruct (String.eqb_spec a field) as [<-|Hne]
         end; reflexivity.
Qed.

Lemma scan_index_range value index0 :
  0 <= index0 < 65536 -> 0 <= Task.scan_index value index0 < 65536.
Proof.
  intros H. unfold Task.scan_index.
  destruct (scan_d None value) as [| |i]; try done.
  apply Z.mod_pos_bound. lia.
Qed.

End IndexFacts.

(** X22. The index of the task that [parse_task] makes is a number from 0
    to 65535, whatever the fields hold; and when the last field is an id
    whose value begins with a numeral of a number below 65536, the index
    is that number. *)
Theorem parse_fields_index :
  forall (float : Type) (float_zero : float)
         (sscanf_f : string -> option float) (strtotime : string -> Z)
         (fields : list (string * string)),
    0 <= Task.task_get_index float
           (Task.parse_fields float float_zero sscanf_f strtotime fields)
      < 65536 /\
    (forall ds rest,
        ds <> [] ->
        all_digits ds = true ->
        starts_with_digit rest = false ->
        digits_number ds 0 < 65536 ->
        Task.task_get_index float
          (Task.parse_fields float float_zero sscanf_f strtotime
             (fields ++ [("id"%string, digits_text ds +:+ rest)]))
        = digits_number ds 0).
Proof.
  intros float float_zero sscanf_f strtotime fields.
  unfold Task.task_get_index.
  assert (Hrange : forall l,
             0 <= Task.index float
                    (Task.parse_fields float float_zero sscanf_f strtotime l)
               < 65536).
  { intros l. induction l as [|[field value] l IH] using rev_ind.
    - cbn. lia.
    - rewrite parse_fields_snoc, assign_index.
      destruct (String.eqb "id" field); [|done].
      by apply scan_index_range. }
  split; [apply Hrange|].
  intros ds rest Hne Hd Hr Hsmall.
  rewrite parse_fields_snoc, assign_index. cbn [String.eqb Ascii.eqb Bool.eqb].
  unfold Task.scan_index.
  pose proof (digits_number_bound ds 0 Hd ltac:(lia)) as [Hpos _].
  pose proof (sscanf_d_numeral false ds rest Hne Hd Hr) as Hscan.
  cbn [numeral_text numeral_number] in Hscan. unfold sscanf_d in Hscan.
  rewrite Hscan by (unfold INT_MIN, INT_MAX; lia).
  apply Z.mod_small. lia.
Qed.

Lemma parse_fields_index_witness :
  Task.task_get_index Z
    (Task.parse_fields Z 0 (fun _ => None) (fun _ => 0)
       ([("id", "x")]%string ++ [("id"%string, digits_text [4; 2]%nat +:+ "")]))
  = 42.
Proof.
  destruct (parse_fields_index Z 0 (fun _ => None) (fun _ => 0)
              [("id", "x")]%string) as [_ H].
  exact (H [4; 2]%nat EmptyString ltac:(discriminate) eq_refl eq_refl
           ltac:(cbn; lia)).
Defined.

(** ** When the pool refuses *)



(** ** Pairs in a row *)

Section Dense.

Variable COLOR_PAIRS : Z.
Variable color_ok : Z -> bool.
Variable beyond : Z -> bool.

Hypothesis pairs_small : COLOR_PAIRS <= SHRT_MAX.

#[local] Abbreviation find_add := (find_add_pair COLOR_PAIRS color_ok beyond).
#[local] Abbreviation dense := (dense_pool COLOR_PAIRS beyond).

Lemma dense_pool_with_rules st contents rules :
  dense st contents -> dense (with_rules st rules) contents.
Proof.
  intros ((u & Hu & Hl) & Hlen & Huse & Hc & Hnd).
  split; [by exists u|]. split; [done|]. split; [|by split].
  intros q Hq. rewrite <- (Huse q Hq). unfold pair_in_use.
  by cbn [with_rules pairs_used].
Qed.

(** In a row a pair from 1 on is marked exactly when it is one of the
    row, and then holds the content of its position. *)
Lemma dense_pool_read st contents used q :
  dense st contents ->
  pairs_used st = Some used ->
  1 <= q < COLOR_PAIRS ->
  read_used beyond used q = true <-> q <= Z.of_nat (length contents).
Proof.
  intros (_ & _ & Huse & _) Hu Hq. rewrite <- (Huse q) by lia.
  unfold pair_in_use. rewrite Hu. split; [eauto|].
  by intros (u & [= <-] & Hread).
Qed.

Lemma dense_pool_content st contents q :
  dense st contents ->
  1 <= q <= Z.of_nat (length contents) ->
  exists c, contents !! Z.to_nat (q - 1) = Some c /\
            pair_content COLOR_PAIRS (scr_pairs st) q = Some c.
Proof.
  intros (_ & _ & _ & Hc & _) Hq.
  destruct (contents !! Z.to_nat (q - 1)) as [c|] eqn:Ec.
  - exists c. split; [done|]. rewrite <- (Hc _ _ Ec). f_equal. lia.
  - apply lookup_ge_None in Ec. lia.
Qed.

(** A content that is in the row is found where it is. *)
Lemma dense_pool_finds st contents j fg bg :
  dense st contents ->
  contents !! j = Some (fg, bg) ->
  find_add st fg bg = Some (Z.of_nat j + 1, st).
Proof.
  intros Hd Hj.
  pose proof (lookup_lt_Some _ _ _ Hj) as Hjlt.
  pose proof Hd as ((used & Hu & Hl) & Hlen & _ & Hc & Hnd).
  assert (Hhere : holds_content COLOR_PAIRS (scr_pairs st) (Z.of_nat j + 1)
                    fg bg = true)
    by (apply holds_content_true; by apply Hc).
  unfold find_add_pair. rewrite Hu.
  destruct (find_pair_total COLOR_PAIRS beyond pairs_small
              (S (Z.to_nat COLOR_PAIRS)) used (scr_pairs st) fg bg 1 (-1))
    as [res Hres]; [lia|lia|].
  rewrite Hres.
  pose proof (find_pair_spec COLOR_PAIRS beyond pairs_small _ _ _ _ _ 1 _ _
                ltac:(lia) Hres) as Hspec.
  destruct res as [p|free].
  - destruct Hspec as (Hr & Hread & Hh & _).
    apply (dense_pool_read _ _ _ _ Hd Hu) in Hread; [|lia].
    destruct (dense_pool_content _ _ p Hd ltac:(lia)) as (c & Ec & Hpc).
    apply holds_content_true in Hh. rewrite Hh in Hpc. injection Hpc as <-.
    pose proof (NoDup_lookup _ _ _ _ Hnd Ec Hj).
    do 3 f_equal. lia.
  - exfalso. destruct Hspec as (Hno & _).
    rewrite (Hno (Z.of_nat j + 1)) in Hhere; [discriminate|lia|].
    apply (dense_pool_read _ _ _ _ Hd Hu); lia.
Qed.

(** A content of colors from -1 on that is not in the row gets the next
    pair, when there is one and curses takes the colors. *)
Lemma dense_pool_takes st contents fg bg :
  dense st contents ->
  ~ In (fg, bg) contents ->
  Z.of_nat (length contents) + 1 < COLOR_PAIRS ->
  -1 <= fg -> -1 <= bg ->
  color_ok fg = true -> color_ok bg = true ->
  exists st',
    find_add st fg bg = Some (Z.of_nat (length contents) + 1, st') /\
    color_rules st' = color_rules st /\
    dense st' (contents ++ [(fg, bg)]).
Proof.
  intros Hd Hnew Hroom Hlfg Hlbg Hfg Hbg.
  pose proof Hd as ((used & Hu & Hl) & Hlen & Huse & Hc & Hnd).
  set (n := Z.of_nat (length contents)) in *.
  unfold find_add_pair. rewrite Hu.
  destruct (find_pair_total COLOR_PAIRS beyond pairs_small
              (S (Z.to_nat COLOR_PAIRS)) used (scr_pairs st) fg bg 1 (-1))
    as [res Hres]; [lia|lia|].
  rewrite Hres.
  pose proof (find_pair_spec COLOR_PAIRS beyond pairs_small _ _ _ _ _ 1 _ _
                ltac:(lia) Hres) as Hspec.
  destruct res as [p|free].
  { exfalso. destruct Hspec as (Hr & Hread & Hh & _).
    apply (dense_pool_read _ _ _ _ Hd Hu) in Hread; [|lia].
    destruct (dense_pool_content _ _ p Hd ltac:(lia)) as (c & Ec & Hpc).
    apply holds_content_true in Hh. rewrite Hh in Hpc. injection Hpc as <-.
    apply Hnew, list_elem_of_In. by eapply list_elem_of_lookup_2. }
  destruct Hspec as (_ & _ & Hfree).
  assert (Hnext : read_used beyond used (n + 1) <> true).
  { intros Hread. apply (dense_pool_read _ _ _ _ Hd Hu) in Hread; lia. }
  destruct (Hfree eq_refl) as [[-> Hall]|(Hr & Hun & Hbefore)].
  { destruct Hnext. apply Hall. lia. }
  assert (free = n + 1) as ->.
  { destruct (Z.lt_trichotomy free (n + 1)) as [Hlt|[->|Hgt]]; [|done|].
    - assert (read_used beyond used free = true)
        by (apply (dense_pool_read _ _ _ _ Hd Hu); lia).
      congruence.
    - destruct Hnext. apply Hbefore. lia. }
  rewrite add_color_pair_asked, Hun by lia.
  unfold init_pair. rewrite Hfg, Hbg.
  rewrite (stored_color_same fg Hlfg), (stored_color_same bg Hlbg).
  replace ((1 <=? n + 1) && (n + 1 <? COLOR_PAIRS)) with true by lia.
  cbn [andb].
  eexists. split; [reflexivity|]. split; [done|].
  split.
  { exists (<[Z.to_nat (n + 1) := true]> used).
    split; [done|]. by rewrite length_insert. }
  rewrite length_app. cbn [length].
  split; [lia|]. split; [|split].
  - intros q Hq. unfold pair_in_use. cbn [with_pool pairs_used].
    destruct (Z.eq_dec q (n + 1)) as [->|Hne].
    + split; [lia|]. intros _. eexists. split; [reflexivity|].
      apply read_used_insert_eq. lia.
    + split.
      * intros (u & [= <-] & Hread).
        rewrite read_used_insert_ne in Hread by lia.
        assert (Hq' : pair_in_use beyond st q) by (by exists used).
        apply Huse in Hq'; lia.
      * intros Hle. assert (Hq' : pair_in_use beyond st q) by (apply Huse; lia).
        destruct Hq' as (u & Hu' & Hread). rewrite Hu in Hu'.
        injection Hu' as <-.
        eexists. split; [reflexivity|].
        by rewrite read_used_insert_ne by lia.
  - intros j c Hj. cbn [with_pool scr_pairs].
    apply lookup_app_Some in Hj as [Hj|[Hge Hj]].
    + pose proof (lookup_lt_Some _ _ _ Hj).
      unfold pair_content. rewrite lookup_insert_ne by lia.
      apply (Hc _ _ Hj).
    + destruct (j - length contents)%nat as [|k] eqn:Ek; [|by destruct k].
      injection Hj as <-.
      replace (Z.of_nat j + 1) with (n + 1) by lia.
      apply pair_content_insert. lia.
  - apply NoDup_app. split; [done|]. split; [|apply NoDup_singleton].
    intros x Hx Hx'. apply list_elem_of_singleton in Hx' as ->.
    apply Hnew. by apply list_elem_of_In.
Qed.

End Dense.

(** The pool [init_colors] allocates is a row of no pairs. *)
Lemma dense_pool_start COLOR_PAIRS beyond st scr :
  1 <= COLOR_PAIRS ->
  dense_pool COLOR_PAIRS beyond
    (with_pool st (<[0%nat := true]> (replicate (Z.to_nat COLOR_PAIRS) false))
       scr) [].
Proof.
  intros H.
  assert (Hlen : Z.of_nat (length (<[0%nat := true]>
                   (replicate (Z.to_nat COLOR_PAIRS) false))) = COLOR_PAIRS).
  { rewrite length_insert, length_replicate. lia. }
  split; [eexists; split; [reflexivity|done]|].
  cbn [length]. split; [lia|]. split; [|split].
  - intros q Hq. unfold pair_in_use. cbn [with_pool pairs_used].
    split.
    + intros (u & [= <-] & Hread).
      destruct (Z.eq_dec q 0) as [->|Hne]; [lia|].
      exfalso. unfold read_used in Hread.
      replace (q <? 0) with false in Hread by lia.
      rewrite list_lookup_insert_ne in Hread by lia.
      rewrite lookup_replicate_2 in Hread by lia. discriminate.
    + intros Hq0. assert (q = 0) as -> by lia.
      eexists. split; [reflexivity|].
      unfold read_used. cbn [Z.ltb Z.compare Z.to_nat].
      rewrite list_lookup_insert_eq; [done|].
      rewrite length_replicate. lia.
  - by intros j c Hj.
  - apply NoDup_nil_2.
Qed.

(** X24. A pool is a row when pair 0 and the pairs 1 to n are in use, no
    other pair below [COLOR_PAIRS] is, and the pairs 1 to n hold the
    contents of a list without repetition, in order. On a row, with
    [COLOR_PAIRS] in the range of [short], [find_add_pair(fg, bg)] gives
    pair j+1 and changes nothing when the content stands at position j of
    the list; and when the content is not in the list, both colors are at
    least -1, pair n+1 is below [COLOR_PAIRS] and curses takes both colors,
    it gives pair n+1, leaves the rules alone, and the pool is the row of
    the list with the content at its end. *)
Theorem find_add_pair_in_a_row :
  forall (COLOR_PAIRS : Z) (color_ok beyond : Z -> bool) (st : colors)
         (contents : list (Z * Z)) (fg bg : Z),
    COLOR_PAIRS <= SHRT_MAX ->
    dense_pool COLOR_PAIRS beyond st contents ->
    (forall j, contents !! j = Some (fg, bg) ->
               find_add_pair COLOR_PAIRS color_ok beyond st fg bg
               = Some (Z.of_nat j + 1, st)) /\
    (~ In (fg, bg) contents ->
     Z.of_nat (length contents) + 1 < COLOR_PAIRS ->
     -1 <= fg -> -1 <= bg ->
     color_ok fg = true -> color_ok bg = true ->
     exists st',
       find_add_pair COLOR_PAIRS color_ok beyond st fg bg
       = Some (Z.of_nat (length contents) + 1, st') /\
       color_rules st' = color_rules st /\
       dense_pool COLOR_PAIRS beyond st' (contents ++ [(fg, bg)])).
Proof.
  intros CP ok beyond st contents fg bg Hs Hd. split.
  - intros j Hj. by eapply dense_pool_finds.
  - intros Hnew Hroom Hlfg Hlbg Hfg Hbg. by apply dense_pool_takes.
Qed.

Lemma find_add_pair_in_a_row_witness :
  exists st',
    find_add_pair 8 (legal_color 8) zero_heap
      (with_pool colors_start (<[0%nat := true]> (replicate (Z.to_nat 8) false)) ∅)
      COLOR_BLUE COLOR_BLACK
    = Some (Z.of_nat (length (@nil (Z * Z))) + 1, st') /\
    color_rules st' = [] /\
    dense_pool 8 zero_heap st' ([] ++ [(COLOR_BLUE, COLOR_BLACK)]).
Proof.
  refine (proj2 (find_add_pair_in_a_row 8 (legal_color 8) zero_heap
                   (with_pool colors_start
                      (<[0%nat := true]> (replicate (Z.to_nat 8) false)) ∅)
                   [] COLOR_BLUE COLOR_BLACK small8
                   (dense_pool_start 8 zero_heap colors_start ∅ _))
            _ _ _ _ _ _).
  - lia.
  - by intros [].
  - cbn [length]. lia.
  - by vm_compute.
  - by vm_compute.
  - reflexivity.
  - reflexivity.
Defined.

(** ** The default rules *)

Section DefaultRules.

Variable COLOR_PAIRS : Z.
Variable color_ok : Z -> bool.
Variable beyond : Z -> bool.

Hypothesis pairs_small : COLOR_PAIRS <= SHRT_MAX.

#[local] Abbreviation add_rule := (add_color_rule COLOR_PAIRS color_ok beyond).
#[local] Abbreviation dense := (dense_pool COLOR_PAIRS beyond).

(** A rule the store does not have, with a content the row does not
    have. *)
Lemma add_color_rule_row_new st contents object rule fg bg :
  dense st contents ->
  (forall r, In r (color_rules st) -> same_rule r object rule = false) ->
  ~ In (fg, bg) contents ->
  Z.of_nat (length contents) + 1 < COLOR_PAIRS ->
  -1 <= fg -> -1 <= bg ->
  color_ok fg = true -> color_ok bg = true ->
  exists st',
    add_rule st object rule fg bg = Some (0, st') /\
    color_rules st'
    = color_rules st
      ++ [new_rule object rule (Z.of_nat (length contents) + 1)] /\
    dense st' (contents ++ [(fg, bg)]).
Proof.
  intros Hd Hno Hnew Hroom Hlfg Hlbg Hfg Hbg.
  destruct (dense_pool_takes _ color_ok _ pairs_small _ _ _ _ Hd Hnew Hroom
              Hlfg Hlbg Hfg Hbg) as (s1 & Hf & _ & Hd1).
  unfold add_color_rule.
  rewrite (add_color_rule_walk_new _ _ _ _ _ _ _ _ _ _ _ Hf ltac:(lia) Hno).
  eexists. split; [reflexivity|]. split; [done|].
  by apply dense_pool_with_rules.
Qed.

(** A rule the store does not have, with a content of the row. *)
Lemma add_color_rule_row_shared st contents object rule fg bg j :
  dense st contents ->
  (forall r, In r (color_rules st) -> same_rule r object rule = false) ->
  contents !! j = Some (fg, bg) ->
  exists st',
    add_rule st object rule fg bg = Some (0, st') /\
    color_rules st'
    = color_rules st ++ [new_rule object rule (Z.of_nat j + 1)] /\
    dense st' contents.
Proof.
  intros Hd Hno Hj.
  pose proof (dense_pool_finds _ color_ok _ pairs_small _ _ _ _ _ Hd Hj) as Hf.
  unfold add_color_rule.
  rewrite (add_color_rule_walk_new _ _ _ _ _ _ _ _ _ _ _ Hf ltac:(lia) Hno).
  eexists. split; [reflexivity|]. split; [done|].
  by apply dense_pool_with_rules.
Qed.

End DefaultRules.

Ltac no_same_rule R :=
  let r := fresh "r" in
  let Hin := fresh "Hin" in
  intros r Hin; rewrite R in Hin; cbn [In app] in Hin;
  repeat (destruct Hin as [<-|Hin]; [reflexivity|]); destruct Hin.

Ltac not_in_row :=
  let Hin := fresh "Hin" in
  intros Hin; cbn [In app] in Hin;
  repeat (destruct Hin as [Hin|Hin]; [discriminate Hin|]); destruct Hin.

(** What [set_default_colors] leaves on an empty row of an empty store
    with room for six pairs. *)
Lemma set_default_colors_row COLOR_PAIRS color_ok beyond s0 :
  7 <= COLOR_PAIRS <= SHRT_MAX ->
  (forall c, -1 <= c <= 7 -> color_ok c = true) ->
  color_rules s0 = [] ->
  dense_pool COLOR_PAIRS beyond s0 [] ->
  exists st',
    set_default_colors COLOR_PAIRS color_ok beyond s0 = Some (0, st') /\
    color_rules st' = default_store /\
    dense_pool COLOR_PAIRS beyond st' default_contents.
Proof.
  set (CP := COLOR_PAIRS). set (ok := color_ok).
  intros [H7 Hs] Hok R0 D0.
  unfold set_default_colors, default_rules. cbn [add_color_rules].
  destruct (add_color_rule_row_new CP ok beyond Hs s0 [] OBJECT_HEADER None
              COLOR_BLUE COLOR_BLACK D0)
    as (s1 & E1 & R1 & D1);
    [no_same_rule R0|not_in_row|cbn [length]; lia
    |by vm_compute|by vm_compute
    |apply Hok; by vm_compute|apply Hok; by vm_compute|].
  rewrite E1. rewrite R0 in R1. cbn [app length] in R1, D1.
  destruct (add_color_rule_row_new CP ok beyond Hs s1 _ OBJECT_TASK None
              (-1) (-1) D1)
    as (s2 & E2 & R2 & D2);
    [no_same_rule R1|not_in_row|cbn [length]; lia
    |by vm_compute|by vm_compute
    |apply Hok; by vm_compute|apply Hok; by vm_compute|].
  rewrite E2. rewrite R1 in R2. cbn [app length] in R2, D2.
  destruct (add_color_rule_row_new CP ok beyond Hs s2 _ OBJECT_TASK
              (Some "~r '[Mm]'"%string) COLOR_YELLOW (-1) D2)
    as (s3 & E3 & R3 & D3);
    [no_same_rule R2|not_in_row|cbn [length]; lia
    |by vm_compute|by vm_compute
    |apply Hok; by vm_compute|apply Hok; by vm_compute|].
  rewrite E3. rewrite R2 in R3. cbn [app length] in R3, D3.
  destruct (add_color_rule_row_new CP ok beyond Hs s3 _ OBJECT_TASK
              (Some "~d '\?'"%string) COLOR_GREEN (-1) D3)
    as (s4 & E4 & R4 & D4);
    [no_same_rule R3|not_in_row|cbn [length]; lia
    |by vm_compute|by vm_compute
    |apply Hok; by vm_compute|apply Hok; by vm_compute|].
  rewrite E4. rewrite R3 in R4. cbn [app length] in R4, D4.
  destruct (add_color_rule_row_new CP ok beyond Hs s4 _ OBJECT_TASK
              (Some "~p 'task*'"%string) COLOR_RED (-1) D4)
    as (s5 & E5 & R5 & D5);
    [no_same_rule R4|not_in_row|cbn [length]; lia
    |by vm_compute|by vm_compute
    |apply Hok; by vm_compute|apply Hok; by vm_compute|].
  rewrite E5. rewrite R4 in R5. cbn [app length] in R5, D5.
  destruct (add_color_rule_row_new CP ok beyond Hs s5 _ OBJECT_TASK
              (Some "~S"%string) COLOR_CYAN COLOR_BLACK D5)
    as (s6 & E6 & R6 & D6);
    [no_same_rule R5|not_in_row|cbn [length]; lia
    |by vm_compute|by vm_compute
    |apply Hok; by vm_compute|apply Hok; by vm_compute|].
  rewrite E6. rewrite R5 in R6. cbn [app length] in R6, D6.
  destruct (add_color_rule_row_shared CP ok beyond Hs s6 _ OBJECT_ERROR None
              COLOR_RED (-1) 4%nat D6)
    as (s7 & E7 & R7 & D7); [no_same_rule R6|reflexivity|].
  rewrite E7. rewrite R6 in R7. cbn [app] in R7.
  exists s7. split; [reflexivity|]. split; [exact R7|exact D7].
Qed.

(** X25. On a terminal with at least seven color pairs, [COLOR_PAIRS] in
    the range of [short], on which curses takes the colors -1 to 7 and
    answers yes three times, [init_colors()] on an empty rule list returns
    0 and leaves the seven default rules in the order of
    [set_default_colors], with the pairs 1 to 6 for the first six and pair
    5 again for the error rule, whose content the rule of the project
    pattern has already; the pool is then the row of the six contents. *)
Theorem init_colors_default_store :
  forall (COLOR_PAIRS : Z) (color_ok beyond : Z -> bool) (st : colors),
    7 <= COLOR_PAIRS <= SHRT_MAX ->
    (forall c, -1 <= c <= 7 -> color_ok c = true) ->
    color_rules st = [] ->
    exists st',
      init_colors COLOR_PAIRS color_ok beyond true true true st
      = Some (0, st') /\
      color_rules st' = default_store /\
      dense_pool COLOR_PAIRS beyond st' default_contents.
Proof.
  intros CP ok beyond st Hcp Hok Hrules.
  unfold init_colors. cbn [negb].
  replace (CP <? 1) with false by lia.
  apply set_default_colors_row; [done|done|exact Hrules|].
  apply dense_pool_start. lia.
Qed.

Lemma legal_colors8 c : -1 <= c <= 7 -> legal_color 8 c = true.
Proof. intros H. unfold legal_color. lia. Qed.

Lemma init_colors_default_store_witness :
  exists st',
    init_colors 8 (legal_color 8) zero_heap true true true colors_start
    = Some (0, st') /\
    color_rules st' = default_store /\
    dense_pool 8 zero_heap st' default_contents.
Proof.
  refine (init_colors_default_store 8 (legal_color 8) zero_heap colors_start
            _ legal_colors8 eq_refl).
  unfold SHRT_MAX. lia.
Defined.

(** A rule of one clause, closed by its quote, asks what the clause
    asks. *)
Lemma eval_rules_one_field match_string letter pattern tsk selected :
  Ascii.eqb letter "S" = false ->
  pattern_ok pattern = true ->
  eval_rules match_string
    (Some (String tilde (String letter (" '" +:+ pattern +:+ "'"))))
    tsk selected
  = clause_holds match_string tsk selected (Field letter pattern).
Proof.
  intros Hl Hp.
  rewrite (eval_rules_field match_string letter pattern "'" tsk selected Hl Hp)
    by (right; by exists EmptyString).
  apply andb_true_r.
Qed.

(** X26. After [init_colors()] on a terminal as in X25, whatever the
    matcher and the task: the header gets pair 1 and an error pair 5; a
    selected task gets pair 6; a task that is not selected gets pair 5 when
    its project matches [task*], else pair 4 when its description matches
    [\?], else pair 3 when its priority matches [[Mm]], else pair 2. *)
Theorem default_colors_resolved :
  forall (COLOR_PAIRS : Z) (color_ok beyond : Z -> bool)
         (match_string : option string -> string -> bool)
         (st st' : colors) (ret : Z) (tsk : task) (selected : bool),
    7 <= COLOR_PAIRS <= SHRT_MAX ->
    (forall c, -1 <= c <= 7 -> color_ok c = true) ->
    color_rules st = [] ->
    init_colors COLOR_PAIRS color_ok beyond true true true st
    = Some (ret, st') ->
    get_colors match_string st' OBJECT_HEADER tsk selected = COLOR_PAIR 1 /\
    get_colors match_string st' OBJECT_ERROR tsk selected = COLOR_PAIR 5 /\
    get_colors match_string st' OBJECT_TASK tsk true = COLOR_PAIR 6 /\
    get_colors match_string st' OBJECT_TASK tsk false
    = COLOR_PAIR
        (if match_string (project tsk) "task*" then 5
         else if match_string (description tsk) "\?" then 4
         else if match_string (Some (of_char (priority tsk))) "[Mm]" then 3
         else 2).
Proof.
  intros CP ok beyond ms st st' ret tsk selected Hcp Hok Hrules H.
  unfold init_colors in H. cbn [negb] in H.
  replace (CP <? 1) with false in H by lia.
  match type of H with
  | set_default_colors _ _ _ ?s0 = _ =>
      destruct (set_default_colors_row CP ok beyond s0 Hcp Hok Hrules
                  (dense_pool_start CP beyond _ _ ltac:(lia)))
        as (s & E & R & _)
  end.
  rewrite E in H. injection H as <- <-.
  unfold get_colors. rewrite R. unfold default_store.
  assert (Er : forall sel, eval_rules ms (Some "~r '[Mm]'"%string) tsk sel
                           = ms (Some (of_char (priority tsk))) "[Mm]"%string)
    by (intros sel; exact (eval_rules_one_field ms "r" "[Mm]" tsk sel
                             eq_refl eq_refl)).
  assert (Ed : forall sel, eval_rules ms (Some "~d '\?'"%string) tsk sel
                           = ms (description tsk) "\?"%string)
    by (intros sel; exact (eval_rules_one_field ms "d" "\?" tsk sel
                             eq_refl eq_refl)).
  assert (Ep : forall sel, eval_rules ms (Some "~p 'task*'"%string) tsk sel
                           = ms (project tsk) "task*"%string)
    by (intros sel; exact (eval_rules_one_field ms "p" "task*" tsk sel
                             eq_refl eq_refl)).
  assert (Es : forall sel, eval_rules ms (Some "~S"%string) tsk sel = sel)
    by (intros sel; by destruct sel).
  split; [reflexivity|]. split; [reflexivity|].
  cbn [get_colors_walk new_rule object_eqb rule_object rule_text rule_pair].
  rewrite !Er, !Ed, !Ep, !Es. cbn [eval_rules].
  split.
  - by destruct (ms (Some (of_char (priority tsk))) "[Mm]"),
      (ms (description tsk) "\?"), (ms (project tsk) "task*").
  - by destruct (ms (Some (of_char (priority tsk))) "[Mm]"),
      (ms (description tsk) "\?"), (ms (project tsk) "task*").
Qed.

Lemma default_colors_resolved_witness :
  get_colors match_literal started8 OBJECT_TASK tilde_task true = COLOR_PAIR 6.
Proof.
  refine (proj1 (proj2 (proj2
            (default_colors_resolved 8 (legal_color 8) zero_heap match_literal
               colors_start started8 0 tilde_task true _ legal_colors8
               eq_refl _)))).
  - unfold SHRT_MAX. lia.
  - by vm_compute.
Defined.
